(** * Semantic word game: the embedding generator

    A shallow embedding of [embeddings-py/embedding_generator.py] and the
    properties its description states about it.

    The script is a linear pipeline over third-party libraries.  What is
    embedded here is the script's own logic: the vocabulary filter, the
    min-max quantizers, the duplicate-row counting, the generator object with
    its three fields, and the table of export formats.  The libraries
    (NLTK corpora, the sentence-embedding model, UMAP, scikit-learn's cosine
    similarity, the compression codecs) are section variables; where a
    property needs a library's contract, the contract is a section
    hypothesis.

    Conventions.
    - A NumPy floating-point array is a [ndarray]: its dtype (a binary
      floating-point format) and its rows.  Arithmetic is IEEE-754
      round-to-nearest-even as specified by [SpecFloat]; a Python scalar
      mixed with an array takes the array's dtype (NumPy 2 promotion).
    - A Python exception is a [Raise e] result.
    - The file system is a tree of directories and regular files, each
      under the parts of its path, without symbolic links or [..] parts
      and with every directory writable.
    - The quotient of two Python integers is kept as an exact rational. *)

From Stdlib Require Import ZArith QArith Lia List String Ascii.
From Stdlib Require Import SpecFloat DecimalString.
From stdpp Require Import gmap strings list fin_maps sorting.

Set Default Proof Using "Type".

(** ** Exceptions and results *)

Inductive exn : Set :=
| ValueError
| AttributeError
| IndexError
| TypeError
| OverflowError
| ZeroDivisionError
| KeyError
| FileNotFoundError
| FileExistsError
| IsADirectoryError
| NotADirectoryError
| RuntimeError.

Inductive result (A : Type) : Type :=
| Ok (a : A)
| Raise (e : exn).

Arguments Ok {A} a.
Arguments Raise {A} e.

#[global] Instance result_ret : MRet result := fun _ a => Ok a.

#[global] Instance result_bind : MBind result := fun _ _ k r =>
  match r with
  | Ok a => k a
  | Raise e => Raise e
  end.

(** ** Floating-point formats and arrays *)

(** The dtype of a floating-point array: precision (bits of the significand,
    hidden bit included) and the exponent of the infinities. *)
Record float_dtype : Set := { prec : Z; emax : Z }.

Definition float16 : float_dtype := {| prec := 11; emax := 16 |}.
Definition float32 : float_dtype := {| prec := 24; emax := 128 |}.
Definition float64 : float_dtype := {| prec := 53; emax := 1024 |}.

Definition fsub (t : float_dtype) := SFsub (prec t) (emax t).
Definition fmul (t : float_dtype) := SFmul (prec t) (emax t).
Definition fdiv (t : float_dtype) := SFdiv (prec t) (emax t).
Definition valid_float (t : float_dtype) := valid_binary (prec t) (emax t).

(** A Python [int] used as a scalar of dtype [t]. *)
Definition float_of_int (t : float_dtype) (z : Z) : spec_float :=
  binary_normalize (prec t) (emax t) z 0 false.

(** Conversion of a float to dtype [t] ([astype] between float types,
    [float(x)] for binary64). *)
Definition float_cast (t : float_dtype) (x : spec_float) : spec_float :=
  match x with
  | S754_finite s m e => binary_round (prec t) (emax t) s m e
  | _ => x
  end.

Definition is_nan (x : spec_float) : bool :=
  match x with S754_nan => true | _ => false end.

Definition is_finite (x : spec_float) : bool :=
  match x with S754_zero _ | S754_finite _ _ _ => true | _ => false end.

Definition is_zero (x : spec_float) : bool :=
  match x with S754_zero _ => true | _ => false end.

(** NumPy's [minimum] and [maximum] loops: a NaN operand wins. *)
Definition np_minimum (a b : spec_float) : spec_float :=
  if SFleb a b || is_nan a then a else b.

Definition np_maximum (a b : spec_float) : spec_float :=
  if SFleb b a || is_nan a then a else b.

Record ndarray : Set := { dtype : float_dtype; rows : list (list spec_float) }.

Definition flat (a : ndarray) : list spec_float := concat (rows a).

(** [arr.min()] and [arr.max()]: a reduction over all entries, which raises
    [ValueError] on an array without entries. *)
Definition amin (a : ndarray) : result spec_float :=
  match flat a with
  | [] => Raise ValueError
  | x :: l => Ok (fold_left np_minimum l x)
  end.

Definition amax (a : ndarray) : result spec_float :=
  match flat a with
  | [] => Raise ValueError
  | x :: l => Ok (fold_left np_maximum l x)
  end.

(** The integer part of a float, rounding toward zero; [None] for NaN and
    the infinities. *)
Definition trunc (x : spec_float) : option Z :=
  match x with
  | S754_zero _ => Some 0%Z
  | S754_finite s m e =>
      let a := match e with
               | Zneg p => Z.shiftr (Zpos m) (Zpos p)
               | _ => Z.shiftl (Zpos m) e
               end in
      Some (if s then Z.opp a else a)
  | _ => None
  end.


(** ** Python lists and integers *)

(** [l[i]] for a Python integer [i]: negative indices count from the end,
    and an index outside [-len(l), len(l)) raises [IndexError]. *)
Definition py_index {A : Type} (l : list A) (i : Z) : result A :=
  let n := Z.of_nat (length l) in
  let j := if (i <? 0)%Z then (i + n)%Z else i in
  if (j <? 0)%Z then Raise IndexError
  else match l !! Z.to_nat j with
       | Some x => Ok x
       | None => Raise IndexError
       end.

(** [l[:n]]: the first [n] entries, or all but the last [-n] for a negative
    [n]. *)
Definition py_slice_to {A : Type} (l : list A) (n : Z) : list A :=
  if (n <? 0)%Z then take (Z.to_nat (Z.of_nat (length l) + n)) l
  else take (Z.to_nat n) l.

(** [l.index(x)]: the position of the first occurrence, [ValueError] when
    there is none. *)
Fixpoint list_index `{EqDecision A} (x : A) (l : list A) : option nat :=
  match l with
  | [] => None
  | y :: l' => if decide (x = y) then Some 0 else S <$> list_index x l'
  end.

Definition py_list_index `{EqDecision A} (l : list A) (x : A) : result nat :=
  match list_index x l with
  | Some i => Ok i
  | None => Raise ValueError
  end.

(** [a / b] on Python integers. *)
Definition py_truediv (a b : Z) : result Q :=
  if (b =? 0)%Z then Raise ZeroDivisionError
  else Ok (Qmake a 1 / Qmake b 1)%Q.

(** [str(n)] for a Python integer, as an f-string prints it. *)
Definition py_str_of_int (n : Z) : string :=
  NilEmpty.string_of_int (Z.to_int n).

(** ** [collections.Counter]

    A counter is a dictionary in insertion order: a key is appended when it
    is first counted and keeps its place afterwards. *)
Section Counter.
Context {K : Type} `{EqDecision K}.

Fixpoint counter_incr (k : K) (c : list (K * nat)) : list (K * nat) :=
match c with
| [] => [(k, 1)]
| (k', n) :: c' =>
    if decide (k = k') then (k', S n) :: c' else (k', n) :: counter_incr k c'
end.

Definition Counter (l : list K) : list (K * nat) :=
fold_left (fun c k => counter_incr k c) l [].

(** [{k: n for k, n in c.items() if n > 1}] *)
Definition more_than_once (c : list (K * nat)) : list (K * nat) :=
filter (fun kn => 1 < kn.2) c.
End Counter.


(** [c.most_common()]: the items by decreasing count; the sort is stable,
    so items of equal count stay in insertion order. *)
Fixpoint insert_by_count {K : Type} (x : K * nat) (l : list (K * nat)) : list (K * nat) :=
  match l with
  | [] => [x]
  | y :: l' => if decide (x.2 < y.2) then y :: insert_by_count x l' else x :: y :: l'
  end.

Definition most_common {K : Type} (c : list (K * nat)) : list (K * nat) :=
  foldr insert_by_count [] c.

(** ** Python strings (ASCII text, as the two corpora are) *)

Definition is_upper (c : ascii) : bool :=
  let n := nat_of_ascii c in (65 <=? n)%nat && (n <=? 90)%nat.

Definition is_lower (c : ascii) : bool :=
  let n := nat_of_ascii c in (97 <=? n)%nat && (n <=? 122)%nat.

Fixpoint all_chars (p : ascii -> bool) (s : string) : bool :=
  match s with
  | EmptyString => true
  | String c s' => p c && all_chars p s'
  end.

(** [s.isalpha()]: at least one character and letters only. *)
Definition isalpha (s : string) : bool :=
  match s with
  | EmptyString => false
  | _ => all_chars (fun c => is_upper c || is_lower c) s
  end.

Definition lower_char (c : ascii) : ascii :=
  if is_upper c then ascii_of_nat (nat_of_ascii c + 32) else c.

(** [s.lower()] *)
Fixpoint lower (s : string) : string :=
  match s with
  | EmptyString => EmptyString
  | String c s' => String (lower_char c) (lower s')
  end.

(** *** [get_frequency_sorted_words] *)

Definition stop_words : gset string :=
  list_to_set
    ["the"; "be"; "to"; "of"; "and"; "a"; "in"; "that"; "have"; "i"; "it"; "for";
     "not"; "on"; "with"; "he"; "as"; "you"; "do"; "at"; "this"; "but"; "his"; "by";
     "from"; "they"; "we"; "say"; "her"; "she"; "or"; "an"; "will"; "my"; "one"; "all";
     "would"; "there"; "their"; "been"; "has"; "had"; "who"; "its"; "now"; "may";
     "does"; "many"; "than"; "then";
     "them"; "these"; "very"; "just"; "into";
     "over"; "also"; "your"; "only"; "still"; "never";
     "each"; "how"; "our"; "out"; "most"; "some"; "her"].

Section Vocabulary.

(** The NLTK side: [nltk.download], the tokens of [brown.words()] and the
  entries of [nltk_words.words()]. *)
Variable nltk_download : string -> result unit.
Variable brown_corpus : list string.
Variable words_corpus : list string.

(** [brown_words]: the alphabetic tokens of the Brown corpus, lowercased. *)
Definition brown_words : list string :=
map lower (filter (fun w => isalpha w = true) brown_corpus).

Definition word_freq : list (string * nat) := Counter brown_words.

Definition valid_words : gset string :=
list_to_set (map lower (filter (fun w => isalpha w = true) words_corpus)).

(** The test of the filtering loop. *)
Definition game_word (wf : string * nat) : bool :=
let '(word, frequency) := wf in
bool_decide (word ∈ valid_words)
&& bool_decide (word ∉ stop_words)
&& (3 <=? String.length word)%nat && (String.length word <=? 12)%nat
&& isalpha word
&& (3 <=? frequency)%nat.

Definition frequent_valid_words : list (string * nat) :=
filter (fun wf => game_word wf = true) (most_common word_freq).

Definition get_frequency_sorted_words (n_words : Z) : result (list string) :=
_ ← match nltk_download "brown" with
    | Ok _ => match nltk_download "words" with
              | Ok _ => Ok ()
              | Raise _ => Raise RuntimeError
              end
    | Raise _ => Raise RuntimeError
    end;
let words_only := map fst (py_slice_to frequent_valid_words n_words) in
(* the frequency range that is printed *)
_ ← py_index frequent_valid_words 0;
_ ← py_index frequent_valid_words
      (Z.min (Z.of_nat (length frequent_valid_words) - 1) (n_words - 1));
Ok words_only.

(** The two halves of the function, between which the filtering banner
  is printed: the downloads, and the selection of the words. *)
Definition download_corpora : result unit :=
match nltk_download "brown" with
| Ok _ => match nltk_download "words" with
          | Ok _ => Ok ()
          | Raise _ => Raise RuntimeError
          end
| Raise _ => Raise RuntimeError
end.

Definition select_words (n_words : Z) : result (list string) :=
let words_only := map fst (py_slice_to frequent_valid_words n_words) in
_ ← py_index frequent_valid_words 0;
_ ← py_index frequent_valid_words
      (Z.min (Z.of_nat (length frequent_valid_words) - 1) (n_words - 1));
Ok words_only.

End Vocabulary.

(** ** Unsigned integer dtypes *)

(** [getattr(np, name)] for the names the quantizer can build: NumPy has
    the unsigned types of 8, 16, 32 and 64 bits and no other [uint<n>]. *)
Definition np_uint_attr (name : string) : result Z :=
  if decide (name = "uint8") then Ok 8%Z
  else if decide (name = "uint16") then Ok 16%Z
  else if decide (name = "uint32") then Ok 32%Z
  else if decide (name = "uint64") then Ok 64%Z
  else Raise AttributeError.

(** [2**n_bits - 1] as the scalar that divides into a float of dtype [t].
    For [0 <= n_bits] it is a Python integer, which does not convert to a
    float from [2**1024] on; for a negative [n_bits] Python computes the
    power and the difference in binary64. *)
Definition levels (t : float_dtype) (n_bits : Z) : result spec_float :=
  if (0 <=? n_bits)%Z then
    if (n_bits <? 1024)%Z then Ok (float_of_int t (2 ^ n_bits - 1))
    else Raise OverflowError
  else
    let p := SFldexp (prec float64) (emax float64)
               (float_of_int float64 1) n_bits in
    Ok (float_cast t (fsub float64 p (float_of_int float64 1))).

(** ** The model *)

Section Model.

(** What [astype] stores for a float that the target integer type cannot
  hold (a NaN, an infinity, a value out of range): NumPy leaves it to
  the platform.  Whatever it is, it is a value of the target type. *)
Variable cast_undef : spec_float -> Z.

(** [x.astype(np.uint<w>)] on one entry. *)
Definition astype_uint (w : Z) (x : spec_float) : Z :=
match trunc x with
| Some z =>
    if ((0 <=? z) && (z <? 2 ^ w))%Z then z else (cast_undef x mod 2 ^ w)%Z
| None => (cast_undef x mod 2 ^ w)%Z
end.

(** [(arr - arr_min) * scale] on one entry. *)
Definition rescale (t : float_dtype) (arr_min scale x : spec_float) : spec_float :=
fmul t (fsub t x arr_min) scale.

(** *** [quantize_to_uint8] (nested in [export_data]) *)
Definition quantize_to_uint8 (arr : ndarray)
: result (list (list Z) * spec_float * spec_float * spec_float) :=
arr_min ← amin arr;
arr_max ← amax arr;
let t := dtype arr in
let scale := fdiv t (float_of_int t 255) (fsub t arr_max arr_min) in
let quantized := map (map (fun x => astype_uint 8 (rescale t arr_min scale x))) (rows arr) in
Ok (quantized, arr_min, arr_max, scale).

(** *** [quantize_to_uint] (nested in [analyze_collisions]) *)
Definition quantize_to_uint (arr : ndarray) (n_bits : Z) : result (list (list Z)) :=
arr_min ← amin arr;
arr_max ← amax arr;
let t := dtype arr in
num ← levels t n_bits;
let scale := fdiv t num (fsub t arr_max arr_min) in
let scaled := map (map (rescale t arr_min scale)) (rows arr) in
w ← np_uint_attr (if (n_bits <=? 8)%Z then "uint" +:+ py_str_of_int n_bits else "uint16");
Ok (map (map (astype_uint w)) scaled).

(** *** [analyze_collisions] *)

(** The inner loop: the words at the positions where the quantized row
  equals [embedding_tuple], from position [i] on. *)
Fixpoint colliding_from (i : nat) (embedding_tuples : list (list Z))
  (words : list string) (embedding_tuple : list Z) : result (list string) :=
match embedding_tuples with
| [] => Ok []
| emb_tuple :: rest =>
    if decide (emb_tuple = embedding_tuple) then
      w ← py_index words (Z.of_nat i);
      ws ← colliding_from (S i) rest words embedding_tuple;
      Ok (w :: ws)
    else colliding_from (S i) rest words embedding_tuple
end.

(** The outer loop over the collision groups that are shown. *)
Fixpoint collect_groups (shown : list (list Z * nat))
  (embedding_tuples : list (list Z)) (words : list string)
: result (list (list string)) :=
match shown with
| [] => Ok []
| (embedding_tuple, _) :: rest =>
    colliding_words ← colliding_from 0 embedding_tuples words embedding_tuple;
    groups ← collect_groups rest embedding_tuples words;
    Ok (colliding_words :: groups)
end.

Definition analyze_collisions (embeddings : ndarray) (words : list string)
  (bits : Z) : result (Q * list (list string)) :=
quantized ← quantize_to_uint embeddings bits;
let embedding_tuples := quantized in
let unique_embeddings := size (list_to_set embedding_tuples : gset (list Z)) in
let total_embeddings := length (rows embeddings) in
collision_rate ← py_truediv (Z.of_nat total_embeddings - Z.of_nat unique_embeddings)
                            (Z.of_nat total_embeddings);
let embedding_counts := Counter embedding_tuples in
let collisions := more_than_once embedding_counts in
match collisions with
| _ :: _ =>
    collision_groups ← collect_groups (take 5 collisions) embedding_tuples words;
    Ok (collision_rate, collision_groups)
| [] => Ok (0%Q, [])
end.

(** *** [analyze_similarity_collisions] *)

(** scikit-learn's cosine similarity of two vectors of dtype [t]. *)
Variable cosine_similarity : float_dtype -> list spec_float -> list spec_float -> spec_float.

Definition common_targets : list string := ["house"; "water"; "time"; "person"; "day"].

(** The example lines that are printed: for each of the first three
  collision groups, the words at the first five positions with that
  quantized score. *)
Definition example_words (words : list string) (quantized_sims : list Z)
  (quantized_sim : Z) : result (list string) :=
let word_indices :=
  filter (fun i => quantized_sims !! i = Some quantized_sim)
         (seq 0 (length quantized_sims)) in
mapM (M := result) (fun i => py_index words (Z.of_nat i)) (take 5 word_indices).

(** The quantization of the similarities (inlined in the source), with
  the scale and the minimum the printed examples use. *)
Definition quantize_similarities (similarities : ndarray) (bits : Z)
: result (list Z * spec_float * spec_float) :=
sim_min ← amin similarities;
sim_max ← amax similarities;
let t := dtype similarities in
num ← levels t bits;
let scale := fdiv t num (fsub t sim_max sim_min) in
let quantized_sims :=
  map (fun x => astype_uint 8 (rescale t sim_min scale x)) (flat similarities) in
Ok (quantized_sims, scale, sim_min).

Definition analyze_similarity_collisions (embeddings : ndarray) (words : list string)
  (target_word : option string) (bits : Z) : result Q :=
target_word ←
  match target_word with
  | Some w => if decide (w ∈ words) then Ok w
              else
                fallback ← py_index words (Z.of_nat (length words) / 2);
                Ok (default fallback (head (filter (fun w => w ∈ words) common_targets)))
  | None =>
      fallback ← py_index words (Z.of_nat (length words) / 2);
      Ok (default fallback (head (filter (fun w => w ∈ words) common_targets)))
  end;
target_idx ← py_list_index words target_word;
target_embedding ← py_index (rows embeddings) (Z.of_nat target_idx);
let t := dtype embeddings in
let similarities :=
  {| dtype := t; rows := [map (cosine_similarity t target_embedding) (rows embeddings)] |} in
'(quantized_sims, scale, sim_min) ← quantize_similarities similarities bits;
let sim_counts := Counter quantized_sims in
let sim_collisions := more_than_once sim_counts in
_ ← mapM (M := result) (fun qc => example_words words quantized_sims qc.1) (take 3 sim_collisions);
py_truediv (Z.of_nat (sum_list (map (fun qc => qc.2 - 1) sim_collisions)))
           (Z.of_nat (length words)).

End Model.


(** ** [format_size] *)

(** [a / b] rounded to the nearest integer, a tie to the even one (for
    [0 <= a] and [0 < b]). *)
Definition round_half_even_div (a b : Z) : Z :=
  let q := (a / b)%Z in
  match (2 * (a mod b) ?= b)%Z with
  | Lt => q
  | Eq => if Z.even q then q else (q + 1)%Z
  | Gt => (q + 1)%Z
  end.

(** A Python number: an [int] or a [float] (binary64). *)
Inductive pynum : Set :=
| PyInt (n : Z)
| PyFloat (x : spec_float).

(** [float(n)]: the nearest float, [OverflowError] when there is none. *)
Definition py_float_of_int (n : Z) : result spec_float :=
  let x := float_of_int float64 n in
  if is_finite x then Ok x else Raise OverflowError.

(** [a < 1024.0]; an [int] is compared exactly. *)
Definition lt_1024 (a : pynum) : bool :=
  match a with
  | PyInt n => (n <? 1024)%Z
  | PyFloat x => SFltb x (float_of_int float64 1024)
  end.

(** [a / 1024.0] *)
Definition div_1024 (a : pynum) : result spec_float :=
  match a with
  | PyInt n => x ← py_float_of_int n; Ok (fdiv float64 x (float_of_int float64 1024))
  | PyFloat x => Ok (fdiv float64 x (float_of_int float64 1024))
  end.

(** The digits of [h] hundredths. *)
Definition two_decimals (h : Z) : string :=
  py_str_of_int (h / 100) +:+ "." +:+
  (if (h mod 100 <? 10)%Z then "0" else "") +:+ py_str_of_int (h mod 100).

(** The value [m * 2 ^ e] in hundredths, rounded to nearest, ties to
    even. *)
Definition hundredths (m : positive) (e : Z) : Z :=
  match e with
  | Zneg p => round_half_even_div (100 * Zpos m) (2 ^ Zpos p)
  | _ => (100 * Zpos m * 2 ^ e)%Z
  end.

(** [f"{x:.2f}"] for a float. *)
Definition float_2f (x : spec_float) : string :=
  match x with
  | S754_nan => "nan"
  | S754_infinity s => if s then "-inf" else "inf"
  | S754_zero s => (if s then "-" else "") +:+ "0.00"
  | S754_finite s m e => (if s then "-" else "") +:+ two_decimals (hundredths m e)
  end.

(** [f"{a:.2f}"]: an [int] is converted to a float first. *)
Definition format_2f (a : pynum) : result string :=
  match a with
  | PyInt n => x ← py_float_of_int n; Ok (float_2f x)
  | PyFloat x => Ok (float_2f x)
  end.

(** The loop over the units that are left. *)
Fixpoint format_size_from (units : list string) (size_bytes : pynum) : result string :=
  match units with
  | [] => s ← format_2f size_bytes; Ok (s +:+ " TB")
  | unit :: units' =>
      if lt_1024 size_bytes then s ← format_2f size_bytes; Ok (s +:+ " " +:+ unit)
      else x ← div_1024 size_bytes; format_size_from units' (PyFloat x)
  end.

Definition format_size (size_bytes : pynum) : result string :=
  format_size_from ["B"; "KB"; "MB"; "GB"] size_bytes.

(** ** Paths *)

(** A [pathlib] path is the list of its parts: the root, if the path has
    one, then the names.  The empty list is the current directory. *)
Definition path : Type := list string.

(** The pieces of a string between its slashes. *)
Fixpoint split_slash (s : string) : list string :=
  match s with
  | EmptyString => [EmptyString]
  | String c s' =>
      if Ascii.eqb c "/" then EmptyString :: split_slash s'
      else match split_slash s' with
           | piece :: pieces => String c piece :: pieces
           | [] => [String c EmptyString]
           end
  end.

(** The root of a POSIX path: exactly two leading slashes are kept, any
    other number of them is one. *)
Definition root_of (s : string) : list string :=
  match s with
  | String c1 (String c2 (String c3 _)) =>
      if Ascii.eqb c1 "/" then
        if Ascii.eqb c2 "/" then if Ascii.eqb c3 "/" then ["/"] else ["//"] else ["/"]
      else []
  | String c1 (String c2 EmptyString) =>
      if Ascii.eqb c1 "/" then if Ascii.eqb c2 "/" then ["//"] else ["/"] else []
  | String c1 EmptyString => if Ascii.eqb c1 "/" then ["/"] else []
  | EmptyString => []
  end.

(** [Path(s)]: empty pieces and ["."] are dropped. *)
Definition Path (s : string) : path :=
  root_of s ++ filter (fun piece => piece <> "" /\ piece <> ".") (split_slash s).

(** [p / s] *)
Definition joinpath (p : path) (s : string) : path :=
  match root_of s with
  | [] => p ++ Path s
  | _ :: _ => Path s
  end.

(** [p.parent] *)
Definition parent (p : path) : path :=
  match p with
  | [] => []
  | [name] => if decide (name = "/" \/ name = "//") then p else []
  | _ :: _ :: _ => removelast p
  end.

(** ** The files that are written, and what is printed *)

(** The stages of the pipeline, as the banners the script prints announce
    them. *)
Inductive stage : Set :=
| CorpusLoading            (* line 42, in [get_frequency_sorted_words] *)
| Filtering                (* line 65, in [get_frequency_sorted_words] *)
| Embedding                (* line 211, in [generate_embeddings] *)
| DimensionalityReduction  (* line 227, in [generate_umap_coordinates] *)
| Export                   (* lines 262 to 264, in [export_data] *)
| CollisionAnalysis        (* line 114, in [analyze_collisions] *).

#[global] Instance stage_eq_dec : EqDecision stage.
Proof. solve_decision. Defined.

(** The world outside the interpreter: the regular files and the
    directories, each under its path, and the stage banners printed so
    far. *)
Record world : Type := {
  files : gmap path string;
  dirs : gset path;
  printed : list stage
}.

Definition io (A : Type) : Type := world -> result A * world.

#[global] Instance io_ret : MRet io := fun _ a w => (Ok a, w).

#[global] Instance io_bind : MBind io := fun _ _ k m w =>
  match m w with
  | (Ok a, w') => k a w'
  | (Raise e, w') => (Raise e, w')
  end.

Definition lift {A : Type} (r : result A) : io A := fun w => (r, w).

Definition announce (s : stage) : io unit := fun w =>
  (Ok (), {| files := files w; dirs := dirs w; printed := printed w ++ [s] |}).

(** The current directory and the roots are directories of every
    world. *)
Definition is_dir (w : world) (p : path) : bool :=
  bool_decide (p = [] \/ p = ["/"] \/ p = ["//"] \/ p ∈ dirs w).

Definition is_file (w : world) (p : path) : bool :=
  bool_decide (is_Some (files w !! p)).

(** The look-up of the directory [rest] under [cur], one name after the
    other: a name that is missing raises [FileNotFoundError], a name
    that is a regular file [NotADirectoryError]. *)
Fixpoint walk (w : world) (cur : path) (rest : list string) : result unit :=
  match rest with
  | [] => Ok ()
  | name :: rest' =>
      let next := cur ++ [name] in
      if is_dir w next then walk w next rest'
      else if is_file w next then Raise NotADirectoryError
      else Raise FileNotFoundError
  end.

(** [p.mkdir(exist_ok=True)]: the parent has to be there; a directory at
    [p] is left alone, a regular file at [p] raises [FileExistsError]. *)
Definition mkdir_exist_ok (p : path) : io unit := fun w =>
  match walk w [] (parent p) with
  | Raise e => (Raise e, w)
  | Ok _ =>
      if is_dir w p then (Ok (), w)
      else if is_file w p then (Raise FileExistsError, w)
      else (Ok (), {| files := files w; dirs := {[p]} ∪ dirs w; printed := printed w |})
  end.

(** [open(p, 'w')] and [write]: the file is created or replaced. *)
Definition write_file (p : path) (content : string) : io unit := fun w =>
  match walk w [] (parent p) with
  | Raise e => (Raise e, w)
  | Ok _ =>
      if is_dir w p then (Raise IsADirectoryError, w)
      else (Ok (), {| files := <[p := content]> (files w); dirs := dirs w;
                      printed := printed w |})
  end.

(** [p.stat().st_size] of a regular file. *)
Definition st_size (p : path) : io nat := fun w =>
  match files w !! p with
  | Some content => (Ok (String.length content), w)
  | None => (Raise FileNotFoundError, w)
  end.

(** ** JSON values *)

#[local] Unset Elimination Schemes.
Inductive json : Type :=
| JInt (z : Z)
| JFloat (x : spec_float)
| JStr (s : string)
| JList (l : list json)
| JObj (l : list (string * json)).
#[local] Set Elimination Schemes.

(** [arr.tolist()] and [arr.shape] as JSON. *)
Definition tolist (a : ndarray) : json :=
  JList (map (fun r => JList (map (fun x => JFloat (float_cast float64 x)) r)) (rows a)).

(** [arr.shape] of a two-dimensional array. *)
Definition shape (a : ndarray) : nat * nat :=
  (length (rows a), match rows a with r :: _ => length r | [] => 0 end).

Definition json_shape (a : ndarray) : json :=
  JList [JInt (Z.of_nat (shape a).1); JInt (Z.of_nat (shape a).2)].

(** [a.astype(t)] for a float dtype [t]. *)
Definition astype_float (t : float_dtype) (a : ndarray) : ndarray :=
  {| dtype := t; rows := map (map (float_cast t)) (rows a) |}.

(** [q.tobytes()] for an array of unsigned 8-bit values. *)
Definition uint8_tobytes (q : list (list Z)) : string :=
  string_of_list_ascii (map (fun z => ascii_of_nat (Z.to_nat z)) (concat q)).

(** ** The class [EmbeddingGenerator] *)

Module EmbeddingGenerator.

(** The fields of an instance; [None] is Python's [None].  The model
  itself is the section variable [encode] below. *)
Record generator : Set := {
embeddings : option ndarray;
words : option (list string);
umap_coords : option ndarray
}.

(** A method is run on the instance and leaves it in a new state, also
  when it raises. *)
Definition method (A : Type) : Type := generator -> result A * generator.

(** [__init__] *)
Definition init : generator :=
{| embeddings := None; words := None; umap_coords := None |}.

Section Methods.

Variable cast_undef : spec_float -> Z.
Variable cosine_similarity : float_dtype -> list spec_float -> list spec_float -> spec_float.

(** [self.model.encode(words, ...)] *)
Variable encode : list string -> ndarray.

(** [umap.UMAP(n_components, random_state, n_neighbors=15, min_dist=0.1,
metric='cosine').fit_transform(embeddings)] *)
Variable umap_fit_transform : Z -> Z -> ndarray -> ndarray.

Definition generate_embeddings (ws : list string) : method ndarray := fun self =>
  let e := encode ws in
  (Ok e, {| words := Some ws; embeddings := Some e; umap_coords := umap_coords self |}).

Definition generate_umap_coordinates (n_components random_state : Z)
  : method ndarray := fun self =>
  match embeddings self with
  | None => (Raise ValueError, self)
  | Some e =>
  let c := umap_fit_transform n_components random_state e in
  (Ok c, {| words := words self; embeddings := embeddings self;
            umap_coords := Some c |})
  end.

(** The defaults of [generate_umap_coordinates]. *)
Definition default_n_components : Z := 2.
Definition default_random_state : Z := 42.

Definition test_similarity (word1 word2 : string) (self : generator)
  : result (option spec_float) :=
  match words self with
  | None => Raise TypeError
  | Some ws =>
  if decide (word1 ∉ ws ∨ word2 ∉ ws) then Ok None
  else
    idx1 ← py_list_index ws word1;
    idx2 ← py_list_index ws word2;
    match embeddings self with
    | None => Raise TypeError
    | Some e =>
        v1 ← py_index (rows e) (Z.of_nat idx1);
        v2 ← py_index (rows e) (Z.of_nat idx2);
        Ok (Some (float_cast float64 (cosine_similarity (dtype e) v1 v2)))
    end
  end.

(** *** [export_data] *)

(** The optional codecs, and the serializers and codecs themselves. *)
Variable HAS_BLOSC HAS_LZ4 : bool.
Variable json_dumps : json -> string.
Variable gzip_compress brotli_compress lz4_compress : string -> string.
Variable savez_compressed : ndarray -> ndarray -> list string -> string.
Variable tobytes : ndarray -> string.
Variable blosc2_compress2 : ndarray -> string.
Variable b64encode : string -> string.

(** [formats[name] = file.stat().st_size] *)
Definition record_size (name : string) (file : path) (formats : gmap string nat)
  : io (gmap string nat) :=
  size ← st_size file;
  mret (<[name := size]> formats).

(** [_print_results]: the table of sizes relative to the raw JSON
file; nothing is returned. *)
Definition _print_results (formats : gmap string nat) : result unit :=
  match formats !! "JSON (raw)" with
  | None => Raise KeyError
  | Some original_size =>
  if decide (original_size = 0) then Raise ZeroDivisionError else Ok ()
  end.

Definition export_data (output_dir : string) (now : spec_float)
(self : generator) : io (gmap string nat) :=
  let output_path := Path output_dir in
  _ ← mkdir_exist_ok output_path;
  _ ← announce Export;
  e ← lift (match embeddings self with Some e => Ok e | None => Raise AttributeError end);
  c ← lift (match umap_coords self with Some c => Ok c | None => Raise AttributeError end);
  ws ← lift (match words self with Some ws => Ok ws | None => Raise TypeError end);
  let data :=
JObj [("words", JList (map JStr ws));
      ("embeddings", tolist e);
      ("umap_coordinates", tolist c);
      ("metadata",
        JObj [("n_words", JInt (Z.of_nat (length ws)));
              ("embedding_dim", JInt (Z.of_nat (shape e).2));
              ("model_name", JStr "all-MiniLM-L6-v2");
              ("generated_at", JFloat now);
              ("source", JStr "NLTK Brown Corpus (frequency-sorted)")])] in
  let formats : gmap string nat := ∅ in
  (* JSON formats *)
  let json_file := joinpath output_path "embeddings.json" in
  _ ← write_file json_file (json_dumps data);
  formats ← record_size "JSON (raw)" json_file formats;
  let json_gz_file := joinpath output_path "embeddings.json.gz" in
  _ ← write_file json_gz_file (gzip_compress (json_dumps data));
  formats ← record_size "JSON (gzip)" json_gz_file formats;
  let json_br_file := joinpath output_path "embeddings.json.br" in
  _ ← write_file json_br_file (brotli_compress (json_dumps data));
  formats ← record_size "JSON (brotli)" json_br_file formats;
  (* binary formats *)
  let npz_file := joinpath output_path "embeddings.npz" in
  _ ← write_file npz_file (savez_compressed e c ws);
  formats ← record_size "NumPy (.npz)" npz_file formats;
  let float32_file := joinpath output_path "embeddings_float32.bin.gz" in
  _ ← write_file float32_file (gzip_compress (tobytes (astype_float float32 e)));
  formats ← record_size "Float32 binary (gzip)" float32_file formats;
  let float16_file := joinpath output_path "embeddings_float16.bin.gz" in
  _ ← write_file float16_file (gzip_compress (tobytes (astype_float float16 e)));
  formats ← record_size "Float16 binary (gzip)" float16_file formats;
  (* specialized compression *)
  formats ←
(if HAS_BLOSC then
   let blosc_file := joinpath output_path "embeddings.blosc2" in
   _ ← write_file blosc_file (blosc2_compress2 (astype_float float32 e));
   record_size "Blosc2 (float32)" blosc_file formats
 else mret formats);
  formats ←
(if HAS_LZ4 then
   let lz4_file := joinpath output_path "embeddings.lz4" in
   _ ← write_file lz4_file (lz4_compress (tobytes (astype_float float32 e)));
   record_size "LZ4 (float32)" lz4_file formats
 else mret formats);
  (* quantized formats *)
  '(quant_embeddings, emb_min, emb_max, emb_scale) ← lift (quantize_to_uint8 cast_undef e);
  '(quant_coords, coord_min, coord_max, coord_scale) ← lift (quantize_to_uint8 cast_undef c);
  let quant_data :=
JObj [("words", JList (map JStr ws));
      ("embeddings_q8", JStr (b64encode (uint8_tobytes quant_embeddings)));
      ("coordinates_q8", JStr (b64encode (uint8_tobytes quant_coords)));
      ("emb_min", JFloat (float_cast float64 emb_min));
      ("emb_max", JFloat (float_cast float64 emb_max));
      ("emb_scale", JFloat (float_cast float64 emb_scale));
      ("coord_min", JFloat (float_cast float64 coord_min));
      ("coord_max", JFloat (float_cast float64 coord_max));
      ("coord_scale", JFloat (float_cast float64 coord_scale));
      ("shape", json_shape e);
      ("coords_shape", json_shape c)] in
  let quant_json_file := joinpath output_path "embeddings_quantized.json" in
  _ ← write_file quant_json_file (json_dumps quant_data);
  formats ← record_size "8-bit quantized JSON (raw)" quant_json_file formats;
  let quant_file := joinpath output_path "embeddings_quantized.json.br" in
  _ ← write_file quant_file (brotli_compress (json_dumps quant_data));
  formats ← record_size "8-bit quantized + Brotli" quant_file formats;
  (* base64 + brotli *)
  let b64_file := joinpath output_path "embeddings_b64.json.br" in
  let web_data :=
JObj [("words", JList (map JStr ws));
      ("embeddings_b64", JStr (b64encode (tobytes (astype_float float32 e))));
      ("coordinates_b64", JStr (b64encode (tobytes (astype_float float32 c))));
      ("shape", json_shape e);
      ("coords_shape", json_shape c);
      ("dtype", JStr "float32")] in
  _ ← write_file b64_file (brotli_compress (json_dumps web_data));
  formats ← record_size "Base64 + Brotli (web)" b64_file formats;
  _ ← lift (_print_results formats);
  _ ← announce CollisionAnalysis;
  _ ← lift (analyze_collisions cast_undef e ws 8);
  _ ← lift (analyze_similarity_collisions cast_undef cosine_similarity e ws None 8);
  mret formats.

End Methods.

End EmbeddingGenerator.

(** ** [main] *)

Section Main.

Variable cast_undef : spec_float -> Z.
Variable cosine_similarity : float_dtype -> list spec_float -> list spec_float -> spec_float.
Variable encode : list string -> ndarray.
Variable umap_fit_transform : Z -> Z -> ndarray -> ndarray.
Variable HAS_BLOSC HAS_LZ4 : bool.
Variable json_dumps : json -> string.
Variable gzip_compress brotli_compress lz4_compress : string -> string.
Variable savez_compressed : ndarray -> ndarray -> list string -> string.
Variable tobytes : ndarray -> string.
Variable blosc2_compress2 : ndarray -> string.
Variable b64encode : string -> string.
Variable nltk_download : string -> result unit.
Variable brown_corpus : list string.
Variable words_corpus : list string.
(** [time.time()] when the export starts. *)
Variable now : spec_float.

Import EmbeddingGenerator.

Definition test_pairs : list (string * string) :=
[("house", "home"); ("person", "man"); ("time", "day"); ("water", "sea")].

(** The sample similarities: a pair is tested when both words were
  selected, and the result is printed with a float format. *)
Definition sample_similarities (ws : list string) (g : generator) : result unit :=
_ ← mapM (M := result)
      (fun p =>
         if decide (p.1 ∈ ws ∧ p.2 ∈ ws) then
           sim ← test_similarity cosine_similarity p.1 p.2 g;
           match sim with
           | Some _ => Ok ()
           | None => Raise TypeError
           end
         else Ok ())
      test_pairs;
Ok ().

(** The calls of [main] with the banners they print, each where the
  source prints it. *)

(** [get_frequency_sorted_words]: the loading banner comes before the
  downloads, the filtering banner after them and before the words are
  selected. *)
Definition get_frequency_sorted_words_io (n_words : Z) : io (list string) :=
_ ← announce CorpusLoading;
_ ← lift (download_corpora nltk_download);
_ ← announce Filtering;
lift (select_words brown_corpus words_corpus n_words).

(** [generate_embeddings]: the banner comes before the model is run. *)
Definition generate_embeddings_io (ws : list string) (self : generator)
  : io (ndarray * generator) :=
_ ← announce Embedding;
let '(r, self') := generate_embeddings encode ws self in
e ← lift r;
mret (e, self').

(** [generate_umap_coordinates]: the banner comes after the guard and
  before UMAP is run. *)
Definition generate_umap_coordinates_io (n_components random_state : Z)
  (self : generator) : io (ndarray * generator) :=
_ ← match embeddings self with
    | None => mret ()
    | Some _ => announce DimensionalityReduction
    end;
let '(r, self') :=
  generate_umap_coordinates umap_fit_transform n_components random_state self in
c ← lift r;
mret (c, self').

(** One round of the loop over [word_counts]. *)
Definition run (n_words : Z) : io unit :=
ws ← get_frequency_sorted_words_io n_words;
let g := init in
'(_, g) ← generate_embeddings_io ws g;
'(_, g) ← generate_umap_coordinates_io default_n_components default_random_state g;
_ ← lift (sample_similarities ws g);
_ ← export_data cast_undef cosine_similarity HAS_BLOSC HAS_LZ4 json_dumps
      gzip_compress brotli_compress lz4_compress savez_compressed tobytes
      blosc2_compress2 b64encode
      ("outputs/output_" +:+ py_str_of_int n_words) now g;
mret ().

Definition word_counts : list Z := [20000%Z].

Definition main : io unit :=
_ ← mapM (M := io) run word_counts;
mret ().

End Main.

(** * Properties *)

(** ** Python lists *)

Lemma list_index_Some `{EqDecision A} (x : A) l :
  x ∈ l -> exists i, list_index x l = Some i /\ l !! i = Some x.
Proof.
  induction l as [|y l IH]; intros Hin; [inversion Hin|].
  simpl. destruct (decide (x = y)) as [->|Hne].
  - exists 0. auto.
  - apply elem_of_cons in Hin as [Hin|Hin]; [contradiction|].
    destruct (IH Hin) as (i & Hi & Hl). exists (S i). rewrite Hi. auto.
Qed.

Lemma py_index_nat {A : Type} (l : list A) i x :
  l !! i = Some x -> py_index l (Z.of_nat i) = Ok x.
Proof.
  intros H. unfold py_index.
  destruct (Z.ltb_spec (Z.of_nat i) 0); [lia|].
  destruct (Z.ltb_spec (Z.of_nat i) 0); [lia|].
  rewrite Nat2Z.id, H. reflexivity.
Qed.

(** ** What an action prints

    [prints m evs]: run from any world, [m] appends a prefix of [evs] to
    what was printed, and all of [evs] when it returns. *)
Definition prints {A : Type} (m : io A) (evs : list stage) : Prop :=
  forall w, exists k,
    k <= length evs /\
    printed (m w).2 = printed w ++ take k evs /\
    (forall a, (m w).1 = Ok a -> k = length evs).

Lemma prints_lift {A : Type} (r : result A) : prints (lift r) [].
Proof. intros w. exists 0. simpl. rewrite app_nil_r. auto. Qed.

Lemma prints_ret {A : Type} (a : A) : prints (mret a : io A) [].
Proof. intros w. exists 0. simpl. rewrite app_nil_r. auto. Qed.

Lemma prints_write p content : prints (write_file p content) [].
Proof.
  intros w. exists 0. unfold write_file.
  destruct (walk w [] (parent p)); [destruct (is_dir w p)|]; simpl; rewrite app_nil_r; auto.
Qed.

Lemma prints_mkdir p : prints (mkdir_exist_ok p) [].
Proof.
  intros w. exists 0. unfold mkdir_exist_ok.
  destruct (walk w [] (parent p)); [destruct (is_dir w p); [|destruct (is_file w p)]|];
    simpl; rewrite app_nil_r; auto.
Qed.

Lemma prints_st_size p : prints (st_size p) [].
Proof.
  intros w. exists 0. unfold st_size.
  destruct (files w !! p); simpl; rewrite app_nil_r; auto.
Qed.

(** An action that raises without printing prints a prefix of anything. *)
Lemma prints_raise {A : Type} (e : exn) evs : prints (lift (Raise e) : io A) evs.
Proof.
  intros w. exists 0. simpl. rewrite take_0, app_nil_r.
  split; [lia|]. split; [reflexivity|discriminate].
Qed.

Lemma prints_announce s : prints (announce s) [s].
Proof. intros w. exists 1. simpl. auto. Qed.

Lemma prints_bind {A B : Type} (m : io A) (k : A -> io B) l1 l2 :
  prints m l1 -> (forall a, prints (k a) l2) -> prints (m ≫= k) (l1 ++ l2).
Proof.
  intros Hm Hk w. destruct (Hm w) as (k1 & Hk1 & Hp1 & Hok1).
  unfold mbind, io_bind. destruct (m w) as [[a|e] w1] eqn:E; simpl in *.
  - destruct (Hk a w1) as (k2 & Hk2 & Hp2 & Hok2).
    specialize (Hok1 a eq_refl). subst k1.
    exists (length l1 + k2). split; [rewrite length_app; lia|].
    split.
    + rewrite Hp2, Hp1, firstn_all, take_app_add', <- app_assoc; auto.
    + intros b Hb. rewrite length_app. rewrite (Hok2 b Hb). reflexivity.
  - exists k1. split; [rewrite length_app; lia|].
    split; [|discriminate].
    rewrite Hp1. f_equal. rewrite take_app_le; auto.
Qed.

Lemma prints_bind_nil {A B : Type} (m : io A) (k : A -> io B) l :
  prints m [] -> (forall a, prints (k a) l) -> prints (m ≫= k) l.
Proof. intros. change l with ([] ++ l). apply prints_bind; auto. Qed.

Lemma prints_announce_then {A : Type} s (k : unit -> io A) l :
  (forall u, prints (k u) l) -> prints (announce s ≫= k) (s :: l).
Proof. intros. change (s :: l) with ([s] ++ l). apply prints_bind; auto using prints_announce. Qed.

Ltac prints_atom :=
  first [ apply prints_lift | apply prints_ret | apply prints_write
        | apply prints_mkdir | apply prints_st_size ].

Ltac prints_go :=
  repeat first
    [ prints_atom
    | apply prints_announce_then; intros ?
    | apply prints_bind_nil; [ solve [ prints_go ] | intros ? ]
    | match goal with
      | |- prints (if ?b then _ else _) _ => destruct b
      | |- prints (let '(_, _) := ?p in _) _ => destruct p
      | |- prints (match ?p with (_, _) => _ end) _ => destruct p
      end ].

Section ExportPrints.
Import EmbeddingGenerator.
Variable cast_undef : spec_float -> Z.
Variable cosine_similarity : float_dtype -> list spec_float -> list spec_float -> spec_float.
Variable HAS_BLOSC HAS_LZ4 : bool.
Variable json_dumps : json -> string.
Variable gzip_compress brotli_compress lz4_compress : string -> string.
Variable savez_compressed : ndarray -> ndarray -> list string -> string.
Variable tobytes : ndarray -> string.
Variable blosc2_compress2 : ndarray -> string.
Variable b64encode : string -> string.

Lemma prints_record_size name file formats : prints (record_size name file formats) [].
Proof. unfold record_size. prints_go. Qed.

Lemma prints_export_data output_dir now g :
prints (export_data cast_undef cosine_similarity HAS_BLOSC HAS_LZ4 json_dumps
          gzip_compress brotli_compress lz4_compress savez_compressed tobytes
          blosc2_compress2 b64encode output_dir now g)
       [Export; CollisionAnalysis].
Proof.
unfold export_data.
apply prints_bind_nil; [apply prints_mkdir | intros _].
apply prints_announce_then; intros _.
repeat first
  [ apply prints_announce_then; intros ?
  | apply prints_bind_nil;
    [ solve [ prints_atom | apply prints_record_size
            | destruct HAS_BLOSC; prints_go; apply prints_record_size
            | destruct HAS_LZ4; prints_go; apply prints_record_size ]
    | intros ? ]
  | match goal with
    | |- prints (let '(_, _) := ?p in _) _ => destruct p
    end
  | prints_atom ].
Qed.
End ExportPrints.

(** ** The pipeline and the guard of [generate_umap_coordinates] *)

Definition pipeline : list stage :=
  [CorpusLoading; Filtering; Embedding; DimensionalityReduction; Export;
   CollisionAnalysis].

Section Pipeline.
Import EmbeddingGenerator.
Variable cast_undef : spec_float -> Z.
Variable cosine_similarity : float_dtype -> list spec_float -> list spec_float -> spec_float.
Variable encode : list string -> ndarray.
Variable umap_fit_transform : Z -> Z -> ndarray -> ndarray.
Variable HAS_BLOSC HAS_LZ4 : bool.
Variable json_dumps : json -> string.
Variable gzip_compress brotli_compress lz4_compress : string -> string.
Variable savez_compressed : ndarray -> ndarray -> list string -> string.
Variable tobytes : ndarray -> string.
Variable blosc2_compress2 : ndarray -> string.
Variable b64encode : string -> string.
Variable nltk_download : string -> result unit.
Variable brown_corpus : list string.
Variable words_corpus : list string.
Variable now : spec_float.

Local Abbreviation run_ :=
(run cast_undef cosine_similarity encode umap_fit_transform HAS_BLOSC HAS_LZ4
   json_dumps gzip_compress brotli_compress lz4_compress savez_compressed
   tobytes blosc2_compress2 b64encode nltk_download brown_corpus words_corpus now).
Local Abbreviation main_ :=
(main cast_undef cosine_similarity encode umap_fit_transform HAS_BLOSC HAS_LZ4
   json_dumps gzip_compress brotli_compress lz4_compress savez_compressed
   tobytes blosc2_compress2 b64encode nltk_download brown_corpus words_corpus now).

Lemma prints_get_frequency_sorted_words_io n_words :
prints (get_frequency_sorted_words_io nltk_download brown_corpus words_corpus n_words)
       [CorpusLoading; Filtering].
Proof. unfold get_frequency_sorted_words_io. prints_go. Qed.

Lemma prints_generate_embeddings_io ws g :
prints (generate_embeddings_io encode ws g) [Embedding].
Proof. unfold generate_embeddings_io, generate_embeddings. prints_go. Qed.

Lemma prints_generate_umap_coordinates_io n_components random_state g :
prints (generate_umap_coordinates_io umap_fit_transform n_components random_state g)
       [DimensionalityReduction].
Proof.
unfold generate_umap_coordinates_io, generate_umap_coordinates.
destruct (embeddings g) as [e|].
- prints_go.
- intros w. exists 0. simpl. rewrite app_nil_r.
  split; [lia|]. split; [reflexivity|discriminate].
Qed.

Lemma prints_run n_words : prints (run_ n_words) pipeline.
Proof.
unfold run.
change pipeline with ([CorpusLoading; Filtering] ++ [Embedding] ++ [DimensionalityReduction]
                      ++ [Export; CollisionAnalysis] ++ []).
apply prints_bind; [apply prints_get_frequency_sorted_words_io | intros ws].
cbv zeta.
apply prints_bind; [apply prints_generate_embeddings_io | intros [? g1]].
apply prints_bind; [apply prints_generate_umap_coordinates_io | intros [? g2]].
apply prints_bind_nil; [prints_atom | intros _].
apply prints_bind; [apply prints_export_data | intros; prints_atom].
Qed.

Lemma prints_main : prints main_ pipeline.
Proof.
unfold main, word_counts. simpl mapM.
rewrite <- (app_nil_r pipeline).
apply prints_bind; [|intros; prints_atom].
rewrite <- (app_nil_r pipeline).
apply prints_bind; [apply prints_run|intros].
apply prints_bind_nil; [prints_atom | intros; prints_atom].
Qed.

End Pipeline.

(** ** The generator's fields *)

Section GeneratorShapes.
Import EmbeddingGenerator.

Variable encode : list string -> ndarray.
Variable umap_fit_transform : Z -> Z -> ndarray -> ndarray.

(** The libraries' contracts: the model returns one vector per input
  string; UMAP, asked for a positive number of components, returns one
  point per sample, with that many coordinates. *)
Hypothesis encode_rows : forall ws, length (rows (encode ws)) = length ws.
Hypothesis umap_shape : forall n_components random_state e,
(0 < n_components)%Z ->
length (rows (umap_fit_transform n_components random_state e)) = length (rows e) /\
Forall (fun r => Z.of_nat (length r) = n_components)
       (rows (umap_fit_transform n_components random_state e)).

(** C7.  After [generate_embeddings(ws)] and then
  [generate_umap_coordinates()] with its default arguments, on any
  generator, both calls having returned, the generator holds [ws], one
  embedding row per word and one coordinate row per word, and every
  coordinate row has exactly 2 entries. *)
Theorem one_row_per_word_two_columns (ws : list string) (g : generator) :
let '(r1, g1) := generate_embeddings encode ws g in
let '(r2, g2) :=
  generate_umap_coordinates umap_fit_transform default_n_components
    default_random_state g1 in
exists e c,
  r1 = Ok e /\ r2 = Ok c /\
  words g2 = Some ws /\ embeddings g2 = Some e /\ umap_coords g2 = Some c /\
  length (rows e) = length ws /\
  length (rows c) = length ws /\
  Forall (fun r => length r = 2) (rows c).
Proof using encode_rows umap_shape.
cbn.
exists (encode ws), (umap_fit_transform default_n_components default_random_state (encode ws)).
destruct (umap_shape default_n_components default_random_state (encode ws))
  as [Hlen Hcols]; [reflexivity|].
repeat split; auto.
- rewrite Hlen. apply encode_rows.
- eapply Forall_impl; [exact Hcols|]. unfold default_n_components. simpl. lia.
Qed.
End GeneratorShapes.

(** ** [test_similarity] *)

Section TestSimilarity.
Import EmbeddingGenerator.

Variable cosine_similarity : float_dtype -> list spec_float -> list spec_float -> spec_float.

(** The generator stores the word list [ws] with one embedding row per
  word, as [generate_embeddings] leaves it. *)
Definition stores (g : generator) (ws : list string) : Prop :=
words g = Some ws /\
exists e, embeddings g = Some e /\ length (rows e) = length ws.

Lemma generate_embeddings_stores encode ws g :
(forall l, length (rows (encode l)) = length l) ->
stores (generate_embeddings encode ws g).2 ws.
Proof. intros H. split; [reflexivity|]. exists (encode ws). split; [reflexivity|apply H]. Qed.

Lemma generate_umap_keeps_stores fit n r ws g :
stores g ws -> stores (generate_umap_coordinates fit n r g).2 ws.
Proof.
intros [Hw (e & He & Hl)]. unfold generate_umap_coordinates. rewrite He. simpl.
split; [exact Hw|]. exists e. auto.
Qed.

(** C8.  On a generator that stores a word list (with its embeddings),
  [test_similarity(word1, word2)] returns [None] exactly when one of
  the two words is not in the stored list; when both are, it returns
  the cosine similarity of the rows at the words' first positions, as a
  Python float. *)
Theorem test_similarity_none_iff_absent (g : generator) (ws : list string)
  (word1 word2 : string) :
stores g ws ->
(test_similarity cosine_similarity word1 word2 g = Ok None
   <-> (word1 ∉ ws \/ word2 ∉ ws)) /\
(word1 ∈ ws -> word2 ∈ ws ->
   exists e i1 i2 v1 v2,
     embeddings g = Some e /\
     list_index word1 ws = Some i1 /\ list_index word2 ws = Some i2 /\
     rows e !! i1 = Some v1 /\ rows e !! i2 = Some v2 /\
     test_similarity cosine_similarity word1 word2 g
     = Ok (Some (float_cast float64 (cosine_similarity (dtype e) v1 v2)))).
Proof.
intros [Hw (e & He & Hlen)].
assert (Hboth : word1 ∈ ws -> word2 ∈ ws ->
   exists i1 i2 v1 v2,
     list_index word1 ws = Some i1 /\ list_index word2 ws = Some i2 /\
     rows e !! i1 = Some v1 /\ rows e !! i2 = Some v2 /\
     test_similarity cosine_similarity word1 word2 g
     = Ok (Some (float_cast float64 (cosine_similarity (dtype e) v1 v2)))).
{ intros H1 H2.
  destruct (list_index_Some word1 ws H1) as (i1 & Hi1 & Hl1).
  destruct (list_index_Some word2 ws H2) as (i2 & Hi2 & Hl2).
  destruct (lookup_lt_is_Some_2 (rows e) i1) as [v1 Hv1].
  { rewrite Hlen. eapply lookup_lt_Some; eauto. }
  destruct (lookup_lt_is_Some_2 (rows e) i2) as [v2 Hv2].
  { rewrite Hlen. eapply lookup_lt_Some; eauto. }
  exists i1, i2, v1, v2. repeat split; auto.
  unfold test_similarity. rewrite Hw.
  destruct (decide (word1 ∉ ws \/ word2 ∉ ws)) as [[?|?]|_]; [contradiction..|].
  unfold py_list_index. rewrite Hi1, Hi2. simpl. rewrite He.
  rewrite (py_index_nat _ _ _ Hv1), (py_index_nat _ _ _ Hv2). reflexivity. }
split.
- split.
  + intros Hnone.
    destruct (decide (word1 ∈ ws)) as [H1|H1]; [|auto].
    destruct (decide (word2 ∈ ws)) as [H2|H2]; [|auto].
    destruct (Hboth H1 H2) as (? & ? & ? & ? & _ & _ & _ & _ & Heq).
    rewrite Heq in Hnone. discriminate.
  + intros Habs. unfold test_similarity. rewrite Hw.
    destruct (decide (word1 ∉ ws \/ word2 ∉ ws)); [reflexivity|contradiction].
- intros H1 H2. destruct (Hboth H1 H2) as (i1 & i2 & v1 & v2 & ?).
  exists e, i1, i2, v1, v2. tauto.
Qed.
End TestSimilarity.

(** ** The dtype chosen by [quantize_to_uint] *)

Lemma uint_name_unknown (n_bits : Z) :
  (n_bits < 8)%Z ->
  np_uint_attr ("uint" +:+ py_str_of_int n_bits) = Raise AttributeError.
Proof.
  intros H. unfold np_uint_attr, py_str_of_int.
  destruct n_bits as [|p|p].
  - reflexivity.
  - assert (Hp : (Z.pos p = 1 \/ Z.pos p = 2 \/ Z.pos p = 3 \/ Z.pos p = 4 \/
                  Z.pos p = 5 \/ Z.pos p = 6 \/ Z.pos p = 7)%Z) by lia.
    destruct Hp as [Hp|[Hp|[Hp|[Hp|[Hp|[Hp|Hp]]]]]]; injection Hp as ->; reflexivity.
  - simpl. repeat (case_decide; [discriminate|]). reflexivity.
Qed.

Lemma amin_nonempty a : flat a <> [] -> exists m, amin a = Ok m.
Proof. unfold amin. destruct (flat a); [contradiction|eauto]. Qed.

Lemma amax_nonempty a : flat a <> [] -> exists m, amax a = Ok m.
Proof. unfold amax. destruct (flat a); [contradiction|eauto]. Qed.

Lemma levels_small t n_bits : (n_bits < 1024)%Z -> exists x, levels t n_bits = Ok x.
Proof.
  intros H. unfold levels.
  destruct (0 <=? n_bits)%Z; [|eauto].
  destruct (Z.ltb_spec n_bits 1024); [eauto|lia].
Qed.

(** Below 8 bits the dtype name that is built is no attribute of NumPy:
    the helper raises, whatever the (non-empty) array. *)
Lemma quantize_to_uint_below_8 cast_undef arr n_bits :
  flat arr <> [] -> (n_bits < 8)%Z ->
  quantize_to_uint cast_undef arr n_bits = Raise AttributeError.
Proof.
  intros Hne Hb. unfold quantize_to_uint.
  destruct (amin_nonempty arr Hne) as [mn ->].
  destruct (amax_nonempty arr Hne) as [mx ->].
  destruct (levels_small (dtype arr) n_bits) as [x Hx]; [lia|].
  cbn. rewrite Hx. cbn.
  destruct (Z.leb_spec n_bits 8); [|lia].
  rewrite uint_name_unknown by lia. reflexivity.
Qed.

(** C4, at 4 bits: the helper does not store anything in an unsigned
    8-bit array; looking up [np.uint4] raises [AttributeError]. *)
Theorem quantize_to_uint_4_bits_raises :
  forall cast_undef,
    quantize_to_uint cast_undef
      {| dtype := float32; rows := [[float_of_int float32 0; float_of_int float32 1]] |} 4
    = Raise AttributeError.
Proof. intros. apply quantize_to_uint_below_8; [discriminate|lia]. Qed.

(** ** Counters *)

Section CounterFacts.
Context {K : Type} `{EqDecision K}.
Implicit Types (k : K) (l : list K) (c : list (K * nat)).

(** The number of times [k] occurs in [l]. *)
Definition occurrences k l : nat := length (filter (fun x => x = k) l).

(** The count a counter holds for [k]; 0 for a key it does not have. *)
Fixpoint counter_get k c : nat :=
match c with
| [] => 0
| (k', n) :: c' => if decide (k = k') then n else counter_get k c'
end.

Lemma counter_get_incr_eq k c : counter_get k (counter_incr k c) = S (counter_get k c).
Proof.
induction c as [|[k' n] c IH]; simpl.
- rewrite decide_True; auto.
- destruct (decide (k = k')); simpl.
  + rewrite decide_True; auto.
  + rewrite decide_False; auto.
Qed.

Lemma counter_get_incr_ne k k' c :
k' <> k -> counter_get k' (counter_incr k c) = counter_get k' c.
Proof.
intros Hne. induction c as [|[k0 n] c IH]; simpl.
- rewrite decide_False; auto.
- destruct (decide (k = k0)) as [->|]; simpl.
  + rewrite !decide_False; auto.
  + destruct (decide (k' = k0)); auto.
Qed.

Lemma counter_incr_keys k c :
(counter_incr k c).*1 = if decide (k ∈ c.*1) then c.*1 else c.*1 ++ [k].
Proof.
induction c as [|[k' n] c IH].
- reflexivity.
- cbn [counter_incr]. rewrite fmap_cons. cbn [fst].
  destruct (decide (k = k')) as [->|Hne]; rewrite fmap_cons; cbn [fst].
  + rewrite decide_True; [reflexivity|]. apply elem_of_cons; auto.
  + rewrite IH. destruct (decide (k ∈ c.*1)) as [Hin|Hin].
    * rewrite decide_True; [reflexivity|]. apply elem_of_cons; auto.
    * rewrite decide_False; [reflexivity|].
      intros [?|?]%elem_of_cons; contradiction.
Qed.

Lemma occurrences_snoc k x l :
occurrences k (l ++ [x]) = occurrences k l + (if decide (x = k) then 1 else 0).
Proof.
unfold occurrences. rewrite filter_app, length_app. f_equal.
rewrite filter_cons, filter_nil. destruct (decide (x = k)); reflexivity.
Qed.

(** What holds of a counter [c] that has counted the list [l]. *)
Record counted c l : Prop := {
counted_get : forall k, counter_get k c = occurrences k l;
counted_keys : forall k, k ∈ c.*1 <-> k ∈ l;
counted_nodup : NoDup c.*1
}.

Lemma counted_nil : counted [] [].
Proof.
split.
- reflexivity.
- intros k. simpl. reflexivity.
- constructor.
Qed.

Lemma counted_incr c l k : counted c l -> counted (counter_incr k c) (l ++ [k]).
Proof.
intros [Hg Hk Hn]. split.
- intros k'. rewrite occurrences_snoc. destruct (decide (k = k')) as [->|Hne].
  + rewrite counter_get_incr_eq, Hg. lia.
  + rewrite counter_get_incr_ne, Hg by auto. lia.
- intros k'. rewrite counter_incr_keys, elem_of_app, list_elem_of_singleton.
  destruct (decide (k ∈ c.*1)) as [Hin|Hin].
  + rewrite Hk. split; [auto|]. intros [?| ->]; [auto|]. apply Hk, Hin.
  + rewrite elem_of_app, list_elem_of_singleton, Hk. reflexivity.
- rewrite counter_incr_keys. destruct (decide (k ∈ c.*1)) as [Hin|Hin]; [auto|].
  apply NoDup_app. split; [auto|]. split.
  + intros x Hx ->%list_elem_of_singleton. contradiction.
  + apply NoDup_singleton.
Qed.

Lemma counted_fold l : forall c pre,
counted c pre -> counted (fold_left (fun c k => counter_incr k c) l c) (pre ++ l).
Proof.
induction l as [|k l IH]; intros c pre H; simpl.
- rewrite app_nil_r. exact H.
- replace (pre ++ k :: l) with ((pre ++ [k]) ++ l) by (rewrite <- app_assoc; reflexivity).
  apply IH, counted_incr, H.
Qed.

Lemma Counter_counted l : counted (Counter l) l.
Proof. apply (counted_fold l [] []), counted_nil. Qed.

(** An entry of a counter with distinct keys holds the key's count. *)
Lemma counter_get_entry c k n : NoDup c.*1 -> (k, n) ∈ c -> counter_get k c = n.
Proof.
induction c as [|[k' n'] c IH]; intros Hn Hin; [inversion Hin|].
simpl in *. apply NoDup_cons in Hn as [Hk' Hn].
apply elem_of_cons in Hin as [Heq|Hin].
- injection Heq as -> ->. rewrite decide_True; auto.
- destruct (decide (k = k')) as [->|]; [|auto].
  exfalso. apply Hk'. apply list_elem_of_fmap. exists (k', n). auto.
Qed.

Lemma Counter_entry l k n : (k, n) ∈ Counter l -> n = occurrences k l /\ k ∈ l.
Proof.
intros Hin. destruct (Counter_counted l) as [Hg Hk Hn]. split.
- rewrite <- Hg. symmetry. apply counter_get_entry; auto.
- apply Hk. apply list_elem_of_fmap. exists (k, n). auto.
Qed.

Lemma occurrences_pos k l : k ∈ l <-> 0 < occurrences k l.
Proof.
unfold occurrences. split.
- intros Hin. assert (k ∈ filter (fun x => x = k) l) as Hf by (apply list_elem_of_filter; auto).
  destruct (filter (fun x => x = k) l); [inversion Hf|simpl; lia].
- intros Hpos. destruct (filter (fun x => x = k) l) as [|y f] eqn:E; [simpl in Hpos; lia|].
  assert (y ∈ filter (fun x => x = k) l) as Hy by (rewrite E; left).
  apply list_elem_of_filter in Hy as [-> ?]. auto.
Qed.

Lemma NoDup_occurrences l : NoDup l <-> forall k, occurrences k l <= 1.
Proof.
induction l as [|x l IH].
- split; [intros _ k; cbn; lia | constructor].
- rewrite NoDup_cons, IH. unfold occurrences. split.
  + intros [Hx Hl] k. rewrite filter_cons. destruct (decide (x = k)) as [->|].
    * assert (~ 0 < occurrences k l) as Hz by (rewrite <- occurrences_pos; auto).
      unfold occurrences in Hz. simpl. lia.
    * apply Hl.
  + intros H. split.
    * intros Hx%occurrences_pos. specialize (H x). rewrite filter_cons, decide_True in H by auto.
      simpl in H. unfold occurrences in Hx. lia.
    * intros k. specialize (H k). rewrite filter_cons in H.
      destruct (decide (x = k)); simpl in H; lia.
Qed.
End CounterFacts.

Section CounterSets.
Context `{Countable K}.
Implicit Types (l : list K).

Lemma more_than_once_nil_iff l : more_than_once (Counter l) = [] <-> NoDup l.
Proof.
unfold more_than_once. rewrite NoDup_occurrences. split.
- intros Hnil k. destruct (decide (k ∈ l)) as [Hin|Hin].
  + destruct (Counter_counted l) as [Hg Hk Hn].
    apply Hk, list_elem_of_fmap in Hin as ([k' n] & -> & Hin).
    destruct (Counter_entry _ _ _ Hin) as [-> _].
    destruct (decide (1 < occurrences k' l)) as [Hlt|]; [|simpl; lia].
    assert ((k', occurrences k' l) ∈ filter (fun kn : K * nat => 1 < kn.2) (Counter l)) as Hf
      by (apply list_elem_of_filter; auto).
    rewrite Hnil in Hf. inversion Hf.
  + assert (~ 0 < occurrences k l) by (rewrite <- occurrences_pos; auto). lia.
- intros Hle. apply elem_of_nil_inv. intros [k n] [Hgt Hin]%list_elem_of_filter.
  destruct (Counter_entry _ _ _ Hin) as [-> _]. specialize (Hle k). simpl in Hgt. lia.
Qed.

Lemma size_list_to_set_Counter l :
size (list_to_set l : gset K) = length (Counter l).
Proof.
destruct (Counter_counted l) as [_ Hk Hn].
rewrite <- (length_fmap fst (Counter l)), <- (size_list_to_set (C := gset K)) by exact Hn.
f_equal. apply set_eq. intros k. rewrite !elem_of_list_to_set, Hk. reflexivity.
Qed.

Lemma size_list_to_set_le l : size (list_to_set l : gset K) <= length l.
Proof.
rewrite size_list_to_set_Counter, <- (length_fmap fst (Counter l)).
destruct (Counter_counted l) as [_ Hk Hn].
apply submseteq_length, NoDup_submseteq; [exact Hn|]. intros k. apply Hk.
Qed.

Lemma size_list_to_set_pos l : l <> [] -> 0 < size (list_to_set l : gset K).
Proof.
destruct l as [|x l]; [contradiction|]. intros _.
assert (size (list_to_set (x :: l) : gset K) <> 0); [|lia].
apply size_non_empty_iff. intros Hemp.
assert (x ∈ (list_to_set (x :: l) : gset K)) as Hx by (apply elem_of_list_to_set; left).
rewrite Hemp in Hx. set_solver.
Qed.
End CounterSets.

(** ** Quantized values and their type *)

Section Quantizers.
Variable cast_undef : spec_float -> Z.

Lemma astype_uint_range w x :
(0 <= w)%Z -> (0 <= astype_uint cast_undef w x < 2 ^ w)%Z.
Proof.
intros Hw. assert (0 < 2 ^ w)%Z by (apply Z.pow_pos_nonneg; lia).
unfold astype_uint. destruct (trunc x) as [z|].
- destruct (Z.leb_spec 0 z); destruct (Z.ltb_spec z (2 ^ w)); simpl;
    try lia; apply Z.mod_pos_bound; lia.
- apply Z.mod_pos_bound; lia.
Qed.

Lemma uint_name_8 : np_uint_attr ("uint" +:+ py_str_of_int 8) = Ok 8%Z.
Proof. reflexivity. Qed.

Lemma uint_name_16 : np_uint_attr "uint16" = Ok 16%Z.
Proof. reflexivity. Qed.

(** From 8 bits on (and while [2**n_bits] still converts to a float)
  the helper returns, with one quantized row per row and one value per
  entry, each a value of the chosen dtype: 8 bits wide at [n_bits = 8],
  16 bits wide above. *)
Lemma quantize_to_uint_ok arr n_bits :
flat arr <> [] -> (8 <= n_bits < 1024)%Z ->
exists arr_min scale,
  quantize_to_uint cast_undef arr n_bits
  = Ok (map (map (fun x => astype_uint cast_undef (if (n_bits =? 8)%Z then 8 else 16)
                             (rescale (dtype arr) arr_min scale x))) (rows arr)).
Proof.
intros Hne Hb. unfold quantize_to_uint.
destruct (amin_nonempty arr Hne) as [mn ->].
destruct (amax_nonempty arr Hne) as [mx ->].
destruct (levels_small (dtype arr) n_bits) as [x Hx]; [lia|].
cbn. rewrite Hx. cbn.
exists mn, (fdiv (dtype arr) x (fsub (dtype arr) mx mn)).
destruct (Z.eqb_spec n_bits 8) as [->|Hne8].
- change (8 <=? 8)%Z with true. cbv iota. rewrite uint_name_8. cbn. rewrite map_map.
  f_equal. apply map_ext. intros r. rewrite map_map. reflexivity.
- destruct (Z.leb_spec n_bits 8); [lia|]. rewrite uint_name_16. cbn. rewrite map_map.
  f_equal. apply map_ext. intros r. rewrite map_map. reflexivity.
Qed.

Lemma quantize_to_uint8_ok arr :
flat arr <> [] ->
exists arr_min arr_max,
  amin arr = Ok arr_min /\ amax arr = Ok arr_max /\
  let scale := fdiv (dtype arr) (float_of_int (dtype arr) 255)
                 (fsub (dtype arr) arr_max arr_min) in
  quantize_to_uint8 cast_undef arr
  = Ok (map (map (fun x => astype_uint cast_undef 8 (rescale (dtype arr) arr_min scale x)))
            (rows arr), arr_min, arr_max, scale).
Proof.
intros Hne. unfold quantize_to_uint8.
destruct (amin_nonempty arr Hne) as [mn ->].
destruct (amax_nonempty arr Hne) as [mx ->].
exists mn, mx. auto.
Qed.
End Quantizers.

(** ** Collision counting *)

(** The words at the positions where the quantized row is [row]. *)
Definition group_of (embedding_tuples : list (list Z)) (words : list string)
    (row : list Z) : list string :=
  (filter (fun p => p.1 = row) (zip embedding_tuples words)).*2.

Lemma colliding_from_ok embedding_tuples : forall i words row,
  i + length embedding_tuples <= length words ->
  colliding_from i embedding_tuples words row
  = Ok (group_of embedding_tuples (drop i words) row).
Proof.
  induction embedding_tuples as [|t ts IH]; intros i words row Hlen; [reflexivity|].
  simpl in Hlen.
  destruct (lookup_lt_is_Some_2 words i) as [w Hw]; [lia|].
  rewrite (drop_S _ _ _ Hw). unfold group_of. cbn [colliding_from zip zip_with].
  rewrite filter_cons. cbn [fst].
  destruct (decide (t = row)) as [->|Hne].
  - rewrite (py_index_nat _ _ _ Hw). cbn. rewrite IH by lia. reflexivity.
  - rewrite IH by lia. reflexivity.
Qed.

Lemma collect_groups_ok shown embedding_tuples words :
  length embedding_tuples <= length words ->
  collect_groups shown embedding_tuples words
  = Ok (map (fun kc => group_of embedding_tuples words kc.1) shown).
Proof.
  intros Hlen. induction shown as [|[row n] shown IH]; [reflexivity|].
  cbn [collect_groups]. rewrite colliding_from_ok by (simpl; lia).
  cbn. rewrite IH. reflexivity.
Qed.




Lemma share_in_unit_interval (a b : Z) :
  (0 <= a < b)%Z -> (0 <= inject_Z a / inject_Z b < 1)%Q.
Proof.
  intros [Ha Hb]. assert (0 < inject_Z b)%Q as Hpos.
  { change 0%Q with (inject_Z 0). rewrite <- Zlt_Qlt. lia. }
  split.
  - apply Qle_shift_div_l; [exact Hpos|]. rewrite Qmult_0_l.
    change 0%Q with (inject_Z 0). rewrite <- Zle_Qle. exact Ha.
  - apply Qlt_shift_div_r; [exact Hpos|]. rewrite Qmult_1_l. rewrite <- Zlt_Qlt. exact Hb.
Qed.

Section Collisions.
Variable cast_undef : spec_float -> Z.

(** What [analyze_collisions] returns once the rows are quantized. *)
Lemma analyze_collisions_counts embeddings words bits q :
quantize_to_uint cast_undef embeddings bits = Ok q ->
rows embeddings <> [] ->
length q <= length words ->
let total := Z.of_nat (length (rows embeddings)) in
let unique := Z.of_nat (size (list_to_set q : gset (list Z))) in
let collisions := more_than_once (Counter q) in
analyze_collisions cast_undef embeddings words bits
= Ok (match collisions with
      | [] => (0%Q, [])
      | _ :: _ => ((inject_Z (total - unique) / inject_Z total)%Q,
                   map (fun kc => group_of q words kc.1) (take 5 collisions))
      end).
Proof.
intros Hq Hne Hlen. unfold analyze_collisions. rewrite Hq. cbn [mbind result_bind].
unfold py_truediv.
destruct (Z.eqb_spec (Z.of_nat (length (rows embeddings))) 0) as [H0|_].
{ destruct (rows embeddings); [contradiction|simpl in H0; lia]. }
cbn [mbind result_bind].
destruct (more_than_once (Counter q)) as [|kc cs] eqn:E; [reflexivity|].
rewrite collect_groups_ok by exact Hlen. reflexivity.
Qed.
End Collisions.

Section CollisionClaims.
Variable cast_undef : spec_float -> Z.

Lemma rows_nonempty (a : ndarray) : flat a <> [] -> rows a <> [].
Proof. unfold flat. destruct (rows a); [intros H; contradiction H; reflexivity|discriminate]. Qed.

Lemma quantized_rows embeddings bits :
flat embeddings <> [] -> (8 <= bits < 1024)%Z ->
exists q, quantize_to_uint cast_undef embeddings bits = Ok q /\
          length q = length (rows embeddings).
Proof.
intros Hne Hb. destruct (quantize_to_uint_ok cast_undef embeddings bits Hne Hb) as (mn & sc & Hq).
eexists. split; [exact Hq|]. apply length_map.
Qed.

Lemma analyze_collisions_ok embeddings words bits :
flat embeddings <> [] ->
length words = length (rows embeddings) ->
(8 <= bits < 1024)%Z ->
exists r, analyze_collisions cast_undef embeddings words bits = Ok r.
Proof.
intros Hne Hlen Hb.
destruct (quantized_rows embeddings bits Hne Hb) as (q & Hq & Hlq).
assert (Hle_words : length q <= length words) by (rewrite Hlq, Hlen; reflexivity).
rewrite (analyze_collisions_counts cast_undef embeddings words bits q Hq
           (rows_nonempty _ Hne) Hle_words).
eauto.
Qed.

(** C3.  On a matrix with at least one entry and a word list with one
  word per row (with the default 8 bits, or any width from 8 up to
  1023), [analyze_collisions] returns; the rate it returns is
  (total - unique) / total for total the number of rows and unique the
  number of distinct quantized rows; when the quantized rows are all
  distinct it returns (0, []); and the rate is in [0, 1). *)
Theorem collision_rate_is_duplicate_share (embeddings : ndarray)
  (words : list string) (bits : Z) :
flat embeddings <> [] ->
length words = length (rows embeddings) ->
(8 <= bits < 1024)%Z ->
exists q rate groups,
  quantize_to_uint cast_undef embeddings bits = Ok q /\
  analyze_collisions cast_undef embeddings words bits = Ok (rate, groups) /\
  let total := Z.of_nat (length (rows embeddings)) in
  let unique := Z.of_nat (size (list_to_set q : gset (list Z))) in
  (rate == inject_Z (total - unique) / inject_Z total)%Q /\
  (NoDup q -> (rate, groups) = (0%Q, [])) /\
  (0 <= rate < 1)%Q.
Proof.
intros Hne Hlen Hb.
destruct (quantized_rows embeddings bits Hne Hb) as (q & Hq & Hlq).
pose proof (rows_nonempty _ Hne) as Hrows.
assert (Hle_words : length q <= length words) by (rewrite Hlq, Hlen; reflexivity).
pose proof (analyze_collisions_counts cast_undef embeddings words bits q Hq Hrows
              Hle_words) as Hrun.
cbv zeta in Hrun.
assert (Hq_ne : q <> []) by (intros ->; destruct (rows embeddings); [contradiction|discriminate]).
pose proof (size_list_to_set_pos q Hq_ne) as Hpos.
pose proof (size_list_to_set_le q) as Hle.
assert (Hshare : (0 <= inject_Z (Z.of_nat (length (rows embeddings))
                             - Z.of_nat (size (list_to_set q : gset (list Z))))
                     / inject_Z (Z.of_nat (length (rows embeddings))) < 1)%Q)
  by (apply share_in_unit_interval; lia).
destruct (more_than_once (Counter q)) as [|kc cs] eqn:E.
- apply more_than_once_nil_iff in E.
  exists q, 0%Q, []. split; [exact Hq|]. split; [exact Hrun|]. cbv zeta.
  rewrite (size_list_to_set (C := gset (list Z)) q E), Hlq, Z.sub_diag.
  split; [|split; [reflexivity|]].
  + unfold Qdiv. rewrite Qmult_0_l. reflexivity.
  + split; [apply Qle_refl | reflexivity].
- eexists q, _, _. split; [exact Hq|]. split; [exact Hrun|]. cbv zeta.
  split; [reflexivity|]. split; [|exact Hshare].
  intros Hnd. apply more_than_once_nil_iff in Hnd. rewrite Hnd in E. discriminate.
Qed.

End CollisionClaims.

(** ** The order of [most_common] *)

Section MostCommon.
Context {K : Type}.
Implicit Types (x y : K * nat) (l c : list (K * nat)).

(** [x] comes no later than [y]: its count is no smaller. *)
Definition by_count x y : Prop := y.2 <= x.2.

Lemma elem_of_insert_by_count z x l : z ∈ insert_by_count x l <-> z = x \/ z ∈ l.
Proof.
induction l as [|y l IH]; simpl.
- rewrite list_elem_of_singleton, elem_of_nil. tauto.
- destruct (decide (x.2 < y.2)).
  + rewrite !elem_of_cons, IH. tauto.
  + rewrite !elem_of_cons. tauto.
Qed.

Lemma insert_by_count_sorted x l :
StronglySorted by_count l -> StronglySorted by_count (insert_by_count x l).
Proof.
induction l as [|y l IH]; intros Hs; simpl.
- repeat constructor.
- apply StronglySorted_cons in Hs as [Hy Hl].
  destruct (decide (x.2 < y.2)) as [Hlt|Hge].
  + apply StronglySorted_cons. split; [|auto].
    apply Forall_forall. intros z [->|Hz]%elem_of_insert_by_count.
    * unfold by_count. lia.
    * rewrite Forall_forall in Hy. auto.
  + apply StronglySorted_cons. split; [|apply StronglySorted_cons; auto].
    apply Forall_cons. split; [unfold by_count; lia|].
    eapply Forall_impl; [exact Hy|]. unfold by_count. intros z Hz. lia.
Qed.

Lemma most_common_sorted c : StronglySorted by_count (most_common c).
Proof.
induction c as [|x c IH]; simpl; [constructor|].
apply insert_by_count_sorted, IH.
Qed.

Lemma elem_of_most_common z c : z ∈ most_common c <-> z ∈ c.
Proof.
induction c as [|x c IH]; simpl; [reflexivity|].
rewrite elem_of_insert_by_count, elem_of_cons, IH. reflexivity.
Qed.

Lemma sorted_filter (P : K * nat -> Prop) `{forall x, Decision (P x)} l :
StronglySorted by_count l -> StronglySorted by_count (filter P l).
Proof.
induction l as [|x l IH]; intros Hs; [constructor|].
apply StronglySorted_cons in Hs as [Hx Hl]. rewrite filter_cons.
destruct (decide (P x)); [|auto].
apply StronglySorted_cons. split; [|auto].
apply Forall_forall. intros z [_ Hz]%list_elem_of_filter.
rewrite Forall_forall in Hx. auto.
Qed.

Lemma sorted_take n l : StronglySorted by_count l -> StronglySorted by_count (take n l).
Proof.
intros Hs. rewrite <- (take_drop n l) in Hs. eapply StronglySorted_app_1_l, Hs.
Qed.

Lemma sorted_lookup l : StronglySorted by_count l ->
forall i j x y, i <= j -> l !! i = Some x -> l !! j = Some y -> by_count x y.
Proof.
induction 1 as [|z l Hs IH Hz]; intros i j x y Hij Hi Hj; [discriminate|].
destruct i as [|i], j as [|j]; simpl in *; try lia.
- injection Hi as ->. injection Hj as ->. unfold by_count. lia.
- injection Hi as ->. rewrite Forall_forall in Hz.
  apply Hz. eapply list_elem_of_lookup_2, Hj.
- eapply IH; [|eassumption..]. lia.
Qed.
End MostCommon.

(** ** The selected vocabulary *)

Section VocabularyClaims.
Variable nltk_download : string -> result unit.
Variable brown_corpus : list string.
Variable words_corpus : list string.

Local Abbreviation fvw := (frequent_valid_words brown_corpus words_corpus).

(** An entry that passes the filter: its word and its count. *)
Lemma frequent_valid_entry word frequency :
(word, frequency) ∈ fvw ->
frequency = occurrences word (brown_words brown_corpus) /\
isalpha word = true /\
3 <= String.length word <= 12 /\
(word ∉ stop_words) /\
3 <= frequency /\
word ∈ valid_words words_corpus.
Proof.
unfold frequent_valid_words.
intros [Hgame Hin]%list_elem_of_filter.
apply elem_of_most_common, Counter_entry in Hin as [-> _].
split; [reflexivity|].
unfold game_word in Hgame.
repeat (apply andb_prop in Hgame as [Hgame ?]).
apply bool_decide_eq_true in Hgame.
repeat match goal with
       | H : bool_decide _ = true |- _ => apply bool_decide_eq_true in H
       | H : (_ <=? _) = true |- _ => apply Nat.leb_le in H
       end.
auto.
Qed.

Lemma frequent_valid_sorted : StronglySorted by_count fvw.
Proof. apply sorted_filter, most_common_sorted. Qed.

Lemma py_index_in_range {A : Type} (l : list A) (i : Z) :
(- Z.of_nat (length l) <= i < Z.of_nat (length l))%Z -> exists x, py_index l i = Ok x.
Proof.
intros Hi. unfold py_index.
destruct (Z.ltb_spec i 0).
- destruct (Z.ltb_spec (i + Z.of_nat (length l)) 0); [lia|].
  destruct (lookup_lt_is_Some_2 l (Z.to_nat (i + Z.of_nat (length l)))) as [x ->]; [lia|eauto].
- destruct (Z.ltb_spec i 0); [lia|].
  destruct (lookup_lt_is_Some_2 l (Z.to_nat i)) as [x ->]; [lia|eauto].
Qed.

(** C2, for a count that is not negative.  When both downloads succeed
  and at least one word of the corpus passes the filter, the function
  returns a list of at most [n_words] words; every word of it is
  alphabetic, has 3 to 12 characters, is no stop word, occurs at least 3
  times among the lowercased alphabetic tokens of the Brown corpus, and
  is in the lowercased dictionary; and the words come by non-increasing
  frequency. *)
Theorem frequency_sorted_words_selected (n_words : Z) :
nltk_download "brown" = Ok () ->
nltk_download "words" = Ok () ->
fvw <> [] ->
(0 <= n_words)%Z ->
exists ws,
  get_frequency_sorted_words nltk_download brown_corpus words_corpus n_words = Ok ws /\
  (Z.of_nat (length ws) <= n_words)%Z /\
  Forall (fun w =>
            isalpha w = true /\
            3 <= String.length w <= 12 /\
            (w ∉ stop_words) /\
            3 <= occurrences w (brown_words brown_corpus) /\
            w ∈ valid_words words_corpus) ws /\
  (forall i j wi wj, i <= j -> ws !! i = Some wi -> ws !! j = Some wj ->
                     occurrences wj (brown_words brown_corpus)
                     <= occurrences wi (brown_words brown_corpus)).
Proof.
intros Hd1 Hd2 Hne Hn. unfold get_frequency_sorted_words. rewrite Hd1, Hd2.
cbn [mbind result_bind].
destruct (py_index_in_range fvw 0) as [x0 ->].
{ destruct fvw; [contradiction|simpl; lia]. }
cbn [mbind result_bind].
destruct (py_index_in_range fvw (Z.min (Z.of_nat (length fvw) - 1) (n_words - 1))) as [x1 ->].
{ destruct fvw; [contradiction|simpl length; lia]. }
cbn [mbind result_bind].
eexists. split; [reflexivity|].
unfold py_slice_to. destruct (Z.ltb_spec n_words 0); [lia|].
split; [|split].
- rewrite length_map, length_take. lia.
- apply Forall_forall. intros w Hw.
  change (map fst ?l) with (fst <$> l) in Hw.
  apply list_elem_of_fmap in Hw as ([w' f] & -> & Hin).
  apply elem_of_take in Hin as (i & Hi & _).
  apply list_elem_of_lookup_2, frequent_valid_entry in Hi.
  destruct Hi as (-> & ? & ? & ? & ? & ?). cbn [fst]. auto.
- intros i j wi wj Hij Hi Hj.
  change (map fst ?l) with (fst <$> l) in Hi, Hj.
  rewrite list_lookup_fmap in Hi, Hj.
  destruct (take (Z.to_nat n_words) fvw !! i) as [[wi' fi]|] eqn:Ei; [|discriminate].
  destruct (take (Z.to_nat n_words) fvw !! j) as [[wj' fj]|] eqn:Ej; [|discriminate].
  injection Hi as <-. injection Hj as <-.
  pose proof (sorted_lookup _ (sorted_take (Z.to_nat n_words) _ frequent_valid_sorted)
                i j _ _ Hij Ei Ej) as Hord.
  apply list_elem_of_lookup_2, elem_of_take in Ei as (? & Ei & _).
  apply list_elem_of_lookup_2, elem_of_take in Ej as (? & Ej & _).
  apply list_elem_of_lookup_2, frequent_valid_entry in Ei as [-> _].
  apply list_elem_of_lookup_2, frequent_valid_entry in Ej as [-> _].
  exact Hord.
Qed.
End VocabularyClaims.

(** ** The similarity analysis returns *)

Lemma mapM_result_ok {A B : Type} (f : A -> result B) (l : list A) :
  (forall x, x ∈ l -> exists y, f x = Ok y) -> exists ys, mapM (M := result) f l = Ok ys.
Proof.
  induction l as [|x l IH]; intros Hok; [exists []; reflexivity|].
  destruct (Hok x) as [y Hy]; [left|].
  destruct IH as [ys Hys]; [intros z Hz; apply Hok; right; exact Hz|].
  exists (y :: ys). cbn [mapM]. rewrite Hy. cbn [mbind result_bind]. rewrite Hys. reflexivity.
Qed.

Section SimilarityAnalysis.
Variable cast_undef : spec_float -> Z.
Variable cosine_similarity : float_dtype -> list spec_float -> list spec_float -> spec_float.

Lemma example_words_ok words quantized_sims quantized_sim :
length quantized_sims <= length words ->
exists ws, example_words words quantized_sims quantized_sim = Ok ws.
Proof.
intros Hlen. unfold example_words. apply mapM_result_ok.
intros i (j & Hj & _)%elem_of_take.
apply list_elem_of_lookup_2, list_elem_of_filter in Hj as [_ Hi].
apply elem_of_seq in Hi.
destruct (lookup_lt_is_Some_2 words i) as [w Hw]; [lia|].
exists w. apply py_index_nat, Hw.
Qed.

Lemma analyze_similarity_collisions_ok embeddings words bits :
rows embeddings <> [] ->
length words = length (rows embeddings) ->
(bits < 1024)%Z ->
exists rate,
  analyze_similarity_collisions cast_undef cosine_similarity embeddings words None bits
  = Ok rate.
Proof.
intros Hne Hlen Hb. unfold analyze_similarity_collisions.
assert (Hpos : 0 < length words) by (rewrite Hlen; destruct (rows embeddings); [contradiction|simpl; lia]).
destruct (lookup_lt_is_Some_2 words (Z.to_nat (Z.of_nat (length words) / 2))) as [fb Hfb].
{ apply Nat2Z.inj_lt. rewrite Z2Nat.id by (apply Z.div_pos; lia).
  apply Z.div_lt_upper_bound; lia. }
assert (Hidx : py_index words (Z.of_nat (length words) / 2) = Ok fb).
{ rewrite <- (Z2Nat.id (Z.of_nat (length words) / 2)) by (apply Z.div_pos; lia).
  apply py_index_nat, Hfb. }
rewrite Hidx. cbn [mbind result_bind].
set (target := default fb (head (filter (fun w => w ∈ words) common_targets))).
assert (Htarget : target ∈ words).
{ subst target. destruct (filter (fun w => w ∈ words) common_targets) as [|t ts] eqn:E.
  - simpl. eapply list_elem_of_lookup_2, Hfb.
  - simpl. assert (t ∈ filter (fun w => w ∈ words) common_targets) as Ht by (rewrite E; left).
    apply list_elem_of_filter in Ht as [Ht _]. exact Ht. }
destruct (list_index_Some target words Htarget) as (idx & Hi & Hl).
unfold py_list_index. rewrite Hi. cbn [mbind result_bind].
destruct (lookup_lt_is_Some_2 (rows embeddings) idx) as [v Hv].
{ rewrite <- Hlen. eapply lookup_lt_Some, Hl. }
rewrite (py_index_nat _ _ _ Hv). cbn [mbind result_bind].
set (sims := {| dtype := dtype embeddings;
                rows := [map (cosine_similarity (dtype embeddings) v) (rows embeddings)] |}).
assert (Hsims : flat sims <> []).
{ unfold flat, sims. cbn [rows concat]. rewrite app_nil_r.
  destruct (rows embeddings); [contradiction|discriminate]. }
unfold quantize_similarities.
destruct (amin_nonempty sims Hsims) as [mn ->].
destruct (amax_nonempty sims Hsims) as [mx ->].
cbn [mbind result_bind].
destruct (levels_small (dtype embeddings) bits Hb) as [num Hnum].
cbn [dtype sims]. rewrite Hnum. cbn [mbind result_bind].
match goal with
| |- context [mapM ?f ?l] => destruct (mapM_result_ok f l) as [ex ->]
end.
{ intros qc _. apply example_words_ok.
  rewrite length_map. unfold flat, sims. cbn [rows concat].
  rewrite app_nil_r, length_map, Hlen. reflexivity. }
cbn [mbind result_bind]. unfold py_truediv.
destruct (Z.eqb_spec (Z.of_nat (length words)) 0); [lia|]. eauto.
Qed.
End SimilarityAnalysis.

(** ** The file system *)

Lemma parent_snoc (p : path) (name : string) :
  p <> [] \/ (name <> "/" /\ name <> "//") -> parent (p ++ [name]) = p.
Proof.
  intros H. destruct p as [|a p].
  - destruct H as [H|[H1 H2]]; [contradiction|].
    simpl. rewrite decide_False by (intros [?|?]; contradiction). reflexivity.
  - change (parent (a :: (p ++ [name])) = a :: p).
    destruct (p ++ [name]) as [|b l] eqn:E; [destruct p; discriminate|].
    change (removelast (a :: b :: l) = a :: p).
    rewrite <- E. change (removelast ((a :: p) ++ [name]) = a :: p).
    apply removelast_last.
Qed.

Lemma snoc_ne (p : path) (a b : string) : a <> b -> p ++ [a] <> p ++ [b].
Proof. intros Hne Heq. apply app_inv_head in Heq. congruence. Qed.

Lemma snoc_ne_self (p : path) (a : string) : p ++ [a] <> p.
Proof.
  intros Heq. apply (f_equal length) in Heq. rewrite length_app in Heq. simpl in Heq. lia.
Qed.

Lemma walk_app w cur a b :
  walk w cur (a ++ b)
  = match walk w cur a with Ok _ => walk w (cur ++ a) b | Raise e => Raise e end.
Proof.
  revert cur. induction a as [|x a IH]; intros cur; simpl.
  - rewrite app_nil_r. reflexivity.
  - destruct (is_dir w (cur ++ [x])).
    + rewrite IH, <- app_assoc. reflexivity.
    + destruct (is_file w (cur ++ [x])); reflexivity.
Qed.

(** A look-up that succeeds meets directories only, and succeeds in every
    world that has these directories. *)
Lemma walk_mono w w' cur rest :
  (forall p, is_dir w p = true -> is_dir w' p = true) ->
  walk w cur rest = Ok () -> walk w' cur rest = Ok ().
Proof.
  intros Hd. revert cur. induction rest as [|x rest IH]; intros cur; simpl; [reflexivity|].
  destruct (is_dir w (cur ++ [x])) eqn:E.
  - rewrite (Hd _ E). apply IH.
  - destruct (is_file w (cur ++ [x])); discriminate.
Qed.

Lemma walk_same_dirs w w' cur rest :
  dirs w' = dirs w -> walk w cur rest = Ok () -> walk w' cur rest = Ok ().
Proof.
  intros Hd. apply walk_mono. intros p. unfold is_dir. rewrite Hd. auto.
Qed.

(** The look-up of a directory whose parent is found. *)
Lemma walk_to_dir w p :
  walk w [] (parent p) = Ok () -> is_dir w p = true -> walk w [] p = Ok ().
Proof.
  intros Hparent Hdir.
  destruct p as [|a p] using rev_ind; [reflexivity|]. clear IHp.
  destruct p as [|b p].
  - simpl. change ([a]) with ([] ++ [a]) in Hdir. simpl in Hdir. rewrite Hdir. reflexivity.
  - rewrite parent_snoc in Hparent by (left; discriminate).
    rewrite walk_app, Hparent. cbn [walk]. rewrite app_nil_l, Hdir. reflexivity.
Qed.

(** [mkdir(exist_ok=True)] returns when the parent is found and no
    regular file has the name; the directory is there afterwards, and
    nothing else has changed. *)
Lemma mkdir_exist_ok_returns p w :
  walk w [] (parent p) = Ok () ->
  is_dir w p = true \/ is_file w p = false ->
  exists w1,
    mkdir_exist_ok p w = (Ok (), w1) /\
    files w1 = files w /\
    printed w1 = printed w /\
    walk w1 [] p = Ok () /\
    (forall q, q <> p -> is_dir w1 q = is_dir w q).
Proof.
  intros Hparent Hfree. unfold mkdir_exist_ok. rewrite Hparent.
  destruct (is_dir w p) eqn:Hdir.
  - exists w. repeat split; try reflexivity. apply walk_to_dir; assumption.
  - destruct Hfree as [?|Hfile]; [discriminate|]. rewrite Hfile.
    eexists. split; [reflexivity|]. cbn [files printed].
    split; [reflexivity|]. split; [reflexivity|].
    assert (Hnew : forall q, is_dir {| files := files w; dirs := {[p]} ∪ dirs w;
                                       printed := printed w |} q
                             = bool_decide (q = p) || is_dir w q).
    { intros q. unfold is_dir. cbn [dirs].
      apply eq_true_iff_eq. rewrite orb_true_iff, !bool_decide_eq_true.
      rewrite elem_of_union, elem_of_singleton. tauto. }
    split.
    + apply walk_to_dir.
      * eapply walk_mono; [|exact Hparent]. intros q Hq. rewrite Hnew, Hq. apply orb_true_r.
      * rewrite Hnew, bool_decide_true by reflexivity. reflexivity.
    + intros q Hq. rewrite Hnew, bool_decide_false by exact Hq. reflexivity.
Qed.

(** ** Running [export_data] *)

Lemma run_step {A B : Type} (m : io A) (k : A -> io B) w a w1 :
  m w = (Ok a, w1) -> (m ≫= k) w = k a w1.
Proof. intros H. unfold mbind, io_bind. rewrite H. reflexivity. Qed.


Lemma run_announce {A : Type} s (k : unit -> io A) F D P :
  (announce s ≫= k) {| files := F; dirs := D; printed := P |}
  = k () {| files := F; dirs := D; printed := P ++ [s] |}.
Proof. reflexivity. Qed.

Lemma run_lift_ok {A B : Type} (a : A) (k : A -> io B) w : (lift (Ok a) ≫= k) w = k a w.
Proof. reflexivity. Qed.

Lemma run_ret {A B : Type} (a : A) (k : A -> io B) w : (mret a ≫= k) w = k a w.
Proof. reflexivity. Qed.

Lemma run_write_record {A : Type} p content name formats
    (k : gmap string nat -> io A) F D P :
  let w := {| files := F; dirs := D; printed := P |} in
  walk w [] (parent p) = Ok () ->
  is_dir w p = false ->
  (write_file p content ≫= (fun _ => EmbeddingGenerator.record_size name p formats ≫= k)) w
  = k (<[name := String.length content]> formats)
      {| files := <[p := content]> F; dirs := D; printed := P |}.
Proof.
  intros w Hparent Hdir.
  unfold mbind, io_bind, write_file, EmbeddingGenerator.record_size, st_size, mbind, io_bind.
  rewrite Hparent, Hdir. cbn [files dirs printed].
  rewrite lookup_insert_eq. reflexivity.
Qed.

Lemma run_write_record_inner {A : Type} p content name formats
    (k : gmap string nat -> io A) F D P :
  let w := {| files := F; dirs := D; printed := P |} in
  walk w [] (parent p) = Ok () ->
  is_dir w p = false ->
  ((write_file p content ≫= (fun _ => EmbeddingGenerator.record_size name p formats)) ≫= k) w
  = k (<[name := String.length content]> formats)
      {| files := <[p := content]> F; dirs := D; printed := P |}.
Proof.
  intros w Hparent Hdir.
  unfold mbind, io_bind, write_file, EmbeddingGenerator.record_size, st_size, mbind, io_bind.
  rewrite Hparent, Hdir. cbn [files dirs printed].
  rewrite lookup_insert_eq. reflexivity.
Qed.

(** The names of the files of [export_data], in the order they are
    written. *)
Definition export_file_names : list string :=
  ["embeddings.json"; "embeddings.json.gz"; "embeddings.json.br"; "embeddings.npz";
   "embeddings_float32.bin.gz"; "embeddings_float16.bin.gz"; "embeddings.blosc2";
   "embeddings.lz4"; "embeddings_quantized.json"; "embeddings_quantized.json.br";
   "embeddings_b64.json.br"].

Section ExportClaims.
Import EmbeddingGenerator.
Variable cast_undef : spec_float -> Z.
Variable cosine_similarity : float_dtype -> list spec_float -> list spec_float -> spec_float.
Variable HAS_BLOSC HAS_LZ4 : bool.
Variable json_dumps : json -> string.
Variable gzip_compress brotli_compress lz4_compress : string -> string.
Variable savez_compressed : ndarray -> ndarray -> list string -> string.
Variable tobytes : ndarray -> string.
Variable blosc2_compress2 : ndarray -> string.
Variable b64encode : string -> string.

(** A JSON text is never empty. *)
Hypothesis json_nonempty : forall v, json_dumps v <> "".

Local Abbreviation export_data_ :=
(export_data cast_undef cosine_similarity HAS_BLOSC HAS_LZ4 json_dumps
   gzip_compress brotli_compress lz4_compress savez_compressed tobytes
   blosc2_compress2 b64encode).

Lemma print_results_ok (formats : gmap string nat) n :
formats !! "JSON (raw)" = Some n -> n <> 0 -> _print_results formats = Ok ().
Proof.
intros Hl Hn. unfold _print_results. rewrite Hl.
destruct (decide (n = 0)); [contradiction|reflexivity].
Qed.

Lemma json_dumps_size v : String.length (json_dumps v) <> 0.
Proof using json_nonempty.
specialize (json_nonempty v). destruct (json_dumps v); [contradiction|discriminate].
Qed.


Ltac fresh_key :=
repeat (rewrite lookup_insert_ne by discriminate); apply lookup_empty.

Ltac count_inserts :=
repeat (rewrite map_size_insert_None by fresh_key); rewrite map_size_empty.

Ltac written_file :=
repeat (rewrite lookup_insert_ne by (apply snoc_ne; discriminate));
apply lookup_insert_eq.

Ltac entry_file H :=
lazymatch type of H with
| (<[_ := String.length ?c]> _) !! _ = Some _ =>
    rewrite lookup_insert in H; case_decide;
    [ injection H as <-;
      lazymatch goal with
      | |- context [ <[?p := c]> _ ] => exists p, c
      end;
      split; [written_file | reflexivity]
    | entry_file H ]
| _ => rewrite lookup_empty in H; discriminate H
end.

(** A file of the output directory can be written: the directory is
  found, and the name is not that of a directory. *)
Ltac in_output_dir :=
lazymatch goal with
| Hout : walk ?w1 [] ?out = Ok () |- walk _ [] (parent (?out ++ [_])) = Ok () =>
    rewrite parent_snoc by (right; split; discriminate);
    apply (walk_same_dirs w1); [reflexivity | exact Hout]
| Hfile : forall name, name ∈ export_file_names -> is_dir ?w1 (_ ++ [name]) = false
  |- is_dir _ (?out ++ [?name]) = false =>
    apply Hfile;
    unfold export_file_names;
    repeat first [ apply list_elem_of_here | apply list_elem_of_further ]
end.

(** The run of [export_data] on a generator that holds a word list, an
  embeddings matrix with one row per word and at least one entry, and
  a coordinate matrix with at least one entry, in a world where the
  parent of the output directory is found, no regular file has the
  name of the output directory, and no directory the name of one of
  the files. *)
Lemma export_data_returns (g : generator) (e c : ndarray) (ws : list string)
  (output_dir : string) (now : spec_float) (w : world) :
embeddings g = Some e ->
umap_coords g = Some c ->
words g = Some ws ->
flat e <> [] ->
flat c <> [] ->
length ws = length (rows e) ->
walk w [] (parent (Path output_dir)) = Ok () ->
is_dir w (Path output_dir) = true \/ is_file w (Path output_dir) = false ->
(forall name, name ∈ export_file_names ->
   is_dir w (joinpath (Path output_dir) name) = false) ->
exists formats w',
  export_data_ output_dir now g w = (Ok formats, w') /\
  size formats = 9 + (if HAS_BLOSC then 1 else 0) + (if HAS_LZ4 then 1 else 0) /\
  (forall name n, formats !! name = Some n ->
     exists file content,
       files w' !! file = Some content /\ n = String.length content) /\
  files w' !! joinpath (Path output_dir) "embeddings.npz" = Some (savez_compressed e c ws).
Proof using json_nonempty.
intros He Hc Hw Hfe Hfc Hlen Hparent Hfree Hnodir.
destruct (quantize_to_uint8_ok cast_undef e Hfe) as (emn & emx & _ & _ & Hqe).
destruct (quantize_to_uint8_ok cast_undef c Hfc) as (cmn & cmx & _ & _ & Hqc).
cbv zeta in Hqe, Hqc.
destruct (analyze_collisions_ok cast_undef e ws 8 Hfe Hlen ltac:(lia)) as (coll & Hcoll).
destruct (analyze_similarity_collisions_ok cast_undef cosine_similarity e ws 8
            (rows_nonempty _ Hfe) Hlen ltac:(lia)) as (srate & Hsim).
destruct (mkdir_exist_ok_returns _ w Hparent Hfree) as (w1 & Hmk & Hfiles & _ & Hout & Hdirs).
assert (Hfile : forall name, name ∈ export_file_names ->
                  is_dir w1 (Path output_dir ++ [name]) = false).
{ intros name Hname. rewrite Hdirs by apply snoc_ne_self.
  specialize (Hnodir name Hname).
  unfold export_file_names in Hname.
  repeat (apply elem_of_cons in Hname as [->|Hname]; [exact Hnodir|]).
  apply elem_of_nil in Hname. contradiction. }
unfold export_data.
set (out := Path output_dir) in *.
destruct w1 as [F D P]. cbv zeta.
rewrite (run_step _ _ _ _ _ Hmk); cbv beta.
rewrite run_announce; cbv beta.
rewrite He, run_lift_ok; cbv beta.
rewrite Hc, run_lift_ok; cbv beta.
rewrite Hw, run_lift_ok; cbv beta zeta.
repeat match goal with
       | |- context [joinpath out ?name] => change (joinpath out name) with (out ++ [name])
       end.
set (data := JObj (("words", _) :: ("embeddings", _) :: _)).
set (words_json := JList (map JStr ws)).
set (coords_shape := json_shape c). set (emb_shape := json_shape e).
set (emb_f32 := tobytes (astype_float float32 e)).
set (coords_f32 := tobytes (astype_float float32 c)).
repeat (rewrite run_write_record by in_output_dir; cbv beta).
destruct HAS_BLOSC, HAS_LZ4;
  repeat (first [rewrite run_write_record_inner by in_output_dir | rewrite run_ret];
          cbv beta);
  rewrite Hqe, run_lift_ok; cbv beta iota zeta;
  rewrite Hqc, run_lift_ok; cbv beta iota zeta;
  set (quant_data := JObj (("words", _) :: ("embeddings_q8", _) :: _));
  set (web_data := JObj (("words", _) :: ("embeddings_b64", _) :: _));
  repeat (rewrite run_write_record by in_output_dir; cbv beta);
  (erewrite print_results_ok;
   [ | repeat (rewrite lookup_insert_ne by discriminate); apply lookup_insert_eq
     | apply json_dumps_size ]);
  rewrite run_lift_ok; cbv beta;
  rewrite run_announce; cbv beta;
  rewrite Hcoll, run_lift_ok; cbv beta;
  rewrite Hsim, run_lift_ok; cbv beta;
  (eexists _, _; split; [reflexivity|]);
  (split; [count_inserts; reflexivity|]);
  (split; [|cbn [files]; written_file]);
  intros name n Hname; cbn [files]; entry_file Hname.
Qed.

(** C5, as the code has it.  On a generator that holds a word list, an
  embeddings matrix with one row per word and at least one entry, and
  a coordinate matrix with at least one entry (the JSON serializer
  never writing an empty text), and when the output directory is there
  or can be made (its parent is found and no regular file has its
  name) and none of the eleven file names is the name of a directory
  in it, [export_data] returns a dictionary with nine entries, one
  more when blosc2 is installed and one more when lz4 is, so eleven at
  most; each entry maps a format name to the size of a file that has
  been written. *)
Theorem export_formats_count (g : generator) (e c : ndarray) (ws : list string)
  (output_dir : string) (now : spec_float) (w : world) :
embeddings g = Some e ->
umap_coords g = Some c ->
words g = Some ws ->
flat e <> [] ->
flat c <> [] ->
length ws = length (rows e) ->
walk w [] (parent (Path output_dir)) = Ok () ->
is_dir w (Path output_dir) = true \/ is_file w (Path output_dir) = false ->
(forall name, name ∈ export_file_names ->
   is_dir w (joinpath (Path output_dir) name) = false) ->
exists formats w',
  export_data_ output_dir now g w = (Ok formats, w') /\
  size formats = 9 + (if HAS_BLOSC then 1 else 0) + (if HAS_LZ4 then 1 else 0) /\
  (forall name n, formats !! name = Some n ->
     exists file content,
       files w' !! file = Some content /\ n = String.length content).
Proof using json_nonempty.
intros He Hc Hw Hfe Hfc Hlen Hparent Hfree Hnodir.
destruct (export_data_returns g e c ws output_dir now w He Hc Hw Hfe Hfc Hlen
            Hparent Hfree Hnodir) as (formats & w' & Hrun & Hsize & Hentries & _).
exists formats, w'. auto.
Qed.
End ExportClaims.

(** ** The whole run *)

Section SampleSimilarities.
Import EmbeddingGenerator.
Variable cosine_similarity : float_dtype -> list spec_float -> list spec_float -> spec_float.

Lemma test_similarity_present (g : generator) (ws : list string) (word1 word2 : string) :
stores g ws -> word1 ∈ ws -> word2 ∈ ws ->
exists sim, test_similarity cosine_similarity word1 word2 g = Ok (Some sim).
Proof.
intros [Hw (e & He & Hlen)] H1 H2.
destruct (list_index_Some word1 ws H1) as (i1 & Hi1 & Hl1).
destruct (list_index_Some word2 ws H2) as (i2 & Hi2 & Hl2).
destruct (lookup_lt_is_Some_2 (rows e) i1) as [v1 Hv1].
{ rewrite Hlen. eapply lookup_lt_Some; eauto. }
destruct (lookup_lt_is_Some_2 (rows e) i2) as [v2 Hv2].
{ rewrite Hlen. eapply lookup_lt_Some; eauto. }
unfold test_similarity. rewrite Hw.
destruct (decide (word1 ∉ ws \/ word2 ∉ ws)) as [[?|?]|_]; [contradiction..|].
unfold py_list_index. rewrite Hi1, Hi2. simpl. rewrite He.
rewrite (py_index_nat _ _ _ Hv1), (py_index_nat _ _ _ Hv2). eexists. reflexivity.
Qed.

(** The sample similarities are computed without an exception on a
  generator that stores the words with their embeddings. *)
Lemma sample_similarities_return (g : generator) (ws : list string) :
stores g ws -> sample_similarities cosine_similarity ws g = Ok ().
Proof.
intros Hst. unfold sample_similarities.
match goal with
| |- context [mapM ?f ?l] => destruct (mapM_result_ok f l) as [us ->]
end; [|reflexivity].
intros [word1 word2] _. cbn [fst snd].
destruct (decide (word1 ∈ ws /\ word2 ∈ ws)) as [[H1 H2]|_]; [|eauto].
destruct (test_similarity_present g ws word1 word2 Hst H1 H2) as [sim ->].
cbn [mbind result_bind]. eauto.
Qed.
End SampleSimilarities.

Section Selection.
Variable nltk_download : string -> result unit.
Variable brown_corpus : list string.
Variable words_corpus : list string.

(** The function is its two halves, one after the other. *)
Lemma get_frequency_sorted_words_halves (n_words : Z) :
get_frequency_sorted_words nltk_download brown_corpus words_corpus n_words
= (download_corpora nltk_download ≫= fun _ => select_words brown_corpus words_corpus n_words).
Proof. reflexivity. Qed.

(** With both corpora and a word that passes the filter, a positive
  count selects at least one word. *)
Lemma frequency_sorted_words_some (n_words : Z) :
nltk_download "brown" = Ok () ->
nltk_download "words" = Ok () ->
frequent_valid_words brown_corpus words_corpus <> [] ->
(0 < n_words)%Z ->
exists ws,
  get_frequency_sorted_words nltk_download brown_corpus words_corpus n_words = Ok ws /\
  ws <> [].
Proof.
intros Hb Hw Hne Hn. unfold get_frequency_sorted_words. rewrite Hb, Hw.
cbn [mbind result_bind].
set (fvw := frequent_valid_words brown_corpus words_corpus) in *.
assert (Hlen : 0 < length fvw) by (destruct fvw; [contradiction|cbn; lia]).
destruct (py_index_in_range fvw 0) as [x ->]; [lia|].
destruct (py_index_in_range fvw (Z.min (Z.of_nat (length fvw) - 1) (n_words - 1)))
  as [y ->]; [lia|].
eexists. split; [reflexivity|].
unfold py_slice_to. destruct (Z.ltb_spec n_words 0); [lia|].
destruct fvw as [|wf fvw]; [contradiction|].
destruct (Z.to_nat n_words) eqn:E; [lia|]. discriminate.
Qed.

Lemma get_frequency_sorted_words_io_returns (n_words : Z) (ws : list string) F D P :
get_frequency_sorted_words nltk_download brown_corpus words_corpus n_words = Ok ws ->
get_frequency_sorted_words_io nltk_download brown_corpus words_corpus n_words
  {| files := F; dirs := D; printed := P |}
= (Ok ws, {| files := F; dirs := D; printed := P ++ [CorpusLoading; Filtering] |}).
Proof.
rewrite get_frequency_sorted_words_halves. intros H.
unfold get_frequency_sorted_words_io.
rewrite run_announce.
destruct (download_corpora nltk_download) as [[]|e]; [|discriminate].
rewrite run_lift_ok, run_announce. cbn [mbind result_bind] in H.
unfold lift. rewrite H, <- app_assoc. reflexivity.
Qed.

End Selection.

Lemma walk_one (w : world) (name : string) :
is_dir w [name] = true -> walk w [] [name] = Ok ().
Proof. intros H. cbn [walk]. rewrite app_nil_l, H. reflexivity. Qed.


(** The output directory of [main]. *)
Lemma output_path_20000 :
Path ("outputs/output_" +:+ py_str_of_int 20000) = ["outputs"; "output_20000"].
Proof. reflexivity. Qed.

Section WholeRun.
Import EmbeddingGenerator.
Variable cast_undef : spec_float -> Z.
Variable cosine_similarity : float_dtype -> list spec_float -> list spec_float -> spec_float.
Variable encode : list string -> ndarray.
Variable umap_fit_transform : Z -> Z -> ndarray -> ndarray.
Variable HAS_BLOSC HAS_LZ4 : bool.
Variable json_dumps : json -> string.
Variable gzip_compress brotli_compress lz4_compress : string -> string.
Variable savez_compressed : ndarray -> ndarray -> list string -> string.
Variable tobytes : ndarray -> string.
Variable blosc2_compress2 : ndarray -> string.
Variable b64encode : string -> string.
Variable nltk_download : string -> result unit.
Variable brown_corpus : list string.
Variable words_corpus : list string.
Variable now : spec_float.

Local Abbreviation export_data_ :=
(export_data cast_undef cosine_similarity HAS_BLOSC HAS_LZ4 json_dumps
   gzip_compress brotli_compress lz4_compress savez_compressed tobytes
   blosc2_compress2 b64encode).
Local Abbreviation run_ :=
(run cast_undef cosine_similarity encode umap_fit_transform HAS_BLOSC HAS_LZ4
   json_dumps gzip_compress brotli_compress lz4_compress savez_compressed
   tobytes blosc2_compress2 b64encode nltk_download brown_corpus words_corpus now).
Local Abbreviation main_ :=
(main cast_undef cosine_similarity encode umap_fit_transform HAS_BLOSC HAS_LZ4
   json_dumps gzip_compress brotli_compress lz4_compress savez_compressed
   tobytes blosc2_compress2 b64encode nltk_download brown_corpus words_corpus now).

Lemma generate_embeddings_io_returns (ws : list string) (g : generator) F D P :
generate_embeddings_io encode ws g {| files := F; dirs := D; printed := P |}
= (Ok (encode ws,
       {| embeddings := Some (encode ws); words := Some ws; umap_coords := umap_coords g |}),
   {| files := F; dirs := D; printed := P ++ [Embedding] |}).
Proof. reflexivity. Qed.

Lemma generate_umap_coordinates_io_returns (n_components random_state : Z)
  (g : generator) (e : ndarray) F D P :
embeddings g = Some e ->
generate_umap_coordinates_io umap_fit_transform n_components random_state g
  {| files := F; dirs := D; printed := P |}
= (Ok (umap_fit_transform n_components random_state e,
       {| embeddings := embeddings g; words := words g;
          umap_coords := Some (umap_fit_transform n_components random_state e) |}),
   {| files := F; dirs := D; printed := P ++ [DimensionalityReduction] |}).
Proof.
intros H. unfold generate_umap_coordinates_io, generate_umap_coordinates.
rewrite H. reflexivity.
Qed.

(** The generator that [main] exports, for the selected words. *)
Definition exported (ws : list string) : generator :=
let e := encode ws in
{| embeddings := Some e; words := Some ws;
   umap_coords := Some (umap_fit_transform default_n_components default_random_state e) |}.

(** When the words are selected and the model gives one row per word,
  a round of the loop gets to the export, four banners printed. *)
Lemma run_reaches_export (n_words : Z) (ws : list string) F D P :
get_frequency_sorted_words nltk_download brown_corpus words_corpus n_words = Ok ws ->
length (rows (encode ws)) = length ws ->
run_ n_words {| files := F; dirs := D; printed := P |}
= (export_data_ ("outputs/output_" +:+ py_str_of_int n_words) now (exported ws)
     ≫= fun _ => mret ())
    {| files := F; dirs := D;
       printed := P ++ [CorpusLoading; Filtering; Embedding; DimensionalityReduction] |}.
Proof.
intros Hws Hrows. unfold run.
rewrite (run_step _ _ _ _ _
           (get_frequency_sorted_words_io_returns _ _ _ n_words ws F D P Hws)).
cbv zeta.
rewrite (run_step _ _ _ _ _ (generate_embeddings_io_returns ws init F D _)).
cbv beta iota.
rewrite (run_step _ _ _ _ _
           (generate_umap_coordinates_io_returns default_n_components default_random_state
              {| embeddings := Some (encode ws); words := Some ws;
                 umap_coords := umap_coords init |} (encode ws) F D _ eq_refl)).
cbv beta iota. cbn [embeddings words umap_coords init].
rewrite (sample_similarities_return cosine_similarity _ ws), run_lift_ok.
2:{ split; [reflexivity|]. exists (encode ws). split; [reflexivity|exact Hrows]. }
rewrite <- !app_assoc. reflexivity.
Qed.

Lemma main_one_round (w : world) :
main_ w = (run_ 20000 ≫= fun _ => mret ()) w.
Proof.
unfold main, word_counts. cbn [mapM].
unfold mbind, io_bind, mret, io_ret.
destruct (run_ 20000 w) as [[[]|e] w1]; reflexivity.
Qed.


(** C6.  Whatever the libraries return and wherever the script stops,
  what [main] has printed is a prefix of the six stage banners in the
  order corpus loading, filtering, embedding, dimensionality reduction,
  export, collision analysis, and all six when it returns.  And it
  does return, every stage run on the result of the one before: when
  the two corpora are downloaded and one word at least passes the
  filter, the model gives one row with entries for every word, UMAP
  gives coordinates with entries, the JSON serializer never writes an
  empty text, the directory [outputs] is there, no regular file has
  the name of [outputs/output_20000] and no directory in it the name
  of one of the eleven files, then [main] returns having printed the
  six banners, and the archive it has written holds the selected
  words, their embeddings, and the coordinates of these embeddings.
  Called on a generator whose [embeddings] field is [None],
  [generate_umap_coordinates] raises [ValueError] and leaves the three
  fields as they were, and it prints no banner. *)
Theorem pipeline_order_and_umap_guard :
(forall w, exists k,
    printed (main_ w).2 = printed w ++ take k pipeline /\
    ((main_ w).1 = Ok () -> take k pipeline = pipeline)) /\
(forall w,
    nltk_download "brown" = Ok () ->
    nltk_download "words" = Ok () ->
    frequent_valid_words brown_corpus words_corpus <> [] ->
    (forall l, length (rows (encode l)) = length l) ->
    (forall l, l <> [] -> flat (encode l) <> []) ->
    (forall e, flat e <> [] ->
       flat (umap_fit_transform default_n_components default_random_state e) <> []) ->
    (forall v, json_dumps v <> "") ->
    is_dir w ["outputs"] = true ->
    is_dir w ["outputs"; "output_20000"] = true \/
    is_file w ["outputs"; "output_20000"] = false ->
    (forall name, name ∈ export_file_names ->
       is_dir w ["outputs"; "output_20000"; name] = false) ->
    exists ws w',
      get_frequency_sorted_words nltk_download brown_corpus words_corpus 20000 = Ok ws /\
      main_ w = (Ok (), w') /\
      printed w' = printed w ++ pipeline /\
      files w' !! ["outputs"; "output_20000"; "embeddings.npz"]
      = Some (savez_compressed
                (encode ws)
                (umap_fit_transform default_n_components default_random_state (encode ws))
                ws)) /\
(forall ws uc n_components random_state,
    let g := {| embeddings := None; words := ws; umap_coords := uc |} in
    generate_umap_coordinates umap_fit_transform n_components random_state g
    = (Raise ValueError, g) /\
    forall w,
      generate_umap_coordinates_io umap_fit_transform n_components random_state g w
      = (Raise ValueError, w)).
Proof.
split; [|split].
- intros w.
  destruct (prints_main cast_undef cosine_similarity encode umap_fit_transform
              HAS_BLOSC HAS_LZ4 json_dumps gzip_compress brotli_compress lz4_compress
              savez_compressed tobytes blosc2_compress2 b64encode nltk_download
              brown_corpus words_corpus now w) as (k & Hk & Hp & Hok).
  exists k. split; [exact Hp|].
  intros H. rewrite (Hok _ H). apply firstn_all.
- intros w Hbrown Hwords Hsome Hrows Hentries Humap Hjson Houtputs Hfree Hnodir.
  destruct (frequency_sorted_words_some nltk_download brown_corpus words_corpus 20000
              Hbrown Hwords Hsome ltac:(lia)) as (ws & Hws & Hne).
  exists ws.
  assert (exists w', main_ w = (Ok (), w') /\
            files w' !! ["outputs"; "output_20000"; "embeddings.npz"]
            = Some (savez_compressed
                      (encode ws)
                      (umap_fit_transform default_n_components default_random_state
                         (encode ws))
                      ws)) as (w' & Hmain & Hnpz).
  { rewrite main_one_round. destruct w as [F D P].
    destruct (export_data_returns cast_undef cosine_similarity HAS_BLOSC HAS_LZ4
                json_dumps gzip_compress brotli_compress lz4_compress savez_compressed
                tobytes blosc2_compress2 b64encode Hjson
                (exported ws) (encode ws)
                (umap_fit_transform default_n_components default_random_state (encode ws))
                ws ("outputs/output_" +:+ py_str_of_int 20000) now
                {| files := F; dirs := D;
                   printed := P ++ [CorpusLoading; Filtering; Embedding;
                                    DimensionalityReduction] |})
      as (formats & w' & Hexp & _ & _ & Hnpz).
    - reflexivity.
    - reflexivity.
    - reflexivity.
    - apply Hentries, Hne.
    - apply Humap, Hentries, Hne.
    - symmetry. apply Hrows.
    - rewrite output_path_20000.
      change (parent ["outputs"; "output_20000"]) with ["outputs"].
      apply walk_one. exact Houtputs.
    - rewrite output_path_20000. exact Hfree.
    - intros name Hname. rewrite output_path_20000.
      specialize (Hnodir name Hname). unfold export_file_names in Hname.
      repeat (apply elem_of_cons in Hname as [->|Hname]; [exact Hnodir|]).
      apply elem_of_nil in Hname. contradiction.
    - exists w'. split; [|exact Hnpz].
      apply run_step with (a := ()) (w1 := w').
      rewrite (run_reaches_export 20000 ws F D P Hws (Hrows ws)).
      apply run_step with (a := formats) (w1 := w'). exact Hexp. }
  exists w'. split; [exact Hws|]. split; [exact Hmain|]. split; [|exact Hnpz].
  destruct (prints_main cast_undef cosine_similarity encode umap_fit_transform
              HAS_BLOSC HAS_LZ4 json_dumps gzip_compress brotli_compress lz4_compress
              savez_compressed tobytes blosc2_compress2 b64encode nltk_download
              brown_corpus words_corpus now w) as (k & Hk & Hp & Hok).
  rewrite Hmain in Hp, Hok. cbn [fst snd] in Hp, Hok.
  rewrite (Hok () eq_refl), firstn_all in Hp. exact Hp.
- intros ws uc n_components random_state g. split; [reflexivity|].
  intros w. reflexivity.
Qed.

End WholeRun.

(** ** The order of floats *)

(** A float that is a number (no NaN, no infinity) as a triple of integers
    whose lexicographic order is the order of the values: the sign, then
    the exponent and the significand, both negated for a negative
    number. *)
Definition order_key (x : spec_float) : Z * Z * Z :=
  match x with
  | S754_finite false m e => (1, e, Zpos m)%Z
  | S754_finite true m e => (-1, - e, Zneg m)%Z
  | _ => (0, 0, 0)%Z
  end.

Definition key_le (a b : Z * Z * Z) : Prop :=
  (a.1.1 < b.1.1 \/ (a.1.1 = b.1.1 /\ (a.1.2 < b.1.2 \/ (a.1.2 = b.1.2 /\ a.2 <= b.2))))%Z.

Lemma SFleb_key x y :
  is_finite x = true -> is_finite y = true ->
  (SFleb x y = true <-> key_le (order_key x) (order_key y)).
Proof.
  intros Hx Hy. unfold SFleb, key_le.
  destruct x as [sx| | |sx mx ex], y as [sy| | |sy my ey]; try discriminate;
    try destruct sx; try destruct sy; cbn;
    try (split; [intros _; lia | reflexivity]);
    try (split; [discriminate | lia]).
  - destruct (Z.compare_spec ex ey); cbn.
    + rewrite Pos.compare_cont_spec. cbn. destruct (Pos.compare_spec mx my); cbn;
        (split; [intros; lia | intros; try reflexivity; lia]).
    + split; [discriminate|lia].
    + split; [lia|reflexivity].
  - destruct (Z.compare_spec ex ey); cbn.
    + rewrite Pos.compare_cont_spec. cbn. destruct (Pos.compare_spec mx my); cbn;
        (split; [intros; lia | intros; try reflexivity; lia]).
    + split; [lia|reflexivity].
    + split; [discriminate|lia].
Qed.

Lemma SFeqb_key x y :
  is_finite x = true -> is_finite y = true ->
  (SFeqb x y = true <-> order_key x = order_key y).
Proof.
  intros Hx Hy. unfold SFeqb.
  destruct x as [sx| | |sx mx ex], y as [sy| | |sy my ey]; try discriminate;
    try destruct sx; try destruct sy; cbn;
    try (split; [reflexivity | reflexivity]);
    try (split; [discriminate | discriminate]).
  - destruct (Z.compare_spec ex ey); cbn.
    + rewrite Pos.compare_cont_spec. cbn. destruct (Pos.compare_spec mx my); cbn;
        (split; [intros; try discriminate; congruence | intros [= ? ?]; try reflexivity; lia]).
    + split; [discriminate|intros [= ? ?]; lia].
    + split; [discriminate|intros [= ? ?]; lia].
  - destruct (Z.compare_spec ex ey); cbn.
    + rewrite Pos.compare_cont_spec. cbn. destruct (Pos.compare_spec mx my); cbn;
        (split; [intros; try discriminate; congruence | intros [= ? ?]; try reflexivity; lia]).
    + split; [discriminate|intros [= ? ?]; lia].
    + split; [discriminate|intros [= ? ?]; lia].
Qed.

Lemma key_le_total a b : key_le a b \/ key_le b a.
Proof. unfold key_le. lia. Qed.

Lemma key_le_trans a b c : key_le a b -> key_le b c -> key_le a c.
Proof. unfold key_le. lia. Qed.

Lemma key_le_antisym a b : key_le a b -> key_le b a -> a = b.
Proof.
  destruct a as [[a1 a2] a3], b as [[b1 b2] b3]. unfold key_le. cbn.
  intros H1 H2. assert (a1 = b1 /\ a2 = b2 /\ a3 = b3) as (-> & -> & ->) by lia. reflexivity.
Qed.

(** ** Minimum and maximum of an array of numbers *)

Lemma np_minimum_spec a b :
  is_finite a = true -> is_finite b = true ->
  (np_minimum a b = a \/ np_minimum a b = b) /\
  key_le (order_key (np_minimum a b)) (order_key a) /\
  key_le (order_key (np_minimum a b)) (order_key b).
Proof.
  intros Ha Hb. unfold np_minimum.
  assert (is_nan a = false) as -> by (destruct a; try discriminate; reflexivity).
  rewrite orb_false_r. pose proof (SFleb_key a b Ha Hb) as Hle.
  destruct (SFleb a b).
  - split; [auto|]. split; [unfold key_le; lia | apply Hle; reflexivity].
  - split; [auto|]. split; [|unfold key_le; lia].
    destruct (key_le_total (order_key a) (order_key b)) as [H|H]; [|exact H].
    apply Hle in H. discriminate.
Qed.

Lemma np_maximum_spec a b :
  is_finite a = true -> is_finite b = true ->
  (np_maximum a b = a \/ np_maximum a b = b) /\
  key_le (order_key a) (order_key (np_maximum a b)) /\
  key_le (order_key b) (order_key (np_maximum a b)).
Proof.
  intros Ha Hb. unfold np_maximum.
  assert (is_nan a = false) as -> by (destruct a; try discriminate; reflexivity).
  rewrite orb_false_r. pose proof (SFleb_key b a Hb Ha) as Hle.
  destruct (SFleb b a).
  - split; [auto|]. split; [unfold key_le; lia | apply Hle; reflexivity].
  - split; [auto|]. split; [|unfold key_le; lia].
    destruct (key_le_total (order_key b) (order_key a)) as [H|H]; [|exact H].
    apply Hle in H. discriminate.
Qed.

Lemma fold_minimum_spec l : forall x0,
  Forall (fun x => is_finite x = true) (x0 :: l) ->
  let m := fold_left np_minimum l x0 in
  m ∈ x0 :: l /\ forall x, x ∈ x0 :: l -> key_le (order_key m) (order_key x).
Proof.
  induction l as [|y l IH]; intros x0 Hfin; cbn.
  - split; [left|]. intros x ->%list_elem_of_singleton. unfold key_le; lia.
  - apply Forall_cons in Hfin as [Hx0 Hfin]. pose proof Hfin as Hfin'.
    apply Forall_cons in Hfin' as [Hy Hl].
    destruct (np_minimum_spec x0 y Hx0 Hy) as (Hor & Hle0 & Hley).
    destruct (IH (np_minimum x0 y)) as [Hin Hmin].
    { apply Forall_cons. split; [destruct Hor as [-> | ->]; assumption | exact Hl]. }
    cbv zeta in Hin, Hmin. split.
    + apply elem_of_cons in Hin as [-> | Hin].
      * destruct Hor as [-> | ->]; [left | right; left].
      * right. right. exact Hin.
    + intros x Hx.
      assert (key_le (order_key (fold_left np_minimum l (np_minimum x0 y)))
                     (order_key (np_minimum x0 y))) as Hstep by (apply Hmin; left).
      apply elem_of_cons in Hx as [-> | Hx]; [eapply key_le_trans; eauto|].
      apply elem_of_cons in Hx as [-> | Hx]; [eapply key_le_trans; eauto|].
      apply Hmin. right. exact Hx.
Qed.

Lemma fold_maximum_spec l : forall x0,
  Forall (fun x => is_finite x = true) (x0 :: l) ->
  let m := fold_left np_maximum l x0 in
  m ∈ x0 :: l /\ forall x, x ∈ x0 :: l -> key_le (order_key x) (order_key m).
Proof.
  induction l as [|y l IH]; intros x0 Hfin; cbn.
  - split; [left|]. intros x ->%list_elem_of_singleton. unfold key_le; lia.
  - apply Forall_cons in Hfin as [Hx0 Hfin]. pose proof Hfin as Hfin'.
    apply Forall_cons in Hfin' as [Hy Hl].
    destruct (np_maximum_spec x0 y Hx0 Hy) as (Hor & Hle0 & Hley).
    destruct (IH (np_maximum x0 y)) as [Hin Hmax].
    { apply Forall_cons. split; [destruct Hor as [-> | ->]; assumption | exact Hl]. }
    cbv zeta in Hin, Hmax. split.
    + apply elem_of_cons in Hin as [-> | Hin].
      * destruct Hor as [-> | ->]; [left | right; left].
      * right. right. exact Hin.
    + intros x Hx.
      assert (key_le (order_key (np_maximum x0 y))
                     (order_key (fold_left np_maximum l (np_maximum x0 y)))) as Hstep
        by (apply Hmax; left).
      apply elem_of_cons in Hx as [-> | Hx]; [eapply key_le_trans; eauto|].
      apply elem_of_cons in Hx as [-> | Hx]; [eapply key_le_trans; eauto|].
      apply Hmax. right. exact Hx.
Qed.

(** The extrema of an array of numbers are entries that bound every
    entry. *)
Lemma extrema_spec (a : ndarray) :
  flat a <> [] ->
  Forall (fun x => is_finite x = true) (flat a) ->
  exists arr_min arr_max,
    amin a = Ok arr_min /\ amax a = Ok arr_max /\
    arr_min ∈ flat a /\ arr_max ∈ flat a /\
    forall x, x ∈ flat a ->
      key_le (order_key arr_min) (order_key x) /\ key_le (order_key x) (order_key arr_max).
Proof.
  intros Hne Hfin. unfold amin, amax.
  destruct (flat a) as [|x0 l]; [contradiction|].
  destruct (fold_minimum_spec l x0 Hfin) as [Hmin_in Hmin].
  destruct (fold_maximum_spec l x0 Hfin) as [Hmax_in Hmax].
  eexists _, _. repeat split; auto.
Qed.

(** ** Digits, shifts and rounding *)

Local Open Scope Z_scope.

Lemma digits2_pos_bounds (p : positive) :
  2 ^ (Zpos (digits2_pos p) - 1) <= Zpos p < 2 ^ Zpos (digits2_pos p).
Proof.
  induction p as [p IH|p IH|]; cbn [digits2_pos].
  - rewrite Pos2Z.inj_succ.
    replace (Z.succ (Zpos (digits2_pos p)) - 1) with (Z.succ (Zpos (digits2_pos p) - 1)) by lia.
    rewrite !Z.pow_succ_r by lia. lia.
  - rewrite Pos2Z.inj_succ.
    replace (Z.succ (Zpos (digits2_pos p)) - 1) with (Z.succ (Zpos (digits2_pos p) - 1)) by lia.
    rewrite !Z.pow_succ_r by lia. lia.
  - cbn. lia.
Qed.

Lemma iter_xO_value (m d : positive) : Zpos (Pos.iter xO m d) = Zpos m * 2 ^ Zpos d.
Proof.
  revert m. induction d as [|d IH] using Pos.peano_ind; intros m.
  - cbn. lia.
  - rewrite Pos.iter_succ, Pos2Z.inj_succ, Z.pow_succ_r by lia.
    rewrite Pos2Z.inj_xO, IH. lia.
Qed.

(** Aligning a significand to a smaller exponent multiplies it by the
    power of two in between. *)
Lemma shl_align_value (m : positive) (e e' : Z) :
  let r := shl_align m e e' in
  r.2 = Z.min e e' /\ Zpos r.1 = Zpos m * 2 ^ (e - r.2).
Proof.
  unfold shl_align. destruct (e' - e) as [|d|d] eqn:E; cbn [fst snd].
  - split; [lia|]. rewrite Z.sub_diag. cbn. lia.
  - split; [lia|]. rewrite Z.sub_diag. cbn. lia.
  - split; [lia|]. rewrite iter_xO_value. f_equal. f_equal. lia.
Qed.

Lemma shr_1_m (mrs : shr_record) :
  0 <= shr_m mrs -> shr_m (shr_1 mrs) = shr_m mrs / 2.
Proof.
  destruct mrs as [m r s]. cbn [shr_m]. intros Hm. unfold shr_1.
  destruct m as [|[p|p|]|p]; cbn; try lia; try reflexivity.
  - apply Z.div_unique with 1; lia.
  - apply Z.div_unique with 0; lia.
Qed.

Lemma shr_iter_m (p : positive) : forall mrs,
  0 <= shr_m mrs ->
  shr_m (SpecFloat.iter_pos shr_1 p mrs) = shr_m mrs / 2 ^ Zpos p.
Proof.
  induction p as [p IH|p IH|]; intros mrs Hm; cbn [SpecFloat.iter_pos].
  - assert (0 <= shr_m (shr_1 mrs)) as H1 by (rewrite shr_1_m by lia; apply Z.div_pos; lia).
    assert (0 <= shr_m (SpecFloat.iter_pos shr_1 p (shr_1 mrs))) as H2
      by (rewrite IH by lia; apply Z.div_pos; lia).
    rewrite IH, IH, shr_1_m by assumption.
    rewrite !Z.div_div by lia. f_equal.
    replace (Zpos p~1) with (1 + Zpos p + Zpos p) by lia.
    rewrite !Z.pow_add_r by lia. change (2 ^ 1) with 2. lia.
  - assert (0 <= shr_m (SpecFloat.iter_pos shr_1 p mrs)) as H2
      by (rewrite IH by lia; apply Z.div_pos; lia).
    rewrite IH, IH by assumption.
    rewrite !Z.div_div by lia. f_equal.
    rewrite <- Z.pow_add_r by lia. f_equal. lia.
  - rewrite shr_1_m by lia. reflexivity.
Qed.

Lemma shr_record_of_loc_m m l : shr_m (shr_record_of_loc m l) = m.
Proof. destruct l as [|[]]; reflexivity. Qed.

Lemma round_nearest_even_ge m l : m <= round_nearest_even m l.
Proof. unfold round_nearest_even. destruct l as [|[]]; try lia. destruct (Z.even m); lia. Qed.

Section Format.
Variable prec emax : Z.
Hypothesis prec_pos : 0 < prec.

Local Abbreviation emin := (SpecFloat.emin prec emax).
Local Abbreviation fexp := (SpecFloat.fexp prec emax).

Lemma fexp_ge_emin e : emin <= fexp e.
Proof. unfold SpecFloat.fexp. lia. Qed.

(** Shifting a positive significand down to its format exponent leaves a
  positive significand, at an exponent that is still in range. *)
Lemma shr_fexp_positive (m e : Z) (l : location) :
0 < m -> emin <= e ->
let r := shr_fexp prec emax m e l in
0 < shr_m r.1 /\ emin <= r.2.
Proof using prec_pos.
intros Hm He. unfold shr_fexp, shr.
destruct m as [|p|p]; try lia. cbn [Zdigits2].
pose proof (digits2_pos_bounds p) as [Hlo Hhi].
destruct (fexp (Zpos (digits2_pos p) + e) - e) as [|n|n] eqn:En; cbn [fst snd];
  rewrite ?shr_record_of_loc_m; try (split; lia).
split.
- rewrite shr_iter_m by (rewrite shr_record_of_loc_m; lia).
  rewrite shr_record_of_loc_m.
  assert (Zpos n = Zpos (digits2_pos p) - prec) as Hn
    by (unfold SpecFloat.fexp in En; lia).
  assert (2 ^ Zpos n <= 2 ^ (Zpos (digits2_pos p) - 1)) by (apply Z.pow_le_mono_r; lia).
  assert (0 < 2 ^ Zpos n) by (apply Z.pow_pos_nonneg; lia).
  apply Z.div_str_pos. lia.
- pose proof (fexp_ge_emin (Zpos (digits2_pos p) + e)). lia.
Qed.

(** Rounding a positive significand at an exponent in range never gives
  a zero. *)
Lemma binary_round_aux_nonzero s (m e : Z) l :
0 < m -> emin <= e ->
is_zero (binary_round_aux prec emax s m e l) = false.
Proof using prec_pos.
intros Hm He. unfold binary_round_aux.
pose proof (shr_fexp_positive m e l Hm He) as H1. cbv zeta in H1.
destruct (shr_fexp prec emax m e l) as [mrs' e']. cbn [fst snd] in H1.
destruct H1 as [Hm' He'].
pose proof (round_nearest_even_ge (shr_m mrs') (loc_of_shr_record mrs')) as Hr.
pose proof (shr_fexp_positive (round_nearest_even (shr_m mrs') (loc_of_shr_record mrs'))
              e' loc_Exact ltac:(lia) He') as H2. cbv zeta in H2.
destruct (shr_fexp prec emax _ e' loc_Exact) as [mrs'' e'']. cbn [fst snd] in H2.
destruct H2 as [Hm'' He''].
destruct (shr_m mrs'') as [|q|q]; try lia.
destruct (e'' <=? emax - prec); reflexivity.
Qed.

Lemma binary_round_nonzero s (m : positive) (e : Z) :
emin <= e -> is_zero (binary_round prec emax s m e) = false.
Proof using prec_pos.
intros He. unfold binary_round.
pose proof (shl_align_value m e (fexp (Zpos (digits2_pos m) + e))) as Hal. cbv zeta in Hal.
destruct (shl_align m e _) as [mz ez]. cbn [fst snd] in Hal. destruct Hal as [Hez _].
apply binary_round_aux_nonzero; [lia|].
pose proof (fexp_ge_emin (Zpos (digits2_pos m) + e)). lia.
Qed.

Lemma binary_normalize_zero (M e : Z) :
emin <= e -> (is_zero (binary_normalize prec emax M e false) = true <-> M = 0).
Proof using prec_pos.
intros He. destruct M as [|p|p]; cbn [binary_normalize].
- split; reflexivity.
- rewrite binary_round_nonzero by exact He. split; [discriminate|lia].
- rewrite binary_round_nonzero by exact He. split; [discriminate|lia].
Qed.
End Format.

Section Subtraction.
Variable prec emax : Z.
Hypothesis prec_pos : 0 < prec.

Local Abbreviation emin := (SpecFloat.emin prec emax).

(** What validity says of a significand and its exponent. *)
Lemma bounded_canonical (m : positive) (e : Z) :
bounded prec emax m e = true ->
emin <= e /\ Zpos (digits2_pos m) <= prec /\
(emin < e -> Zpos (digits2_pos m) = prec).
Proof.
unfold bounded, canonical_mantissa, SpecFloat.fexp.
intros [Hc _]%andb_prop. apply Z.eqb_eq in Hc. lia.
Qed.

(** Two valid numbers aligned to their smaller exponent have the same
  significand only if they are the same number. *)
Lemma aligned_eq (mx my : positive) (ex ey : Z) :
bounded prec emax mx ex = true -> bounded prec emax my ey = true ->
Zpos mx * 2 ^ (ex - Z.min ex ey) = Zpos my * 2 ^ (ey - Z.min ex ey) ->
ex = ey /\ mx = my.
Proof using prec_pos.
intros Hx Hy Heq.
destruct (bounded_canonical mx ex Hx) as (Hex & Hdx & Hnx).
destruct (bounded_canonical my ey Hy) as (Hey & Hdy & Hny).
pose proof (digits2_pos_bounds mx) as [Hxlo Hxhi].
pose proof (digits2_pos_bounds my) as [Hylo Hyhi].
assert (Hmono : forall a b, 0 <= a <= b -> 2 ^ a <= 2 ^ b)
  by (intros; apply Z.pow_le_mono_r; lia).
destruct (Z.lt_trichotomy ex ey) as [Hlt|[->|Hgt]].
- exfalso. rewrite Z.min_l, Z.sub_diag, Z.pow_0_r, Z.mul_1_r in Heq by lia.
  rewrite (Hny ltac:(lia)) in Hylo.
  assert (2 ^ 1 <= 2 ^ (ey - ex)) by (apply Hmono; lia).
  assert (2 ^ Zpos (digits2_pos mx) <= 2 ^ prec) by (apply Hmono; lia).
  assert (2 ^ prec = 2 ^ (prec - 1) * 2 ^ 1) as Hp
    by (rewrite <- Z.pow_add_r by lia; f_equal; lia).
  assert (0 < 2 ^ (prec - 1)) by (apply Z.pow_pos_nonneg; lia).
  change (2 ^ 1) with 2 in *. nia.
- split; [reflexivity|]. rewrite Z.min_id, Z.sub_diag, Z.pow_0_r in Heq. lia.
- exfalso. rewrite Z.min_r, Z.sub_diag, Z.pow_0_r, Z.mul_1_r in Heq by lia.
  rewrite (Hnx ltac:(lia)) in Hxlo.
  assert (2 ^ 1 <= 2 ^ (ex - ey)) by (apply Hmono; lia).
  assert (2 ^ Zpos (digits2_pos my) <= 2 ^ prec) by (apply Hmono; lia).
  assert (2 ^ prec = 2 ^ (prec - 1) * 2 ^ 1) as Hp
    by (rewrite <- Z.pow_add_r by lia; f_equal; lia).
  assert (0 < 2 ^ (prec - 1)) by (apply Z.pow_pos_nonneg; lia).
  change (2 ^ 1) with 2 in *. nia.
Qed.

(** The difference of two valid numbers is a zero exactly when they are
  the same number: a floating-point subtraction does not underflow to
  zero. *)
Lemma SFsub_zero_iff (x y : spec_float) :
is_finite x = true -> is_finite y = true ->
valid_binary prec emax x = true -> valid_binary prec emax y = true ->
(is_zero (SFsub prec emax x y) = true <-> order_key x = order_key y).
Proof using prec_pos.
intros Hfx Hfy Hvx Hvy.
destruct x as [sx| | |sx mx ex], y as [sy| | |sy my ey]; try discriminate.
- destruct sx, sy; cbn; split; reflexivity.
- destruct sy; cbn; split; discriminate.
- destruct sx, sy; cbn; split; discriminate.
- cbn [valid_binary] in Hvx, Hvy. cbn [SFsub].
  destruct (bounded_canonical mx ex Hvx) as (Hex & _).
  destruct (bounded_canonical my ey Hvy) as (Hey & _).
  rewrite binary_normalize_zero by (try exact prec_pos; lia).
  pose proof (shl_align_value mx ex (Z.min ex ey)) as [Hx2 Hx1].
  pose proof (shl_align_value my ey (Z.min ex ey)) as [Hy2 Hy1].
  rewrite Hx1, Hy1, Hx2, Hy2.
  replace (Z.min ex (Z.min ex ey)) with (Z.min ex ey) by lia.
  replace (Z.min ey (Z.min ex ey)) with (Z.min ex ey) by lia.
  assert (0 < Zpos mx * 2 ^ (ex - Z.min ex ey))
    by (apply Z.mul_pos_pos; [lia | apply Z.pow_pos_nonneg; lia]).
  assert (0 < Zpos my * 2 ^ (ey - Z.min ex ey))
    by (apply Z.mul_pos_pos; [lia | apply Z.pow_pos_nonneg; lia]).
  split.
  + intros HM.
    assert (sx = sy) as -> by (destruct sx, sy; cbn in HM; try reflexivity; lia).
    destruct (aligned_eq mx my ex ey Hvx Hvy) as [-> ->];
      [destruct sy; cbn in HM; lia | reflexivity].
  + intros Hk.
    assert (sx = sy /\ ex = ey /\ mx = my) as (-> & -> & ->)
      by (destruct sx, sy; cbn in Hk; injection Hk; intros; repeat split; try lia; congruence).
    lia.
Qed.
End Subtraction.

(** ** The error of one rounding *)

Lemma pow2_pos (k : Z) : 0 <= k -> 0 < 2 ^ k.
Proof. intros. apply Z.pow_pos_nonneg; lia. Qed.

Lemma pow2_le (a b : Z) : 0 <= a <= b -> 2 ^ a <= 2 ^ b.
Proof. intros. apply Z.pow_le_mono_r; lia. Qed.

Lemma pow2_lt (a b : Z) : 0 <= a < b -> 2 ^ a < 2 ^ b.
Proof. intros. apply Z.pow_lt_mono_r; lia. Qed.

Lemma Zdigits2_bounds (m : Z) :
  0 < m -> 0 < Zdigits2 m /\ 2 ^ (Zdigits2 m - 1) <= m < 2 ^ Zdigits2 m.
Proof.
  destruct m as [|p|p]; try lia. intros _. cbn [Zdigits2].
  split; [lia | apply digits2_pos_bounds].
Qed.

Lemma Zdigits2_le (m k : Z) : 0 < m -> 0 <= k -> m < 2 ^ k -> Zdigits2 m <= k.
Proof.
  intros Hm Hk Hlt. destruct (Zdigits2_bounds m Hm) as (Hd & Hlo & _).
  destruct (Z_le_gt_dec (Zdigits2 m) k) as [|Hgt]; [assumption|].
  pose proof (pow2_le k (Zdigits2 m - 1) ltac:(lia)). lia.
Qed.

Lemma Zdigits2_ge (m k : Z) : 0 < m -> 2 ^ (k - 1) <= m -> k <= Zdigits2 m.
Proof.
  intros Hm Hge. destruct (Zdigits2_bounds m Hm) as (Hd & _ & Hhi).
  destruct (Z_le_gt_dec k (Zdigits2 m)) as [|Hgt]; [assumption|].
  pose proof (pow2_le (Zdigits2 m) (k - 1) ltac:(lia)). lia.
Qed.

(** Dropping [k] low bits of a number below [2 ^ a]. *)
Lemma div_pow2_lt (m a k : Z) :
  0 <= m < 2 ^ a -> 0 <= k -> 0 <= a -> m / 2 ^ k < 2 ^ Z.max (a - k) 0.
Proof.
  intros Hm Hk Ha. pose proof (pow2_pos k Hk).
  destruct (Z_le_gt_dec k a).
  - rewrite Z.max_l by lia. apply Z.div_lt_upper_bound; [lia|].
    rewrite <- Z.pow_add_r by lia. replace (k + (a - k)) with a by lia. lia.
  - rewrite Z.max_r by lia. rewrite Z.div_small; [cbn; lia|].
    pose proof (pow2_le a k ltac:(lia)). lia.
Qed.

Lemma div_pow2_ge (m a k : Z) :
  2 ^ a <= m -> 0 <= k <= a -> 2 ^ (a - k) <= m / 2 ^ k.
Proof.
  intros Hm Hk. pose proof (pow2_pos k ltac:(lia)).
  apply Z.div_le_lower_bound; [lia|].
  rewrite <- Z.pow_add_r by lia. replace (k + (a - k)) with a by lia. lia.
Qed.

Section Rounding.
Variable prec emax : Z.
Hypothesis prec_pos : 0 < prec.

Local Abbreviation emin := (SpecFloat.emin prec emax).
Local Abbreviation fexp := (SpecFloat.fexp prec emax).

(** What [shr_fexp] does to the significand and the exponent. *)
Lemma shr_fexp_spec (m e : Z) (l : location) :
  0 <= m ->
  let r := shr_fexp prec emax m e l in
  r.2 = Z.max e (fexp (Zdigits2 m + e)) /\
  shr_m r.1 = m / 2 ^ (r.2 - e).
Proof.
  intros Hm. unfold shr_fexp, shr.
  destruct (fexp (Zdigits2 m + e) - e) as [|n|n] eqn:En; cbn [fst snd].
  - split; [lia|]. rewrite shr_record_of_loc_m, Z.sub_diag. cbn. rewrite Z.div_1_r. reflexivity.
  - split; [lia|]. rewrite shr_iter_m by (rewrite shr_record_of_loc_m; lia).
    rewrite shr_record_of_loc_m. f_equal. f_equal. lia.
  - split; [lia|]. rewrite shr_record_of_loc_m, Z.sub_diag. cbn. rewrite Z.div_1_r. reflexivity.
Qed.

Lemma shr_fexp_exact (m e : Z) :
  fexp (Zdigits2 m + e) <= e ->
  shr_fexp prec emax m e loc_Exact = (shr_record_of_loc m loc_Exact, e).
Proof.
  intros H. unfold shr_fexp, shr.
  destruct (fexp (Zdigits2 m + e) - e) as [|n|n] eqn:En; try reflexivity. lia.
Qed.

Lemma round_nearest_even_cases m l :
  round_nearest_even m l = m \/ round_nearest_even m l = m + 1.
Proof. unfold round_nearest_even. destruct l as [|[]]; auto. destruct (Z.even m); auto. Qed.

Lemma Zdigits2_pow2 (k : Z) : 0 <= k -> Zdigits2 (2 ^ k) = k + 1.
Proof.
  intros Hk. pose proof (pow2_pos k Hk).
  apply Z.le_antisymm.
  - apply Zdigits2_le; [lia|lia|]. apply pow2_lt. lia.
  - apply Zdigits2_ge; [lia|]. replace (k + 1 - 1) with k by lia. lia.
Qed.

(** One rounding.  A positive significand [m] at exponent [e] is first
    cut to the format ([m1] at [e1]), then rounded to [m1] or [m1 + 1];
    the result is that number, finite if its exponent fits. *)
Lemma binary_round_aux_spec (s : bool) (m e : Z) (l : location) :
  0 < m ->
  let e1 := Z.max e (fexp (Zdigits2 m + e)) in
  let m1 := m / 2 ^ (e1 - e) in
  0 < m1 ->
  exists (mf : positive) (ef : Z),
    binary_round_aux prec emax s m e l
    = (if ef <=? emax - prec then S754_finite s mf ef else S754_infinity s) /\
    e1 <= ef /\ emin <= ef /\
    Zpos mf < 2 ^ prec /\
    (Zpos mf * 2 ^ (ef - e1) = m1 \/ Zpos mf * 2 ^ (ef - e1) = m1 + 1) /\
    (l = loc_Exact -> fexp (Zdigits2 m + e) <= e -> ef = e /\ Zpos mf = m) /\
    (2 ^ (prec - 1) <= m1 -> 2 ^ (prec - 1) <= Zpos mf).
Proof using prec_pos.
  intros Hm e1 m1 Hm1. unfold binary_round_aux.
  pose proof (shr_fexp_spec m e l ltac:(lia)) as Hs1. cbv zeta in Hs1.
  pose proof (fexp_ge_emin prec emax (Zdigits2 m + e)) as Hfe.
  destruct (Zdigits2_bounds m Hm) as (Hdpos & Hdlo & Hdhi).
  assert (Hexact1 : l = loc_Exact -> fexp (Zdigits2 m + e) <= e ->
            shr_fexp prec emax m e l = (shr_record_of_loc m loc_Exact, e))
    by (intros -> ?; apply shr_fexp_exact; assumption).
  destruct (shr_fexp prec emax m e l) as [mrs' e'] eqn:E1. cbn [fst snd] in Hs1.
  destruct Hs1 as [He' Hm'].
  fold e1 in He'. rewrite He' in Hm'. fold m1 in Hm'. subst e'.
  assert (He1 : emin <= e1 /\ e <= e1 /\ Zdigits2 m + e - prec <= e1)
    by (unfold e1, SpecFloat.fexp in *; lia).
  assert (Hm1hi : m1 < 2 ^ prec).
  { pose proof (div_pow2_lt m (Zdigits2 m) (e1 - e) ltac:(lia) ltac:(lia) ltac:(lia)) as H.
    fold m1 in H. pose proof (pow2_le (Z.max (Zdigits2 m - (e1 - e)) 0) prec ltac:(lia)). lia. }
  set (m2 := round_nearest_even (shr_m mrs') (loc_of_shr_record mrs')).
  assert (Hm2 : m2 = m1 \/ m2 = m1 + 1)
    by (unfold m2; rewrite Hm'; apply round_nearest_even_cases).
  assert (Hm2pos : 0 < m2) by lia.
  pose proof (shr_fexp_spec m2 e1 loc_Exact ltac:(lia)) as Hs2. cbv zeta in Hs2.
  assert (Hexact2 : fexp (Zdigits2 m2 + e1) <= e1 ->
            shr_fexp prec emax m2 e1 loc_Exact = (shr_record_of_loc m2 loc_Exact, e1))
    by (apply shr_fexp_exact).
  destruct (Zdigits2_bounds m2 Hm2pos) as (Hd2pos & Hd2lo & Hd2hi).
  destruct (Z_lt_le_dec m2 (2 ^ prec)) as [Hsmall|Hcarry].
  - (* no carry *)
    pose proof (Zdigits2_le m2 prec Hm2pos ltac:(lia) Hsmall) as Hd2.
    assert (Hf2 : fexp (Zdigits2 m2 + e1) <= e1) by (unfold SpecFloat.fexp; lia).
    rewrite (Hexact2 Hf2). cbn [shr_m shr_record_of_loc].
    destruct m2 as [|mf|mf] eqn:Em2; try lia.
    exists mf, e1. split; [reflexivity|].
    split; [lia|]. split; [lia|]. split; [lia|].
    rewrite Z.sub_diag, Z.pow_0_r, Z.mul_1_r.
    split; [exact Hm2|]. split.
    + intros Hl Hfexp. specialize (Hexact1 Hl Hfexp). injection Hexact1 as Hmrs He.
      assert (e1 = e) as Hee by lia. split; [exact Hee|].
      rewrite <- Em2. unfold m2. rewrite Hmrs. cbn. reflexivity.
    + lia.
  - (* the rounding carried to the next binade *)
    assert (m2 = 2 ^ prec) as Hm2eq by lia.
    assert (Hd2 : Zdigits2 m2 = prec + 1) by (rewrite Hm2eq; apply Zdigits2_pow2; lia).
    destruct Hs2 as [He3 Hm3].
    destruct (shr_fexp prec emax m2 e1 loc_Exact) as [mrs'' e''] eqn:E2.
    cbn [fst snd] in He3, Hm3.
    assert (e'' = e1 + 1) as He'' by (rewrite He3, Hd2; unfold SpecFloat.fexp; lia).
    rewrite He'' in Hm3. replace (e1 + 1 - e1) with 1 in Hm3 by lia.
    rewrite Hm2eq in Hm3. change (2 ^ 1) with 2 in Hm3.
    assert (2 ^ prec = 2 * 2 ^ (prec - 1)) as Hpow
      by (rewrite <- Z.pow_succ_r by lia; f_equal; lia).
    rewrite Hpow, Z.mul_comm, Z.div_mul in Hm3 by lia.
    pose proof (pow2_pos (prec - 1) ltac:(lia)) as Hpp.
    rewrite Hm3. destruct (2 ^ (prec - 1)) as [|mf|mf] eqn:Emf; try lia.
    exists mf, (e1 + 1). rewrite ?He''. split; [reflexivity|].
    split; [lia|]. split; [lia|]. split; [lia|].
    replace (e1 + 1 - e1) with 1 by lia. change (2 ^ 1) with 2.
    split; [right; lia|]. split; [|lia].
    intros Hl Hfexp. exfalso.
    specialize (Hexact1 Hl Hfexp). injection Hexact1 as Hmrs He.
    assert (e1 = e) as Hee by lia.
    assert (m1 = m) as Hmm by (unfold m1; rewrite Hee, Z.sub_diag, Z.pow_0_r, Z.div_1_r; reflexivity).
    assert (m2 = m) as Hm2m by (unfold m2; rewrite Hmrs; reflexivity).
    lia.
Qed.
End Rounding.

(** ** Multiplying back the quotient [255 / d] *)

Lemma chain_upper (m1 m1p X M c U : Z) :
  0 < m1 -> 0 < m1p -> 0 < c ->
  m1p * U <= (m1p + 1) * M ->
  m1 * (M * c) <= (m1 + 1) * X ->
  m1 * m1p * (U * c) <= (m1p + 1) * (m1 + 1) * X.
Proof.
  intros H1 H2 Hc HU HM.
  assert (m1p * U * c <= (m1p + 1) * M * c) as H3
    by (apply Z.mul_le_mono_nonneg_r; lia).
  assert (m1 * (m1p * U * c) <= m1 * ((m1p + 1) * M * c)) as H4
    by (apply Z.mul_le_mono_nonneg_l; lia).
  assert ((m1p + 1) * (m1 * (M * c)) <= (m1p + 1) * ((m1 + 1) * X)) as H5
    by (apply Z.mul_le_mono_nonneg_l; lia).
  replace (m1 * m1p * (U * c)) with (m1 * (m1p * U * c)) by ring.
  replace ((m1p + 1) * (m1 + 1) * X) with ((m1p + 1) * ((m1 + 1) * X)) by ring.
  replace (m1 * ((m1p + 1) * M * c)) with ((m1p + 1) * (m1 * (M * c))) in H4 by ring.
  lia.
Qed.

Lemma chain_lower (m1 m1p X M c U : Z) :
  0 < m1 -> 0 < m1p -> 0 < c ->
  m1p * M < (m1p + 1) * U ->
  m1 * X < (m1 + 1) * (M * c) ->
  m1p * m1 * X < (m1 + 1) * (m1p + 1) * (U * c).
Proof.
  intros H1 H2 Hc HU HM.
  assert (m1p * M * c < (m1p + 1) * U * c) as H3
    by (apply Z.mul_lt_mono_pos_r; lia).
  assert ((m1 + 1) * (m1p * M * c) < (m1 + 1) * ((m1p + 1) * U * c)) as H4
    by (apply Z.mul_lt_mono_pos_l; lia).
  assert (m1p * (m1 * X) < m1p * ((m1 + 1) * (M * c))) as H5
    by (apply Z.mul_lt_mono_pos_l; lia).
  replace (m1p * m1 * X) with (m1p * (m1 * X)) by ring.
  replace ((m1 + 1) * (m1p + 1) * (U * c)) with ((m1 + 1) * ((m1p + 1) * U * c)) by ring.
  replace (m1p * ((m1 + 1) * (M * c))) with ((m1 + 1) * (m1p * M * c)) in H5 by ring.
  lia.
Qed.


Section RoundTrip.
Variable prec emax : Z.
Hypothesis prec_big : 11 <= prec.
Hypothesis emax_big : 8 <= emax.

Local Abbreviation emin := (SpecFloat.emin prec emax).
Local Abbreviation fexp := (SpecFloat.fexp prec emax).

(** The constant 255 in the format: significand [255 * 2 ^ (prec - 8)]
    at exponent [8 - prec]. *)
Lemma float_255 :
  exists mc : positive,
    binary_normalize prec emax 255 0 false = S754_finite false mc (8 - prec) /\
    Zpos mc = 255 * 2 ^ (prec - 8).
Proof using prec_big emax_big.
  cbn [binary_normalize]. unfold binary_round.
  change (Zpos (digits2_pos 255)) with 8.
  assert (Hf8 : fexp (8 + 0) = 8 - prec) by (unfold SpecFloat.fexp, SpecFloat.emin; lia).
  rewrite Hf8.
  pose proof (shl_align_value 255 0 (8 - prec)) as Hal. cbv zeta in Hal.
  destruct (shl_align 255 0 (8 - prec)) as [mz ez]. cbn [fst snd] in Hal.
  destruct Hal as [Hez Hmz]. rewrite Z.min_r in Hez by lia. subst ez.
  replace (0 - (8 - prec)) with (prec - 8) in Hmz by lia.
  pose proof (pow2_pos (prec - 8) ltac:(lia)) as Hp8.
  assert (Hlo : 2 ^ (prec - 1) <= Zpos mz).
  { replace (prec - 1) with (7 + (prec - 8)) by lia. rewrite Z.pow_add_r by lia.
    change (2 ^ 7) with 128. lia. }
  assert (Hhi : Zpos mz < 2 ^ prec).
  { assert (2 ^ prec = 2 ^ 8 * 2 ^ (prec - 8)) as ->
      by (rewrite <- Z.pow_add_r by lia; f_equal; lia).
    change (2 ^ 8) with 256. lia. }
  assert (Hdig : Zdigits2 (Zpos mz) = prec).
  { apply Z.le_antisymm; [apply Zdigits2_le; lia | apply Zdigits2_ge; lia]. }
  assert (Hfz : fexp (Zdigits2 (Zpos mz) + (8 - prec)) = 8 - prec)
    by (rewrite Hdig; unfold SpecFloat.fexp, SpecFloat.emin; lia).
  destruct (binary_round_aux_spec prec emax ltac:(lia) false (Zpos mz) (8 - prec) loc_Exact
              ltac:(lia)) as (mf & ef & Hres & _ & _ & _ & _ & Hexact & _).
  { rewrite Hfz, Z.max_id, Z.sub_diag, Z.pow_0_r, Z.div_1_r. lia. }
  destruct (Hexact eq_refl ltac:(lia)) as [-> Hmf].
  exists mf. rewrite Hres. destruct (Z.leb_spec (8 - prec) (emax - prec)); [|lia].
  split; [reflexivity | lia].
Qed.

Lemma SFdiv_core_binary_spec (m1 e1 m2 e2 : Z) :
  let e' := Z.min (fexp (Zdigits2 m1 + e1 - (Zdigits2 m2 + e2))) (e1 - e2) in
  exists l, SFdiv_core_binary prec emax m1 e1 m2 e2
            = (m1 * 2 ^ (e1 - e2 - e') / m2, e', l).
Proof.
  intros e'. unfold SFdiv_core_binary. fold e'.
  assert (Hs : 0 <= e1 - e2 - e') by (unfold e'; lia).
  remember (e1 - e2 - e') as sh eqn:Esh.
  assert (Hm' : match sh with
                | Z0 => m1 | Zpos _ => Z.shiftl m1 sh | Zneg _ => 0 end
                = m1 * 2 ^ sh).
  { destruct sh as [|p|p]; try lia. apply Z.shiftl_mul_pow2. lia. }
  rewrite Hm'. unfold Z.div. destruct (Z.div_eucl (m1 * 2 ^ sh) m2) as [q r]. eauto.
Qed.

(** The quotient [255 / d] for a number [d] of the format, when it does
    not overflow: its significand [ms] is normal and is the significand
    [m1] of the exact quotient, cut to the format, or the next one. *)
Lemma quotient_spec (sd : bool) (mc md : positive) (ed : Z) :
  Zpos mc = 255 * 2 ^ (prec - 8) ->
  Zpos md < 2 ^ prec -> ed <= emax - prec ->
  let d2 := Zdigits2 (Zpos md) in
  let L := prec - 8 + d2 in
  let scale := SFdiv prec emax (S754_finite false mc (8 - prec)) (S754_finite sd md ed) in
  is_finite scale = true ->
  exists (ms : positive) (es m1 n a : Z),
    scale = S754_finite sd ms es /\
    0 <= n /\ 0 <= a /\ es = 8 - d2 - ed - prec + n + a /\
    2 ^ (prec - 1) <= m1 /\ 2 ^ (prec - 1) <= Zpos ms < 2 ^ prec /\
    (Zpos ms * 2 ^ a = m1 \/ Zpos ms * 2 ^ a = m1 + 1) /\
    Zpos md * 2 ^ n * m1 <= 255 * 2 ^ L < Zpos md * 2 ^ n * (m1 + 1).
Proof using prec_big emax_big.
  intros Hmc Hmd Hed d2 L scale Hfin.
  destruct (Zdigits2_bounds (Zpos md) ltac:(lia)) as (Hd2pos & Hd2lo & Hd2hi). fold d2 in Hd2pos, Hd2lo, Hd2hi.
  assert (Hd2le : d2 <= prec) by (apply Zdigits2_le; lia).
  pose proof (pow2_pos (prec - 8) ltac:(lia)) as Hp8.
  assert (Hmclo : 2 ^ (prec - 1) <= Zpos mc).
  { replace (prec - 1) with (7 + (prec - 8)) by lia. rewrite Z.pow_add_r by lia.
    change (2 ^ 7) with 128. lia. }
  assert (Hmchi : Zpos mc < 2 ^ prec).
  { assert (2 ^ prec = 2 ^ 8 * 2 ^ (prec - 8)) as ->
      by (rewrite <- Z.pow_add_r by lia; f_equal; lia).
    change (2 ^ 8) with 256. lia. }
  assert (Hd1 : Zdigits2 (Zpos mc) = prec)
    by (apply Z.le_antisymm; [apply Zdigits2_le; lia | apply Zdigits2_ge; lia]).
  unfold scale in *. cbn [SFdiv] in *.
  destruct (SFdiv_core_binary_spec (Zpos mc) (8 - prec) (Zpos md) ed) as [l Hcore].
  cbv zeta in Hcore. rewrite Hd1 in Hcore. fold d2 in Hcore.
  assert (He' : Z.min (fexp (prec + (8 - prec) - (d2 + ed))) (8 - prec - ed)
                = 8 - d2 - ed - prec)
    by (unfold SpecFloat.fexp, SpecFloat.emin; lia).
  rewrite He' in Hcore.
  replace (8 - prec - ed - (8 - d2 - ed - prec)) with d2 in Hcore by lia.
  rewrite Hcore in *. clear Hcore.
  set (X := Zpos mc * 2 ^ d2) in *.
  set (q := X / Zpos md) in *.
  set (e' := 8 - d2 - ed - prec) in *.
  pose proof (pow2_pos d2 ltac:(lia)) as Hpd2.
  assert (HX : X = 255 * 2 ^ L).
  { unfold X, L. rewrite Hmc, Z.pow_add_r by lia. lia. }
  assert (Hq : q * Zpos md <= X < (q + 1) * Zpos md).
  { unfold q. pose proof (Z.mul_div_le X (Zpos md) ltac:(lia)).
    pose proof (Z.mul_succ_div_gt X (Zpos md) ltac:(lia)). lia. }
  assert (Hqlo : 2 ^ (prec - 1) <= q).
  { unfold q. apply Z.div_le_lower_bound; [lia|]. unfold X. nia. }
  assert (Hqpos : 0 < q) by (pose proof (pow2_pos (prec - 1) ltac:(lia)); lia).
  assert (Hdq : prec <= Zdigits2 q) by (apply Zdigits2_ge; lia).
  destruct (Zdigits2_bounds q Hqpos) as (_ & Hdqlo & Hdqhi).
  assert (Hfq : fexp (Zdigits2 q + e') = Zdigits2 q + e' - prec)
    by (unfold SpecFloat.fexp, SpecFloat.emin, e'; lia).
  set (n := Zdigits2 q - prec).
  assert (He1 : Z.max e' (fexp (Zdigits2 q + e')) = e' + n) by (rewrite Hfq; unfold n; lia).
  assert (Hm1lo : 2 ^ (prec - 1) <= q / 2 ^ n).
  { replace (prec - 1) with (Zdigits2 q - 1 - n) by (unfold n; lia).
    apply div_pow2_ge; [exact Hdqlo | unfold n; lia]. }
  destruct (binary_round_aux_spec prec emax ltac:(lia) (xorb false sd) q e' l Hqpos)
    as (ms & es & Hres & Hes1 & _ & Hmshi & Hcases & _ & Hnormal).
  { rewrite He1. replace (e' + n - e') with n by lia.
    pose proof (pow2_pos (prec - 1) ltac:(lia)). lia. }
  rewrite He1 in Hes1, Hcases, Hnormal.
  replace (e' + n - e') with n in Hcases, Hnormal by lia.
  rewrite Hres in Hfin |- *. cbn [xorb] in *.
  destruct (es <=? emax - prec); [|discriminate Hfin].
  exists ms, es, (q / 2 ^ n), n, (es - (e' + n)).
  split; [reflexivity|]. split; [unfold n; lia|]. split; [lia|].
  split; [unfold e'; lia|]. split; [exact Hm1lo|].
  split; [split; [apply Hnormal, Hm1lo | exact Hmshi]|].
  split; [exact Hcases|].
  rewrite <- HX. pose proof (pow2_pos n ltac:(unfold n; lia)) as Hpn.
  pose proof (Z.mul_div_le q (2 ^ n) Hpn) as Hlo.
  pose proof (Z.mul_succ_div_gt q (2 ^ n) Hpn) as Hhi.
  set (m1 := q / 2 ^ n) in *. nia.
Qed.

(** Two factors within one part in 1024 of 1 keep 255 between 254 and
    256: the arithmetic of the two rounding errors. *)
Lemma two_roundings_upper (m1 m1p X T : Z) :
  1024 <= m1 -> 1024 <= m1p -> 0 < X ->
  m1 * m1p * T <= (m1p + 1) * (m1 + 1) * X ->
  255 * T < 256 * X.
Proof.
  intros H1 H2 HX HT.
  assert (255 * ((m1p + 1) * (m1 + 1)) < 256 * (m1 * m1p)) as Hk by nia.
  assert (0 < m1 * m1p) as Hpos by nia.
  destruct (Z_lt_le_dec (255 * T) (256 * X)) as [|Hge]; [assumption|exfalso].
  assert (256 * X * (m1 * m1p) <= 255 * T * (m1 * m1p)) by nia.
  assert (255 * ((m1p + 1) * (m1 + 1)) * X < 256 * (m1 * m1p) * X) by nia.
  nia.
Qed.

Lemma two_roundings_lower (m1 m1p X T : Z) :
  1024 <= m1 -> 1024 <= m1p -> 0 < X ->
  m1p * m1 * X < (m1 + 1) * (m1p + 1) * T ->
  254 * X <= 255 * T.
Proof.
  intros H1 H2 HX HT.
  assert (254 * ((m1p + 1) * (m1 + 1)) <= 255 * (m1 * m1p)) as Hk by nia.
  assert (0 < (m1 + 1) * (m1p + 1)) as Hpos by nia.
  destruct (Z_le_gt_dec (254 * X) (255 * T)) as [|Hlt]; [assumption|exfalso].
  assert (255 * T * ((m1 + 1) * (m1p + 1)) < 254 * X * ((m1 + 1) * (m1p + 1))) by nia.
  assert (254 * ((m1p + 1) * (m1 + 1)) * X <= 255 * (m1 * m1p) * X) by nia.
  nia.
Qed.

(** The product of a number [d] of the format with the quotient
    [255 / d], when the quotient does not overflow, has integer part 254
    or 255. *)
Lemma roundtrip_255 (sd : bool) (md : positive) (ed : Z) :
  Zpos md < 2 ^ prec -> ed <= emax - prec ->
  let d := S754_finite sd md ed in
  let scale := SFdiv prec emax (binary_normalize prec emax 255 0 false) d in
  is_finite scale = true ->
  trunc (SFmul prec emax d scale) = Some 254 \/
  trunc (SFmul prec emax d scale) = Some 255.
Proof using prec_big emax_big.
  intros Hmd Hed d scale Hfin. unfold scale, d in *.
  destruct float_255 as (mc & Hc & Hmc). rewrite Hc in *.
  destruct (quotient_spec sd mc md ed Hmc Hmd Hed Hfin)
    as (ms & es & m1 & n & a & Hscale & Hn & Ha & Hes & Hm1 & [Hmslo Hmshi] & Hδ & Hlo & Hhi).
  rewrite Hscale. cbn [SFmul]. replace (xorb sd sd) with false by (destruct sd; reflexivity).
  rewrite Pos2Z.inj_mul.
  set (d2 := Zdigits2 (Zpos md)) in *. set (L := prec - 8 + d2) in *.
  destruct (Zdigits2_bounds (Zpos md) ltac:(lia)) as (Hd2pos & _). fold d2 in Hd2pos.
  set (M := Zpos md * Zpos ms). set (E := ed + es).
  pose proof (pow2_pos (prec - 1) ltac:(lia)) as Hpp.
  assert (H1024 : 1024 <= 2 ^ (prec - 1)).
  { change 1024 with (2 ^ 10). apply pow2_le. lia. }
  pose proof (pow2_pos n Hn) as HN. pose proof (pow2_pos a Ha) as HA.
  pose proof (pow2_pos L ltac:(unfold L; lia)) as HL.
  set (X := 255 * 2 ^ L) in *. set (Y := Zpos md * 2 ^ n) in *.
  assert (HY : 0 < Y) by (unfold Y; nia).
  assert (HMpos : 0 < M) by (unfold M; lia).
  assert (HMlo : 2 ^ (prec - 1) <= M) by (unfold M; nia).
  assert (HdM : prec <= Zdigits2 M) by (apply Zdigits2_ge; lia).
  destruct (Zdigits2_bounds M HMpos) as (_ & HdMlo & HdMhi).
  (* the product times 2^(a+n) is Y * (m1 + delta) *)
  assert (HMY : M * (2 ^ a * 2 ^ n) = Y * m1 \/ M * (2 ^ a * 2 ^ n) = Y * (m1 + 1))
    by (unfold M, Y; destruct Hδ as [Hd|Hd]; [left|right]; rewrite <- Hd; ring).
  (* the magnitude of the product: at least 2^7 *)
  assert (HdME : 7 <= Zdigits2 M + E).
  { assert (2 ^ (L + 6) < M * (2 ^ a * 2 ^ n)) as Hbig.
    { assert (2 ^ (L + 6) = 64 * 2 ^ L) as -> by (rewrite Z.pow_add_r by (unfold L; lia); lia).
      unfold X in *. nia. }
    assert (M * (2 ^ a * 2 ^ n) < 2 ^ (Zdigits2 M + a + n)) as Hsmall.
    { rewrite !Z.pow_add_r by lia. nia. }
    destruct (Z_le_gt_dec (Zdigits2 M + a + n) (L + 6)) as [Hle|Hgt].
    - pose proof (pow2_le (Zdigits2 M + a + n) (L + 6) ltac:(lia)). lia.
    - unfold E. lia. }
  assert (HfM : fexp (Zdigits2 M + E) = Zdigits2 M + E - prec)
    by (unfold SpecFloat.fexp, SpecFloat.emin; lia).
  set (np := Zdigits2 M - prec).
  assert (He1p : Z.max E (fexp (Zdigits2 M + E)) = E + np) by (rewrite HfM; unfold np; lia).
  assert (Hm1plo : 2 ^ (prec - 1) <= M / 2 ^ np).
  { replace (prec - 1) with (Zdigits2 M - 1 - np) by (unfold np; lia).
    apply div_pow2_ge; [exact HdMlo | unfold np; lia]. }
  destruct (binary_round_aux_spec prec emax ltac:(lia) false M E loc_Exact HMpos)
    as (mp & ep & Hres & Hep1 & _ & Hmphi & Hδp & _ & Hnormal).
  { rewrite He1p. replace (E + np - E) with np by lia. lia. }
  rewrite He1p in Hep1, Hδp, Hnormal. replace (E + np - E) with np in Hδp, Hnormal by lia.
  set (m1p := M / 2 ^ np) in *. set (b := ep - (E + np)) in *.
  specialize (Hnormal Hm1plo).
  assert (Hnp : 0 <= np) by (unfold np; lia).
  pose proof (pow2_pos np Hnp) as HP. pose proof (pow2_pos b ltac:(unfold b; lia)) as HB.
  pose proof (Z.mul_div_le M (2 ^ np) HP) as HMlo'. fold m1p in HMlo'.
  pose proof (Z.mul_succ_div_gt M (2 ^ np) HP) as HMhi'. fold m1p in HMhi'.
  (* the result, scaled to an integer *)
  set (K := n + a + np + b).
  set (T := Zpos mp * 2 ^ K).
  assert (HT : T = Zpos mp * 2 ^ b * 2 ^ np * (2 ^ a * 2 ^ n)).
  { unfold T, K. rewrite !Z.pow_add_r by (unfold b; lia). ring. }
  assert (Hpan : 0 < 2 ^ a * 2 ^ n) by (apply Z.mul_pos_pos; assumption).
  assert (Hup : m1 * m1p * T <= (m1p + 1) * (m1 + 1) * X).
  { rewrite HT. apply (chain_upper m1 m1p X M); try lia.
    - clear - Hδp HMlo' HP HB Hm1plo Hpp. destruct Hδp as [-> | ->]; nia.
    - clear - HMY Hlo HY Hm1 Hpp. destruct HMY as [-> | ->]; nia. }
  assert (Hdown : m1p * m1 * X < (m1 + 1) * (m1p + 1) * T).
  { rewrite HT. apply (chain_lower m1 m1p X M); try lia.
    - clear - Hδp HMhi' HP HB Hm1plo Hpp. destruct Hδp as [-> | ->]; nia.
    - clear - HMY Hhi HY Hm1 Hpp. destruct HMY as [-> | ->]; nia. }
  pose proof (two_roundings_upper m1 m1p X T ltac:(lia) ltac:(lia) ltac:(unfold X; lia) Hup) as HTup.
  pose proof (two_roundings_lower m1 m1p X T ltac:(lia) ltac:(lia) ltac:(unfold X; lia) Hdown) as HTlo.
  assert (HTL : 254 * 2 ^ L <= T < 256 * 2 ^ L) by (unfold X in *; lia).
  (* the exponent of the result *)
  assert (HK0 : 0 <= K) by (unfold K, b; lia).
  pose proof (pow2_pos K HK0) as HPK.
  assert (HKL : K + prec <= L + 8).
  { destruct (Z_le_gt_dec (K + prec) (L + 8)) as [|Hgt]; [assumption|exfalso].
    assert (2 ^ (L + 8) <= 2 ^ (prec - 1 + K)) by (apply pow2_le; unfold L; lia).
    assert (2 ^ (L + 8) = 256 * 2 ^ L) by (rewrite Z.pow_add_r by (unfold L; lia); lia).
    assert (2 ^ (prec - 1 + K) = 2 ^ (prec - 1) * 2 ^ K) by (rewrite Z.pow_add_r by lia; lia).
    assert (2 ^ (prec - 1) * 2 ^ K <= Zpos mp * 2 ^ K)
      by (apply Z.mul_le_mono_nonneg_r; lia).
    unfold T in HTL. lia. }
  assert (Hep : ep = K - L) by (unfold K, b, E, L; lia).
  rewrite Hres. destruct (Z.leb_spec ep (emax - prec)); [|lia].
  assert (HLK : 2 ^ L = 2 ^ (L - K) * 2 ^ K)
    by (rewrite <- Z.pow_add_r by lia; f_equal; lia).
  pose proof (pow2_pos (L - K) ltac:(lia)) as HPLK.
  assert (Hmp : 254 * 2 ^ (L - K) <= Zpos mp < 256 * 2 ^ (L - K)).
  { unfold T in HTL. rewrite HLK in HTL. split.
    - apply (Z.mul_le_mono_pos_r _ _ (2 ^ K)); lia.
    - apply (Z.mul_lt_mono_pos_r (2 ^ K)); lia. }
  assert (Htr : trunc (S754_finite false mp ep) = Some (Zpos mp / 2 ^ (L - K))).
  { unfold trunc. destruct ep as [|pe|pe] eqn:Eep; try lia.
    rewrite Z.shiftr_div_pow2 by lia. do 3 f_equal. lia. }
  rewrite Htr.
  assert (254 <= Zpos mp / 2 ^ (L - K) < 256) as Hq.
  { split; [apply Z.div_le_lower_bound; lia | apply Z.div_lt_upper_bound; lia]. }
  assert (Zpos mp / 2 ^ (L - K) = 254 \/ Zpos mp / 2 ^ (L - K) = 255) as [-> | ->] by lia; auto.
Qed.
End RoundTrip.

Section Difference.
Variable prec emax : Z.
Hypothesis prec_pos : 0 < prec.

Local Abbreviation emin := (SpecFloat.emin prec emax).
Local Abbreviation fexp := (SpecFloat.fexp prec emax).

(** A finite difference of two numbers of the format has a significand
    and an exponent within the format's bounds. *)
Lemma SFsub_bounded (x y : spec_float) (s : bool) (m : positive) (e : Z) :
  is_finite x = true -> is_finite y = true ->
  valid_binary prec emax x = true -> valid_binary prec emax y = true ->
  SFsub prec emax x y = S754_finite s m e ->
  Zpos m < 2 ^ prec /\ e <= emax - prec.
Proof using prec_pos.
  assert (Hval : forall m' e', bounded prec emax m' e' = true ->
                   Zpos m' < 2 ^ prec /\ e' <= emax - prec).
  { intros m' e' Hb. destruct (bounded_canonical prec emax m' e' Hb) as (_ & Hd & _).
    unfold bounded in Hb. apply andb_prop in Hb as [_ He]. apply Z.leb_le in He.
    split; [|exact He]. pose proof (digits2_pos_bounds m') as [_ Hhi].
    pose proof (pow2_le (Zpos (digits2_pos m')) prec ltac:(lia)). lia. }
  intros Hfx Hfy Hvx Hvy Hsub.
  destruct x as [sx| | |sx mx ex], y as [sy| | |sy my ey]; try discriminate.
  - destruct sx, sy; discriminate.
  - cbn in Hsub. injection Hsub as <- <- <-. apply Hval, Hvy.
  - cbn in Hsub. injection Hsub as <- <- <-. apply Hval, Hvx.
  - cbn [SFsub] in Hsub. cbn [valid_binary] in Hvx, Hvy.
    destruct (bounded_canonical prec emax mx ex Hvx) as (Hex & _).
    destruct (bounded_canonical prec emax my ey Hvy) as (Hey & _).
    set (M := (cond_Zopp sx (Zpos (shl_align mx ex (Z.min ex ey)).1)
               - cond_Zopp sy (Zpos (shl_align my ey (Z.min ex ey)).1))) in *.
    assert (Hround : forall sg p, binary_round prec emax sg p (Z.min ex ey) = S754_finite s m e ->
                       Zpos m < 2 ^ prec /\ e <= emax - prec).
    { intros sg p Hr. unfold binary_round in Hr.
      pose proof (shl_align_value p (Z.min ex ey)
                    (fexp (Zpos (digits2_pos p) + Z.min ex ey))) as Hal. cbv zeta in Hal.
      destruct (shl_align p (Z.min ex ey) _) as [mz ez]. cbn [fst snd] in Hal.
      destruct Hal as [Hez _].
      pose proof (fexp_ge_emin prec emax (Zpos (digits2_pos p) + Z.min ex ey)) as Hfe.
      assert (Hezmin : emin <= ez) by lia.
      pose proof (shr_fexp_positive prec emax prec_pos (Zpos mz) ez loc_Exact ltac:(lia) Hezmin) as Hpos.
      pose proof (shr_fexp_spec prec emax (Zpos mz) ez loc_Exact ltac:(lia)) as Hspec.
      cbv zeta in Hpos, Hspec. destruct Hspec as [He1 Hm1]. rewrite He1 in Hm1.
      destruct (binary_round_aux_spec prec emax prec_pos sg (Zpos mz) ez loc_Exact ltac:(lia))
        as (mf & ef & Hres & _ & _ & Hmf & _).
      { rewrite <- Hm1. apply Hpos. }
      rewrite Hres in Hr. destruct (Z.leb_spec ef (emax - prec)); [|discriminate].
      injection Hr as <- <- <-. split; assumption. }
    destruct M as [|p|p]; cbn [binary_normalize] in Hsub; [discriminate|eauto..].
Qed.

(** Numbers with the same value have the same difference with a third
    number, unless that difference is a zero. *)
Lemma SFsub_same_value (x y z : spec_float) :
  is_finite x = true -> is_finite y = true -> is_finite z = true ->
  order_key x = order_key y ->
  is_zero (SFsub prec emax y z) = false ->
  SFsub prec emax x z = SFsub prec emax y z.
Proof.
  intros Hx Hy Hz Hk Hnz.
  destruct x as [sx| | |sx mx ex], y as [sy| | |sy my ey]; try discriminate.
  - destruct z as [sz| | |sz mz ez]; try discriminate; [|reflexivity].
    destruct sy, sz; discriminate.
  - destruct sy; discriminate.
  - destruct sx; discriminate.
  - assert (sx = sy /\ ex = ey /\ mx = my) as (-> & -> & ->)
      by (destruct sx, sy; cbn in Hk; injection Hk; intros; repeat split; try lia; congruence).
    reflexivity.
Qed.
End Difference.

Local Close Scope Z_scope.

(** ** The divisor of the min-max quantizers *)

(** An array of numbers of its dtype: no NaN, no infinity, and every entry
    representable in the dtype. *)
Definition numeric (a : ndarray) : Prop :=
  Forall (fun x => is_finite x = true /\ valid_float (dtype a) x = true) (flat a).

Lemma numeric_finite a : numeric a -> Forall (fun x => is_finite x = true) (flat a).
Proof. intros H. eapply Forall_impl; [exact H|]. cbv beta. tauto. Qed.

Lemma division_by_zero t num d :
  is_zero d = true -> is_finite (fdiv t num d) = false.
Proof.
  destruct d as [sd| | |]; try discriminate. intros _.
  destruct num as [s|s| |s m e]; reflexivity.
Qed.

Lemma zero_times_not_finite t z scale :
  is_zero z = true -> is_finite scale = false -> fmul t z scale = S754_nan.
Proof.
  destruct z as [sz| | |]; try discriminate. intros _.
  destruct scale as [s|s| |s m e]; try discriminate; reflexivity.
Qed.

Lemma zero_times_finite t z scale :
  is_zero z = true -> is_finite scale = true -> is_zero (fmul t z scale) = true.
Proof.
  destruct z as [sz| | |]; try discriminate. intros _.
  destruct scale as [s|s| |s m e]; try discriminate; reflexivity.
Qed.

Lemma trunc_zero z : is_zero z = true -> trunc z = Some 0%Z.
Proof. destruct z; try discriminate. reflexivity. Qed.

Section Divisor.
Variable cast_undef : spec_float -> Z.

Lemma quantize_to_uint_run arr n_bits arr_min arr_max num :
amin arr = Ok arr_min -> amax arr = Ok arr_max ->
levels (dtype arr) n_bits = Ok num -> (8 <= n_bits)%Z ->
quantize_to_uint cast_undef arr n_bits
= Ok (map (map (fun x => astype_uint cast_undef (if (n_bits =? 8)%Z then 8 else 16)
                           (rescale (dtype arr) arr_min
                              (fdiv (dtype arr) num (fsub (dtype arr) arr_max arr_min)) x)))
          (rows arr)).
Proof.
intros Hmin Hmax Hnum Hb. unfold quantize_to_uint. rewrite Hmin, Hmax.
cbn [mbind result_bind]. rewrite Hnum. cbn [mbind result_bind].
destruct (Z.eqb_spec n_bits 8) as [->|Hne8].
- change (8 <=? 8)%Z with true. cbv iota. rewrite uint_name_8. cbn. rewrite map_map.
  f_equal. apply map_ext. intros r. rewrite map_map. reflexivity.
- destruct (Z.leb_spec n_bits 8); [lia|]. rewrite uint_name_16. cbn. rewrite map_map.
  f_equal. apply map_ext. intros r. rewrite map_map. reflexivity.
Qed.

(** C9.  On an array of numbers, each of the three quantizers divides
  by [arr_max - arr_min], with no test of the divisor.  If two entries
  differ in value the divisor is not a zero.  If all entries have one
  value the divisor is a zero, the quotient is no number, and every
  rescaled entry is a NaN: what is stored is then left to the
  platform's cast. *)
Theorem minmax_divisor_zero_iff_constant (arr : ndarray) :
(0 < prec (dtype arr))%Z ->
flat arr <> [] ->
numeric arr ->
exists arr_min arr_max,
  amin arr = Ok arr_min /\ amax arr = Ok arr_max /\
  let t := dtype arr in
  let d := fsub t arr_max arr_min in
  (exists q, quantize_to_uint8 cast_undef arr
             = Ok (q, arr_min, arr_max, fdiv t (float_of_int t 255) d)) /\
  (forall n_bits, (8 <= n_bits < 1024)%Z ->
     exists num,
       levels t n_bits = Ok num /\
       quantize_to_uint cast_undef arr n_bits
       = Ok (map (map (fun x => astype_uint cast_undef (if (n_bits =? 8)%Z then 8 else 16)
                                  (rescale t arr_min (fdiv t num d) x))) (rows arr)) /\
       quantize_similarities cast_undef arr n_bits
       = Ok (map (fun x => astype_uint cast_undef 8 (rescale t arr_min (fdiv t num d) x))
                 (flat arr),
             fdiv t num d, arr_min)) /\
  ((exists x y, x ∈ flat arr /\ y ∈ flat arr /\ SFeqb x y = false) ->
   is_zero d = false) /\
  ((forall x y, x ∈ flat arr -> y ∈ flat arr -> SFeqb x y = true) ->
   is_zero d = true /\
   forall num x, x ∈ flat arr ->
     is_finite (fdiv t num d) = false /\
     rescale t arr_min (fdiv t num d) x = S754_nan).
Proof.
intros Hprec Hne Hnum.
destruct (extrema_spec arr Hne (numeric_finite _ Hnum))
  as (mn & mx & Hmin & Hmax & Hmn_in & Hmx_in & Hbounds).
exists mn, mx. split; [exact Hmin|]. split; [exact Hmax|]. cbv zeta.
unfold numeric in Hnum. rewrite Forall_forall in Hnum.
destruct (Hnum _ Hmn_in) as [Hmn_fin Hmn_valid].
destruct (Hnum _ Hmx_in) as [Hmx_fin Hmx_valid].
assert (Hzero : forall x, x ∈ flat arr ->
          (is_zero (fsub (dtype arr) x mn) = true <-> order_key x = order_key mn)).
{ intros x Hx. destruct (Hnum _ Hx) as [Hx_fin Hx_valid].
  apply SFsub_zero_iff; assumption. }
split; [|split; [|split]].
- unfold quantize_to_uint8. rewrite Hmin, Hmax. cbn. eauto.
- intros n_bits Hb. destruct (levels_small (dtype arr) n_bits) as [num Hlv]; [lia|].
  exists num. split; [exact Hlv|]. split.
  + apply quantize_to_uint_run; auto; lia.
  + unfold quantize_similarities. rewrite Hmin, Hmax. cbn [mbind result_bind].
    rewrite Hlv. reflexivity.
- intros (x & y & Hx & Hy & Hxy).
  destruct (is_zero (fsub (dtype arr) mx mn)) eqn:Hd; [|reflexivity].
  exfalso. apply (Hzero mx Hmx_in) in Hd.
  assert (Hall : forall z, z ∈ flat arr -> order_key z = order_key mn).
  { intros z Hz. destruct (Hbounds z Hz) as [Hlo Hhi]. rewrite Hd in Hhi.
    apply key_le_antisym; assumption. }
  destruct (Hnum _ Hx) as [Hx_fin _]. destruct (Hnum _ Hy) as [Hy_fin _].
  assert (SFeqb x y = true) as Heq
    by (apply SFeqb_key; [assumption..|]; rewrite (Hall x Hx), (Hall y Hy); reflexivity).
  congruence.
- intros Hall.
  assert (Hd : is_zero (fsub (dtype arr) mx mn) = true).
  { apply (Hzero mx Hmx_in). apply SFeqb_key; auto. }
  split; [exact Hd|]. intros num x Hx.
  pose proof (division_by_zero (dtype arr) num _ Hd) as Hinf.
  split; [exact Hinf|]. unfold rescale.
  apply zero_times_not_finite; [|exact Hinf].
  apply (Hzero x Hx). destruct (Hnum _ Hx) as [Hx_fin _].
  apply SFeqb_key; auto.
Qed.
End Divisor.

Section Uint8.
Variable cast_undef : spec_float -> Z.

Lemma SFltb_keys_differ x y : SFltb x y = true -> SFeqb x y = false.
Proof. unfold SFltb, SFeqb. destruct (SFcompare x y) as [[]|]; congruence. Qed.

(** C1, as the code has it.  On an array of numbers whose maximum
  exceeds its minimum, [quantize_to_uint8] returns the quantized
  array with [arr_min], [arr_max] and [scale = 255.0 / (arr_max -
  arr_min)], the divisor not being a zero; every quantized value lies
  in 0..255; when [scale] is finite, every entry equal to [arr_min] is
  mapped to 0; and, in a format of at least 11 significand bits with
  infinities at [2 ^ 8] or above (float16, float32, float64), when
  neither the difference nor [scale] overflows, every entry equal to
  [arr_max] is mapped to 254 or to 255. *)
Theorem quantize_to_uint8_range_min_max (arr : ndarray) (arr_min arr_max : spec_float) :
(0 < prec (dtype arr))%Z ->
numeric arr ->
amin arr = Ok arr_min ->
amax arr = Ok arr_max ->
SFltb arr_min arr_max = true ->
let t := dtype arr in
let scale := fdiv t (float_of_int t 255) (fsub t arr_max arr_min) in
let quantize x := astype_uint cast_undef 8 (rescale t arr_min scale x) in
quantize_to_uint8 cast_undef arr
= Ok (map (map quantize) (rows arr), arr_min, arr_max, scale) /\
is_zero (fsub t arr_max arr_min) = false /\
(forall x, (0 <= quantize x <= 255)%Z) /\
(is_finite scale = true ->
 forall x, x ∈ flat arr -> SFeqb x arr_min = true -> quantize x = 0%Z) /\
((11 <= prec t)%Z -> (8 <= emax t)%Z ->
 is_finite (fsub t arr_max arr_min) = true -> is_finite scale = true ->
 forall x, x ∈ flat arr -> SFeqb x arr_max = true ->
           quantize x = 254%Z \/ quantize x = 255%Z).
Proof.
intros Hprec Hnum Hmin Hmax Hlt. cbv zeta.
assert (Hne : flat arr <> []) by (intros E; unfold amin in Hmin; rewrite E in Hmin; discriminate).
destruct (extrema_spec arr Hne (numeric_finite _ Hnum))
  as (mn & mx & Hmin' & Hmax' & Hmn_in & Hmx_in & _).
rewrite Hmin in Hmin'. rewrite Hmax in Hmax'.
injection Hmin' as <-. injection Hmax' as <-.
unfold numeric in Hnum. rewrite Forall_forall in Hnum.
destruct (Hnum _ Hmn_in) as [Hmn_fin Hmn_valid].
destruct (Hnum _ Hmx_in) as [Hmx_fin Hmx_valid].
assert (Hdnz : is_zero (fsub (dtype arr) arr_max arr_min) = false).
{ destruct (is_zero (fsub (dtype arr) arr_max arr_min)) eqn:Hd; [|reflexivity].
  apply SFsub_zero_iff in Hd; try assumption.
  apply SFltb_keys_differ in Hlt.
  assert (SFeqb arr_min arr_max = true) by (apply SFeqb_key; [assumption..|]; congruence).
  congruence. }
split; [|split; [|split; [|split]]].
- unfold quantize_to_uint8. rewrite Hmin, Hmax. reflexivity.
- exact Hdnz.
- intros x. pose proof (astype_uint_range cast_undef 8 (rescale (dtype arr) arr_min
    (fdiv (dtype arr) (float_of_int (dtype arr) 255) (fsub (dtype arr) arr_max arr_min)) x)
    ltac:(lia)) as H. change (2 ^ 8)%Z with 256%Z in H. lia.
- intros Hscale x Hx Heq. destruct (Hnum _ Hx) as [Hx_fin Hx_valid].
  unfold astype_uint, rescale.
  rewrite trunc_zero; [reflexivity|].
  apply zero_times_finite; [|exact Hscale].
  apply SFsub_zero_iff; try assumption. apply SFeqb_key; assumption.
- intros Hp11 He8 Hdfin Hscale x Hx Heq. destruct (Hnum _ Hx) as [Hx_fin Hx_valid].
  unfold astype_uint, rescale.
  assert (Hsame : fsub (dtype arr) x arr_min = fsub (dtype arr) arr_max arr_min).
  { apply SFsub_same_value; try assumption. apply SFeqb_key; assumption. }
  rewrite Hsame.
  destruct (fsub (dtype arr) arr_max arr_min) as [sd| | |sd md ed] eqn:Ed; try discriminate.
  destruct (SFsub_bounded _ _ Hprec _ _ _ _ _ Hmx_fin Hmn_fin Hmx_valid Hmn_valid Ed)
    as [Hmd Hed].
  destruct (roundtrip_255 _ _ Hp11 He8 sd md ed Hmd Hed Hscale) as [Htr|Htr];
    unfold fmul, fdiv, float_of_int; rewrite Htr; [left|right]; reflexivity.
Qed.
End Uint8.

(** C1 as stated fails: in the float64 array [[0.0, 25.0]] the maximum
    exceeds the minimum, and the entry equal to the maximum is mapped to
    254: the quotient 255.0 / 25.0 rounds to a float below 10.2, and its
    product with 25.0 to a float below 255. *)
Lemma quantize_to_uint8_max_to_254 :
  let zero := float_of_int float64 0 in
  let top := float_of_int float64 25 in
  let arr := {| dtype := float64; rows := [[zero; top]] |} in
  amin arr = Ok zero /\ amax arr = Ok top /\ SFltb zero top = true /\
  forall cast_undef, exists scale,
    quantize_to_uint8 cast_undef arr = Ok ([[0%Z; 254%Z]], zero, top, scale).
Proof.
  cbv zeta. split; [reflexivity|]. split; [reflexivity|]. split; [reflexivity|].
  intros cast_undef. eexists. vm_compute. reflexivity.
Qed.

(** * Concrete runs

    Small inputs on which the properties above are instantiated: a
    platform whose cast stores 0 for what does not fit, toy corpora, a toy
    model and toy codecs. *)

(** ** The vocabulary: outcomes, order and completeness *)

Lemma insert_by_count_perm {K : Type} (x : K * nat) l : insert_by_count x l ≡ₚ x :: l.
Proof.
  induction l as [|y l IH]; simpl; [reflexivity|].
  destruct (decide (x.2 < y.2)); [|reflexivity].
  rewrite IH. apply Permutation_swap.
Qed.

Lemma most_common_perm {K : Type} (c : list (K * nat)) : most_common c ≡ₚ c.
Proof.
  induction c as [|x c IH]; simpl; [reflexivity|].
  rewrite insert_by_count_perm, IH. reflexivity.
Qed.

Lemma lower_char_is_lower c :
  is_upper c || is_lower c = true -> is_lower (lower_char c) = true.
Proof.
  destruct c as [[] [] [] [] [] [] [] []]; vm_compute; intros H; congruence.
Qed.

Lemma lower_all_lower w :
  all_chars (fun c => is_upper c || is_lower c) w = true ->
  all_chars is_lower (lower w) = true.
Proof.
  induction w as [|c w IH]; simpl; [reflexivity|].
  intros [Hc Hw]%andb_prop. rewrite lower_char_is_lower by exact Hc. simpl. auto.
Qed.

Lemma isalpha_letters w :
  isalpha w = true -> all_chars (fun c => is_upper c || is_lower c) w = true.
Proof. destruct w; [discriminate|]. intros H. exact H. Qed.

Section VocabularyOutcomes.
Variable nltk_download : string -> result unit.
Variable brown_corpus : list string.
Variable words_corpus : list string.

Local Abbreviation fvw := (frequent_valid_words brown_corpus words_corpus).
Local Abbreviation selected :=
  (get_frequency_sorted_words nltk_download brown_corpus words_corpus).

(** The number of entries the slice [frequent_valid_words[:n_words]]
    keeps. *)
Definition kept (len : nat) (n_words : Z) : nat :=
  if (n_words <? 0)%Z then Z.to_nat (Z.of_nat len + n_words)
  else min (Z.to_nat n_words) len.

Lemma py_slice_to_take {A : Type} (l : list A) n : py_slice_to l n = take (kept (length l) n) l.
Proof.
  unfold py_slice_to, kept. destruct (n <? 0)%Z; [reflexivity|].
  destruct (Nat.min_spec (Z.to_nat n) (length l)) as [[Hlt ->]|[Hle ->]]; [reflexivity|].
  rewrite !take_ge by lia. reflexivity.
Qed.

Lemma py_index_out_of_range {A : Type} (l : list A) (i : Z) :
  (i < - Z.of_nat (length l) \/ Z.of_nat (length l) <= i)%Z -> py_index l i = Raise IndexError.
Proof.
  intros Hi. unfold py_index.
  destruct (Z.ltb_spec i 0).
  - destruct (Z.ltb_spec (i + Z.of_nat (length l)) 0); [reflexivity|lia].
  - destruct (Z.ltb_spec i 0); [lia|].
    rewrite lookup_ge_None_2 by lia. reflexivity.
Qed.

(** What the function does once both downloads have succeeded. *)
Lemma frequency_sorted_words_run (n_words : Z) :
  nltk_download "brown" = Ok () ->
  nltk_download "words" = Ok () ->
  selected n_words =
    if decide (fvw = [] \/ (n_words <= - Z.of_nat (length fvw))%Z) then Raise IndexError
    else Ok (take (kept (length fvw) n_words) fvw).*1.
Proof.
  intros Hd1 Hd2. unfold get_frequency_sorted_words. rewrite Hd1, Hd2.
  cbn [mbind result_bind]. rewrite py_slice_to_take.
  destruct (decide (fvw = [] \/ (n_words <= - Z.of_nat (length fvw))%Z)) as [[Hnil|Hn]|Hok].
  - rewrite Hnil. reflexivity.
  - destruct fvw as [|x0 l] eqn:E; [reflexivity|].
    replace (py_index (x0 :: l) 0) with (Ok x0 : result (string * nat)) by reflexivity.
    cbn [mbind result_bind].
    rewrite py_index_out_of_range; [reflexivity|]. left. lia.
  - destruct (py_index_in_range fvw 0) as [x0 ->].
    { destruct fvw; [tauto|simpl; lia]. }
    cbn [mbind result_bind].
    destruct (py_index_in_range fvw (Z.min (Z.of_nat (length fvw) - 1) (n_words - 1)))
      as [x1 ->].
    { destruct fvw; [tauto|]. simpl length in *. lia. }
    reflexivity.
Qed.

Lemma downloads_cases :
  (nltk_download "brown" = Ok () /\ nltk_download "words" = Ok ()) \/
  ((exists e, nltk_download "brown" = Raise e) \/ (exists e, nltk_download "words" = Raise e)).
Proof.
  destruct (nltk_download "brown") as [[]|e1]; [|right; left; eauto].
  destruct (nltk_download "words") as [[]|e2]; [left; auto|right; right; eauto].
Qed.

Lemma frequency_sorted_words_failed_download (n_words : Z) :
  (exists e, nltk_download "brown" = Raise e) \/ (exists e, nltk_download "words" = Raise e) ->
  selected n_words = Raise RuntimeError.
Proof.
  unfold get_frequency_sorted_words.
  intros [[e He]|[e He]]; rewrite He; [reflexivity|].
  destruct (nltk_download "brown") as [[]|]; reflexivity.
Qed.

(** A list that is returned is a slice of the filtered list. *)
Lemma frequency_sorted_words_inv (n_words : Z) ws :
  selected n_words = Ok ws ->
  ws = (take (kept (length fvw) n_words) fvw).*1.
Proof.
  destruct downloads_cases as [[Hd1 Hd2]|Hfail].
  - rewrite (frequency_sorted_words_run n_words Hd1 Hd2).
    case_decide; [discriminate|]. intros Heq. injection Heq as <-. reflexivity.
  - rewrite (frequency_sorted_words_failed_download n_words Hfail). discriminate.
Qed.

Lemma frequent_valid_keys_nodup : NoDup fvw.*1.
Proof.
  unfold frequent_valid_words.
  eapply sublist_NoDup; [|apply fmap_sublist, sublist_filter].
  rewrite most_common_perm. apply Counter_counted.
Qed.

Lemma frequent_valid_from_corpus word frequency :
  (word, frequency) ∈ fvw -> word ∈ brown_words brown_corpus.
Proof.
  unfold frequent_valid_words.
  intros [_ Hin]%list_elem_of_filter.
  apply elem_of_most_common, Counter_entry in Hin as [_ Hin]. exact Hin.
Qed.

(** X1.  [get_frequency_sorted_words] returns no word twice. *)
Theorem frequency_sorted_words_distinct (n_words : Z) (ws : list string) :
  get_frequency_sorted_words nltk_download brown_corpus words_corpus n_words = Ok ws ->
  NoDup ws.
Proof.
  intros ->%frequency_sorted_words_inv.
  eapply sublist_NoDup; [apply frequent_valid_keys_nodup|].
  apply fmap_sublist, sublist_take.
Qed.

(** X2.  Every word that [get_frequency_sorted_words] returns is made of
    lowercase letters only. *)
Theorem frequency_sorted_words_lowercase (n_words : Z) (ws : list string) :
  get_frequency_sorted_words nltk_download brown_corpus words_corpus n_words = Ok ws ->
  Forall (fun w => all_chars is_lower w = true) ws.
Proof.
  intros ->%frequency_sorted_words_inv. apply Forall_forall. intros w Hw.
  apply list_elem_of_fmap in Hw as ([w' f] & -> & Hin). cbn [fst].
  apply elem_of_take in Hin as (i & Hi & _).
  apply list_elem_of_lookup_2, frequent_valid_from_corpus in Hi.
  unfold brown_words in Hi. change (map lower ?l) with (lower <$> l) in Hi.
  apply list_elem_of_fmap in Hi as (w0 & -> & [Halpha _]%list_elem_of_filter).
  apply lower_all_lower, isalpha_letters, Halpha.
Qed.

(** X3.  [get_frequency_sorted_words] raises [RuntimeError] exactly when one of the two
    downloads raises, whatever the exception of the download. *)
Theorem frequency_sorted_words_runtime_error (n_words : Z) :
  get_frequency_sorted_words nltk_download brown_corpus words_corpus n_words
  = Raise RuntimeError
  <-> (exists e, nltk_download "brown" = Raise e) \/ (exists e, nltk_download "words" = Raise e).
Proof.
  split; [|apply frequency_sorted_words_failed_download].
  destruct downloads_cases as [[Hd1 Hd2]|Hfail]; [|auto].
  rewrite (frequency_sorted_words_run n_words Hd1 Hd2). case_decide; discriminate.
Qed.

(** X4.  With both corpora downloaded, [get_frequency_sorted_words] raises [IndexError]
    exactly when no word passes the filter, or when [n_words] is at most
    [-len(frequent_valid_words)], the index [n_words - 1] of the
    frequency range that is printed lying before the first word;
    otherwise it returns the slice [frequent_valid_words[:n_words]],
    whose length is [min(n_words, len)] for a count that is not negative
    and [len + n_words] for a negative one. *)
Theorem frequency_sorted_words_index_error (n_words : Z) :
  nltk_download "brown" = Ok () ->
  nltk_download "words" = Ok () ->
  (get_frequency_sorted_words nltk_download brown_corpus words_corpus n_words
   = Raise IndexError
   <-> frequent_valid_words brown_corpus words_corpus = [] \/
       (n_words <= - Z.of_nat (length (frequent_valid_words brown_corpus words_corpus)))%Z) /\
  (frequent_valid_words brown_corpus words_corpus <> [] ->
   (- Z.of_nat (length (frequent_valid_words brown_corpus words_corpus)) < n_words)%Z ->
   exists ws,
     get_frequency_sorted_words nltk_download brown_corpus words_corpus n_words = Ok ws /\
     ws = map fst (py_slice_to (frequent_valid_words brown_corpus words_corpus) n_words) /\
     Z.of_nat (length ws)
     = if (n_words <? 0)%Z
       then (Z.of_nat (length (frequent_valid_words brown_corpus words_corpus)) + n_words)%Z
       else Z.min n_words
              (Z.of_nat (length (frequent_valid_words brown_corpus words_corpus)))).
Proof.
  intros Hd1 Hd2. rewrite (frequency_sorted_words_run n_words Hd1 Hd2). split.
  - case_decide; [tauto|]. split; [discriminate|tauto].
  - intros Hne Hn. rewrite decide_False by (intros [?|?]; [contradiction|lia]).
    eexists. split; [reflexivity|].
    split; [rewrite py_slice_to_take; reflexivity|].
    rewrite length_fmap, length_take. unfold kept.
    destruct (Z.ltb_spec n_words 0); lia.
Qed.

(** X5.  A word that passes the filter and is left out is no more frequent
    than any word that is returned. *)
Theorem frequency_sorted_words_most_frequent (n_words : Z) (ws : list string) :
  get_frequency_sorted_words nltk_download brown_corpus words_corpus n_words = Ok ws ->
  forall word frequency w,
    (word, frequency) ∈ frequent_valid_words brown_corpus words_corpus ->
    word ∉ ws -> w ∈ ws ->
    frequency <= occurrences w (brown_words brown_corpus).
Proof.
  intros ->%frequency_sorted_words_inv word frequency w Hin Hout Hw.
  set (k := kept (length fvw) n_words) in *.
  apply list_elem_of_fmap in Hw as ([w' f'] & -> & Hw). cbn [fst].
  apply elem_of_take in Hw as (i & Hi & Hik).
  apply list_elem_of_lookup_1 in Hin as (j & Hj).
  assert (k <= j) as Hkj.
  { destruct (decide (k <= j)) as [|Hlt]; [assumption|]. exfalso. apply Hout.
    apply list_elem_of_fmap. exists (word, frequency). split; [reflexivity|].
    apply elem_of_take. exists j. split; [exact Hj|lia]. }
  pose proof (sorted_lookup _ (frequent_valid_sorted brown_corpus words_corpus)
                i j _ _ ltac:(lia) Hi Hj) as Hord.
  apply list_elem_of_lookup_2, frequent_valid_entry in Hi as [<- _].
  exact Hord.
Qed.

(** The converse of [frequent_valid_entry]. *)
Lemma frequent_valid_complete word :
  word ∈ valid_words words_corpus -> word ∉ stop_words ->
  3 <= String.length word <= 12 -> isalpha word = true ->
  3 <= occurrences word (brown_words brown_corpus) ->
  (word, occurrences word (brown_words brown_corpus)) ∈ fvw.
Proof.
  intros Hv Hs Hl Ha Ho. unfold frequent_valid_words.
  apply list_elem_of_filter. split.
  - unfold game_word.
    rewrite !bool_decide_eq_true_2 by assumption. rewrite Ha.
    destruct Hl as [Hl1 Hl2].
    apply Nat.leb_le in Hl1, Hl2, Ho. rewrite Hl1, Hl2, Ho. reflexivity.
  - apply elem_of_most_common.
    destruct (Counter_counted (brown_words brown_corpus)) as [Hg Hk Hn].
    assert (word ∈ brown_words brown_corpus) as Hin by (apply occurrences_pos; lia).
    apply Hk, list_elem_of_fmap in Hin as ([k n] & Hkk & Hin). cbn [fst] in Hkk. subst k.
    destruct (Counter_entry _ _ _ Hin) as [-> _]. exact Hin.
Qed.

(** X6.  When no more words pass the filter than are asked for, the words
    returned are exactly the words that pass it. *)
Theorem frequency_sorted_words_complete (n_words : Z) (ws : list string) :
  get_frequency_sorted_words nltk_download brown_corpus words_corpus n_words = Ok ws ->
  (Z.of_nat (length (frequent_valid_words brown_corpus words_corpus)) <= n_words)%Z ->
  forall w,
    w ∈ ws <->
    w ∈ valid_words words_corpus /\ (w ∉ stop_words) /\
    3 <= String.length w <= 12 /\ isalpha w = true /\
    3 <= occurrences w (brown_words brown_corpus).
Proof.
  intros ->%frequency_sorted_words_inv Hn w.
  assert (kept (length fvw) n_words = length fvw) as ->.
  { unfold kept. destruct (Z.ltb_spec n_words 0); lia. }
  rewrite firstn_all. split.
  - intros ([w' f] & -> & Hin)%list_elem_of_fmap. cbn [fst].
    apply frequent_valid_entry in Hin as (-> & ? & ? & ? & ? & ?). tauto.
  - intros (Hv & Hs & Hl & Ha & Ho). apply list_elem_of_fmap.
    eexists (w, _). split; [reflexivity|]. apply frequent_valid_complete; assumption.
Qed.

(** X7.  The vocabulary for a smaller count is the beginning of the
    vocabulary for a larger one. *)
Theorem frequency_sorted_words_prefix (n m : Z) (ws ws' : list string) :
  get_frequency_sorted_words nltk_download brown_corpus words_corpus n = Ok ws ->
  get_frequency_sorted_words nltk_download brown_corpus words_corpus m = Ok ws' ->
  (0 <= n <= m)%Z -> ws `prefix_of` ws'.
Proof.
  intros ->%frequency_sorted_words_inv ->%frequency_sorted_words_inv Hnm.
  assert (kept (length fvw) n <= kept (length fvw) m) as Hk.
  { unfold kept. destruct (Z.ltb_spec n 0), (Z.ltb_spec m 0); lia. }
  exists (take (kept (length fvw) m - kept (length fvw) n) (drop (kept (length fvw) n) fvw)).*1.
  rewrite <- fmap_app. f_equal.
  rewrite <- (take_drop (kept (length fvw) n) (take (kept (length fvw) m) fvw)) at 1.
  rewrite take_take, Nat.min_l by lia. f_equal.
  rewrite skipn_firstn_comm. reflexivity.
Qed.

End VocabularyOutcomes.

(** ** Counters: totals *)

Section CounterTotals.
Context {K : Type} `{EqDecision K}.
Implicit Types (k : K) (l : list K) (c : list (K * nat)).

Lemma counter_incr_total k c : sum_list (counter_incr k c).*2 = S (sum_list c.*2).
Proof.
  induction c as [|[k' n] c IH]; [reflexivity|].
  cbn [counter_incr]. destruct (decide (k = k')); rewrite !fmap_cons; simpl.
  - lia.
  - rewrite IH. lia.
Qed.

Lemma Counter_total l : sum_list (Counter l).*2 = length l.
Proof.
  unfold Counter.
  assert (forall c, sum_list (fold_left (fun c k => counter_incr k c) l c).*2
                    = sum_list c.*2 + length l) as H.
  { induction l as [|k l IH]; intros c; simpl; [lia|].
    rewrite IH, counter_incr_total. lia. }
  rewrite H. reflexivity.
Qed.

Lemma Counter_positive l : Forall (fun kn => 1 <= kn.2) (Counter l).
Proof.
  apply Forall_forall. intros [k n] Hin.
  apply Counter_entry in Hin as [-> Hin]. apply occurrences_pos in Hin. simpl. lia.
Qed.

(** The surplus [sum(count - 1 for count in c.values() if count > 1)]. *)
Lemma surplus_of_counts c :
  Forall (fun kn => 1 <= kn.2) c ->
  sum_list (map (fun kn => kn.2 - 1) (more_than_once c)) + length c = sum_list c.*2.
Proof.
  unfold more_than_once.
  induction 1 as [|[k n] c Hn Hc IH]; [reflexivity|].
  rewrite filter_cons, fmap_cons. simpl in *.
  destruct (decide (1 < n)); simpl; lia.
Qed.
End CounterTotals.

Lemma distinct_bytes (q : list Z) :
  Forall (fun z => (0 <= z < 256)%Z) q -> size (list_to_set q : gset Z) <= 256.
Proof.
  intros Hq.
  assert ((list_to_set q : gset Z) ⊆ list_to_set (seqZ 0 256)) as Hsub.
  { intros z Hz%elem_of_list_to_set. apply elem_of_list_to_set, elem_of_seqZ.
    rewrite Forall_forall in Hq. apply Hq in Hz. lia. }
  apply subseteq_size in Hsub.
  rewrite (size_list_to_set (seqZ 0 256)) in Hsub by apply NoDup_seqZ.
  rewrite length_seqZ in Hsub. exact Hsub.
Qed.

Section SimilarityRate.
Variable cast_undef : spec_float -> Z.
Variable cosine_similarity : float_dtype -> list spec_float -> list spec_float -> spec_float.

(** X8.  Without words [analyze_similarity_collisions] raises [IndexError], whatever the
    target: the fallback target [words[len(words) // 2]] does not exist. *)
Theorem similarity_collisions_without_words (embeddings : ndarray)
    (target_word : option string) (bits : Z) :
  analyze_similarity_collisions cast_undef cosine_similarity embeddings [] target_word bits
  = Raise IndexError.
Proof.
  unfold analyze_similarity_collisions.
  destruct target_word as [w|]; [|reflexivity].
  destruct (decide (w ∈ [])) as [Hin|_]; [inversion Hin|reflexivity].
Qed.

(** The target that is used when none is given, or an unknown one. *)
Lemma fallback_target (words : list string) :
  words <> [] ->
  exists t,
    (fallback ← py_index words (Z.of_nat (length words) / 2);
     Ok (default fallback (head (filter (fun w => w ∈ words) common_targets)))) = Ok t /\
    t ∈ words.
Proof.
  intros Hne.
  assert (Hpos : 0 < length words) by (destruct words; [contradiction|simpl; lia]).
  destruct (lookup_lt_is_Some_2 words (Z.to_nat (Z.of_nat (length words) / 2))) as [fb Hfb].
  { apply Nat2Z.inj_lt. rewrite Z2Nat.id by (apply Z.div_pos; lia).
    apply Z.div_lt_upper_bound; lia. }
  assert (Hidx : py_index words (Z.of_nat (length words) / 2) = Ok fb).
  { rewrite <- (Z2Nat.id (Z.of_nat (length words) / 2)) by (apply Z.div_pos; lia).
    apply py_index_nat, Hfb. }
  rewrite Hidx. cbn [mbind result_bind]. eexists. split; [reflexivity|].
  destruct (filter (fun w => w ∈ words) common_targets) as [|t ts] eqn:E.
  - simpl. eapply list_elem_of_lookup_2, Hfb.
  - simpl. assert (t ∈ filter (fun w => w ∈ words) common_targets) as Ht by (rewrite E; left).
    apply list_elem_of_filter in Ht as [Ht _]. exact Ht.
Qed.

(** X9.  With one row per word (and a row at least),
    [analyze_similarity_collisions] returns, whatever the target, a
    rate [(n - d) / n] for [n] words and a number [d] with
    [1 <= d <= 256] and [d <= n]: the scores are cast to bytes, so the
    rate is at least [1 - 256 / n]; and it is never 1. *)
Theorem similarity_collision_rate (embeddings : ndarray) (words : list string)
    (target_word : option string) (bits : Z) :
  rows embeddings <> [] ->
  length words = length (rows embeddings) ->
  (bits < 1024)%Z ->
  exists (rate : Q) (distinct : nat),
    analyze_similarity_collisions cast_undef cosine_similarity embeddings words
      target_word bits = Ok rate /\
    1 <= distinct <= 256 /\
    distinct <= length words /\
    (rate == inject_Z (Z.of_nat (length words) - Z.of_nat distinct)
             / inject_Z (Z.of_nat (length words)))%Q /\
    (0 <= rate < 1)%Q.
Proof.
  intros Hne Hlen Hb. unfold analyze_similarity_collisions.
  assert (Hwords : words <> []).
  { intros ->. destruct (rows embeddings); [contradiction|discriminate]. }
  assert (exists t,
    match target_word with
    | Some w =>
        if decide (w ∈ words) then Ok w
        else fallback ← py_index words (Z.of_nat (length words) / 2);
             Ok (default fallback (head (filter (fun w0 => w0 ∈ words) common_targets)))
    | None =>
        fallback ← py_index words (Z.of_nat (length words) / 2);
        Ok (default fallback (head (filter (fun w => w ∈ words) common_targets)))
    end = Ok t /\ t ∈ words) as (target & -> & Htarget).
  { destruct target_word as [w|]; [destruct (decide (w ∈ words))|];
      eauto using fallback_target. }
  cbn [mbind result_bind].
  destruct (list_index_Some target words Htarget) as (idx & Hi & Hl).
  unfold py_list_index. rewrite Hi. cbn [mbind result_bind].
  destruct (lookup_lt_is_Some_2 (rows embeddings) idx) as [v Hv].
  { rewrite <- Hlen. eapply lookup_lt_Some, Hl. }
  rewrite (py_index_nat _ _ _ Hv). cbn [mbind result_bind].
  set (sims := {| dtype := dtype embeddings;
                  rows := [map (cosine_similarity (dtype embeddings) v) (rows embeddings)] |}).
  assert (Hflat : flat sims = map (cosine_similarity (dtype embeddings) v) (rows embeddings)).
  { unfold flat, sims. cbn [rows concat]. apply app_nil_r. }
  assert (Hsims : flat sims <> []).
  { rewrite Hflat. destruct (rows embeddings); [contradiction|discriminate]. }
  unfold quantize_similarities.
  destruct (amin_nonempty sims Hsims) as [mn ->].
  destruct (amax_nonempty sims Hsims) as [mx ->].
  cbn [mbind result_bind].
  destruct (levels_small (dtype embeddings) bits Hb) as [num Hnum].
  cbn [dtype sims]. rewrite Hnum. cbn [mbind result_bind].
  set (q := map _ (flat _)).
  assert (Hq_len : length q = length words).
  { unfold q. rewrite length_map, Hflat, length_map. symmetry. exact Hlen. }
  assert (Hq_range : Forall (fun z => (0 <= z < 256)%Z) q).
  { unfold q. apply Forall_forall. intros z Hz.
    change (map ?f ?l) with (f <$> l) in Hz.
    apply list_elem_of_fmap in Hz as (x & -> & _).
    apply (astype_uint_range cast_undef 8). lia. }
  destruct (mapM_result_ok (fun qc : Z * nat => example_words words q qc.1)
              (take 3 (more_than_once (Counter q)))) as [ex ->].
  { intros qc _. apply example_words_ok. rewrite Hq_len. reflexivity. }
  cbn [mbind result_bind]. unfold py_truediv.
  destruct (Z.eqb_spec (Z.of_nat (length words)) 0) as [H0|_].
  { destruct words; [contradiction|simpl in H0; lia]. }
  pose proof (surplus_of_counts (Counter q) (Counter_positive q)) as Hsum.
  rewrite Counter_total, <- size_list_to_set_Counter, Hq_len in Hsum.
  assert (Hq_ne : q <> []) by (intros E; rewrite E in Hq_len; destruct words; [contradiction|discriminate]).
  pose proof (size_list_to_set_pos q Hq_ne) as Hpos.
  pose proof (distinct_bytes q Hq_range) as H256.
  set (surplus := sum_list _) in *.
  exists (Qmake (Z.of_nat surplus) 1 / Qmake (Z.of_nat (length words)) 1)%Q,
         (size (list_to_set q : gset Z)).
  split; [reflexivity|]. split; [lia|]. split; [lia|].
  replace (Z.of_nat surplus)
    with (Z.of_nat (length words) - Z.of_nat (size (list_to_set q : gset Z)))%Z by lia.
  split; [reflexivity|].
  apply share_in_unit_interval. lia.
Qed.
End SimilarityRate.

(** ** Arrays without entries *)

Section NoEntries.
Variable cast_undef : spec_float -> Z.

(** X10.  An array without entries is rejected by both quantizers and by the
    collision analysis: [arr.min()] raises [ValueError]. *)
Theorem quantizers_reject_arrays_without_entries (arr : ndarray) (words : list string)
    (bits : Z) :
  flat arr = [] ->
  quantize_to_uint8 cast_undef arr = Raise ValueError /\
  quantize_to_uint cast_undef arr bits = Raise ValueError /\
  analyze_collisions cast_undef arr words bits = Raise ValueError.
Proof.
  intros Hflat.
  assert (amin arr = Raise ValueError) as Hmin by (unfold amin; rewrite Hflat; reflexivity).
  unfold analyze_collisions, quantize_to_uint, quantize_to_uint8. rewrite Hmin.
  repeat split.
Qed.
End NoEntries.

(** ** What [export_data] leaves alone *)

(** The files of an export to the directory [out]. *)
Definition export_paths (out : path) : list path :=
  map (fun name => out ++ [name]) export_file_names.

(** From [w] to [w'], no file other than the export files of [out] has
    changed, no directory is lost, and no directory is new but, at most,
    [out]. *)
Definition touches_only (out : path) (w w' : world) : Prop :=
  (forall p, p ∉ export_paths out -> files w' !! p = files w !! p) /\
  dirs w ⊆ dirs w' /\
  dirs w' ⊆ {[out]} ∪ dirs w.

(** An action that touches nothing else, whether it returns or raises. *)
Definition keeps {A : Type} (out : path) (m : io A) : Prop :=
  forall w, touches_only out w (m w).2.

Lemma touches_only_refl out w : touches_only out w w.
Proof. split; [reflexivity|]. split; [reflexivity|apply union_subseteq_r]. Qed.

Lemma touches_only_trans out w1 w2 w3 :
  touches_only out w1 w2 -> touches_only out w2 w3 -> touches_only out w1 w3.
Proof.
  intros (Hf1 & Hd1 & He1) (Hf2 & Hd2 & He2). split; [|split].
  - intros p Hp. rewrite Hf2, Hf1 by exact Hp. reflexivity.
  - etrans; eassumption.
  - intros q Hq. apply He2, elem_of_union in Hq as [Hq|Hq].
    + apply elem_of_union. left. exact Hq.
    + apply He1, Hq.
Qed.

Lemma keeps_lift {A : Type} out (r : result A) : keeps out (lift r).
Proof. intros w. apply touches_only_refl. Qed.

Lemma keeps_ret {A : Type} out (a : A) : keeps out (mret a : io A).
Proof. intros w. apply touches_only_refl. Qed.

Lemma keeps_announce out s : keeps out (announce s).
Proof.
  intros w. split; [reflexivity|]. cbn [snd announce dirs].
  split; [reflexivity|apply union_subseteq_r].
Qed.

Lemma keeps_st_size out p : keeps out (st_size p).
Proof. intros w. unfold st_size. destruct (files w !! p); apply touches_only_refl. Qed.

Lemma keeps_mkdir out : keeps out (mkdir_exist_ok out).
Proof.
  intros w. unfold mkdir_exist_ok.
  destruct (walk w [] (parent out)); [|apply touches_only_refl].
  destruct (is_dir w out); [apply touches_only_refl|].
  destruct (is_file w out); [apply touches_only_refl|].
  split; [reflexivity|]. cbn [snd dirs]. split; [apply union_subseteq_r|reflexivity].
Qed.

Lemma keeps_write out p content : p ∈ export_paths out -> keeps out (write_file p content).
Proof.
  intros Hp w. unfold write_file.
  destruct (walk w [] (parent p)); [|apply touches_only_refl].
  destruct (is_dir w p); [apply touches_only_refl|].
  split; [|cbn [snd dirs]; split; [reflexivity|apply union_subseteq_r]].
  intros q Hq. cbn [snd files]. apply lookup_insert_ne. intros ->. contradiction.
Qed.

Lemma keeps_bind {A B : Type} out (m : io A) (k : A -> io B) :
  keeps out m -> (forall a, keeps out (k a)) -> keeps out (m ≫= k).
Proof.
  intros Hm Hk w. specialize (Hm w).
  unfold mbind, io_bind. destruct (m w) as [[a|e] w1]; cbn [snd] in *; [|exact Hm].
  eapply touches_only_trans; [exact Hm|apply Hk].
Qed.

Lemma keeps_record_size out name p formats :
  keeps out (EmbeddingGenerator.record_size name p formats).
Proof.
  unfold EmbeddingGenerator.record_size.
  apply keeps_bind; [apply keeps_st_size | intros; apply keeps_ret].
Qed.

Ltac export_path :=
  unfold export_paths, export_file_names;
  apply (list_elem_of_fmap_2 (fun name => _ ++ [name]));
  repeat first [ apply list_elem_of_here | apply list_elem_of_further ].

Ltac keeps_atom :=
  first [ apply keeps_lift | apply keeps_ret | apply keeps_announce
        | apply keeps_record_size | apply keeps_mkdir
        | apply keeps_write; export_path ].

Ltac keeps_go :=
  repeat first
    [ keeps_atom
    | apply keeps_bind; [ solve [ keeps_go ] | intros ? ]
    | match goal with
      | |- keeps _ (if ?b then _ else _) => destruct b
      | |- keeps _ (let '(_, _) := ?p in _) => destruct p
      | |- keeps _ (match ?p with (_, _) => _ end) => destruct p
      end ].

Section ExportFiles.
Import EmbeddingGenerator.
Variable cast_undef : spec_float -> Z.
Variable cosine_similarity : float_dtype -> list spec_float -> list spec_float -> spec_float.
Variable encode : list string -> ndarray.
Variable umap_fit_transform : Z -> Z -> ndarray -> ndarray.
Variable HAS_BLOSC HAS_LZ4 : bool.
Variable json_dumps : json -> string.
Variable gzip_compress brotli_compress lz4_compress : string -> string.
Variable savez_compressed : ndarray -> ndarray -> list string -> string.
Variable tobytes : ndarray -> string.
Variable blosc2_compress2 : ndarray -> string.
Variable b64encode : string -> string.
Variable nltk_download : string -> result unit.
Variable brown_corpus : list string.
Variable words_corpus : list string.
Variable now : spec_float.

Local Abbreviation export_data_ :=
  (export_data cast_undef cosine_similarity HAS_BLOSC HAS_LZ4 json_dumps
     gzip_compress brotli_compress lz4_compress savez_compressed tobytes
     blosc2_compress2 b64encode).
Local Abbreviation run_ :=
  (run cast_undef cosine_similarity encode umap_fit_transform HAS_BLOSC HAS_LZ4
     json_dumps gzip_compress brotli_compress lz4_compress savez_compressed
     tobytes blosc2_compress2 b64encode nltk_download brown_corpus words_corpus now).
Local Abbreviation main_ :=
  (main cast_undef cosine_similarity encode umap_fit_transform HAS_BLOSC HAS_LZ4
     json_dumps gzip_compress brotli_compress lz4_compress savez_compressed
     tobytes blosc2_compress2 b64encode nltk_download brown_corpus words_corpus now).

Lemma keeps_export_data output_dir g :
  keeps (Path output_dir) (export_data_ output_dir now g).
Proof.
  unfold export_data. set (out := Path output_dir). cbv zeta.
  repeat match goal with
         | |- context [joinpath out ?name] => change (joinpath out name) with (out ++ [name])
         end.
  keeps_go.
Qed.



(** X11.  Whatever the generator holds and whether the call returns or
    raises, [export_data] changes no file but its eleven files in the
    output directory, removes no directory, and makes no directory but
    the output directory. *)
Theorem export_data_touches_only_its_files (output_dir : string) (g : generator)
    (w : world) :
  (forall p, p ∈ export_paths (Path output_dir) \/
             files (export_data_ output_dir now g w).2 !! p = files w !! p) /\
  dirs w ⊆ dirs (export_data_ output_dir now g w).2 /\
  dirs (export_data_ output_dir now g w).2 ⊆ {[Path output_dir]} ∪ dirs w.
Proof.
  destruct (keeps_export_data output_dir g w) as (Hf & Hd & He).
  split; [|split; assumption].
  intros p. destruct (decide (p ∈ export_paths (Path output_dir))); auto.
Qed.


(** X13.  An export before the embeddings or the coordinates are generated
    makes the output directory, prints its banner, and raises
    [AttributeError] before any file is written; with both but no word
    list it raises [TypeError] at the same place. *)
Theorem export_data_before_generation (output_dir : string) (g : generator)
    (w w1 : world) :
  mkdir_exist_ok (Path output_dir) w = (Ok (), w1) ->
  embeddings g = None \/ umap_coords g = None \/ words g = None ->
  export_data_ output_dir now g w
  = (Raise (if decide (embeddings g = None \/ umap_coords g = None)
            then AttributeError else TypeError),
     {| files := files w1; dirs := dirs w1; printed := printed w1 ++ [Export] |}).
Proof.
  intros Hmk H. unfold export_data. cbv zeta.
  rewrite (run_step _ _ _ _ _ Hmk). destruct w1 as [F D P].
  rewrite run_announce. cbn [files dirs printed].
  destruct (embeddings g) as [e|].
  2:{ rewrite decide_True by auto. reflexivity. }
  rewrite run_lift_ok.
  destruct (umap_coords g) as [c|].
  2:{ rewrite decide_True by auto. reflexivity. }
  rewrite run_lift_ok.
  destruct H as [H|[H|H]]; [discriminate..|]. rewrite H.
  rewrite decide_False by (intros [?|?]; discriminate). reflexivity.
Qed.


End ExportFiles.

Local Open Scope Z_scope.

(** ** Rounding, exactly *)

(** The state of a right shift of [M] by [n] bits: the quotient, and where
    the bits shifted out lie with respect to one half. *)
Definition shifted (M n : Z) (mrs : shr_record) : Prop :=
  shr_m mrs = M / 2 ^ n /\
  loc_of_shr_record mrs
  = (if M mod 2 ^ n =? 0 then loc_Exact else loc_Inexact (2 * (M mod 2 ^ n) ?= 2 ^ n)).

Lemma shifted_0 (M : Z) : shifted M 0 (shr_record_of_loc M loc_Exact).
Proof.
  split; cbn [shr_record_of_loc shr_m loc_of_shr_record].
  - rewrite Z.pow_0_r, Z.div_1_r. reflexivity.
  - rewrite Z.pow_0_r, Z.mod_1_r. reflexivity.
Qed.

Lemma shr_1_parts (mrs : shr_record) :
  0 <= shr_m mrs ->
  shr_m (shr_1 mrs) = shr_m mrs / 2 /\
  shr_r (shr_1 mrs) = Z.odd (shr_m mrs) /\
  shr_s (shr_1 mrs) = shr_r mrs || shr_s mrs.
Proof.
  destruct mrs as [m r s]. cbn [shr_m shr_r shr_s]. intros Hm. unfold shr_1.
  destruct m as [|[p|p|]|p]; cbn [shr_m shr_r shr_s]; try lia; repeat split.
  - apply Z.div_unique with 1; lia.
  - apply Z.div_unique with 0; lia.
Qed.

Lemma split_shift (M n : Z) :
  0 <= M -> 0 <= n ->
  M / 2 ^ (n + 1) = M / 2 ^ n / 2 /\
  M mod 2 ^ (n + 1) = M mod 2 ^ n + 2 ^ n * (M / 2 ^ n mod 2).
Proof.
  intros HM Hn. pose proof (pow2_pos n Hn) as Hp.
  rewrite Z.pow_add_r, Z.pow_1_r by lia. split.
  - rewrite Z.div_div by lia. reflexivity.
  - rewrite Z.rem_mul_r by lia. reflexivity.
Qed.

Lemma shifted_step (M n : Z) (mrs : shr_record) :
  0 <= M -> 0 <= n -> shifted M n mrs -> shifted M (n + 1) (shr_1 mrs).
Proof.
  intros HM Hn [Hm Hl].
  pose proof (pow2_pos n Hn) as Hp.
  assert (0 <= shr_m mrs) as Hpos by (rewrite Hm; apply Z.div_pos; lia).
  destruct (shr_1_parts mrs Hpos) as (Hm1 & Hr1 & Hs1).
  destruct (split_shift M n HM Hn) as [Hq Hrem].
  pose proof (Z.mod_pos_bound M (2 ^ n) Hp) as HR.
  pose proof (Z.mod_pos_bound (M / 2 ^ n) 2 ltac:(lia)) as Hbit.
  split; [rewrite Hm1, Hm, Hq; reflexivity|].
  rewrite Hrem. replace (2 ^ (n + 1)) with (2 * 2 ^ n) by (rewrite Z.pow_add_r; lia).
  assert (shr_r mrs || shr_s mrs = negb (M mod 2 ^ n =? 0)) as Hsticky.
  { destruct mrs as [m r s]. cbn [loc_of_shr_record shr_r shr_s] in *.
    destruct (M mod 2 ^ n =? 0); destruct r, s; try discriminate; reflexivity. }
  assert (Z.odd (shr_m mrs) = (M / 2 ^ n mod 2 =? 1)) as Hodd.
  { rewrite Hm, Zmod_odd. destruct (Z.odd (M / 2 ^ n)); reflexivity. }
  destruct (shr_1 mrs) as [m1 r1 s1]. cbn [shr_m shr_r shr_s loc_of_shr_record] in *.
  subst r1 s1. rewrite Hsticky, Hodd.
  set (R := M mod 2 ^ n) in *. set (b := M / 2 ^ n mod 2) in *.
  destruct (Z.eqb_spec b 1) as [Hb|Hb]; destruct (Z.eqb_spec R 0) as [HR0|HR0]; cbn [negb].
  - destruct (Z.eqb_spec (R + 2 ^ n * b) 0); [nia|].
    f_equal. symmetry. apply Z.compare_eq_iff. nia.
  - destruct (Z.eqb_spec (R + 2 ^ n * b) 0); [nia|].
    f_equal. symmetry. apply Z.compare_gt_iff. nia.
  - assert (b = 0) as Hb0 by lia.
    destruct (Z.eqb_spec (R + 2 ^ n * b) 0); [reflexivity|nia].
  - assert (b = 0) as Hb0 by lia.
    destruct (Z.eqb_spec (R + 2 ^ n * b) 0); [nia|].
    f_equal. symmetry. apply Z.compare_lt_iff. nia.
Qed.

Lemma shifted_iter (M : Z) (p : positive) : forall n mrs,
  0 <= M -> 0 <= n -> shifted M n mrs ->
  shifted M (n + Zpos p) (SpecFloat.iter_pos shr_1 p mrs).
Proof.
  induction p as [p IH|p IH|]; intros n mrs HM Hn H; cbn [SpecFloat.iter_pos].
  - replace (n + Zpos p~1) with (n + 1 + Zpos p + Zpos p) by lia.
    apply IH; [lia..|]. apply IH; [lia..|]. apply shifted_step; assumption.
  - replace (n + Zpos p~0) with (n + Zpos p + Zpos p) by lia.
    apply IH; [lia..|]. apply IH; assumption.
  - apply shifted_step; assumption.
Qed.

Lemma round_nearest_even_shifted (M n : Z) (mrs : shr_record) :
  0 <= n -> shifted M n mrs ->
  round_nearest_even (shr_m mrs) (loc_of_shr_record mrs) = round_half_even_div M (2 ^ n).
Proof.
  intros Hn [Hm Hl]. rewrite Hm, Hl. unfold round_half_even_div, round_nearest_even.
  pose proof (pow2_pos n Hn) as Hp.
  destruct (Z.eqb_spec (M mod 2 ^ n) 0) as [E|E]; [|reflexivity].
  rewrite E. assert ((2 * 0 ?= 2 ^ n) = Lt) as -> by (apply Z.compare_lt_iff; lia).
  reflexivity.
Qed.

Lemma round_half_even_div_exact (a b : Z) :
  0 < b -> a mod b = 0 -> round_half_even_div a b = a / b.
Proof.
  intros Hb Hr. unfold round_half_even_div. rewrite Hr.
  assert ((2 * 0 ?= b) = Lt) as -> by (apply Z.compare_lt_iff; lia). reflexivity.
Qed.

Lemma round_half_even_div_1 (a : Z) : round_half_even_div a 1 = a.
Proof.
  rewrite round_half_even_div_exact by (try apply Z.mod_1_r; lia). apply Z.div_1_r.
Qed.

Lemma round_half_even_div_multiple (q b : Z) : 0 < b -> round_half_even_div (q * b) b = q.
Proof.
  intros Hb. rewrite round_half_even_div_exact by (try apply Z.mod_mul; lia).
  apply Z.div_mul. lia.
Qed.

Lemma Zdigits2_shift (m k : Z) : 0 < m -> 0 <= k -> Zdigits2 (m * 2 ^ k) = Zdigits2 m + k.
Proof.
  intros Hm Hk. destruct (Zdigits2_bounds m Hm) as (Hd & Hlo & Hhi).
  pose proof (pow2_pos k Hk) as Hp.
  assert (0 < m * 2 ^ k) as Hpos by (apply Z.mul_pos_pos; lia).
  apply Z.le_antisymm.
  - apply Zdigits2_le; [exact Hpos | lia |]. rewrite Z.pow_add_r by lia.
    apply Z.mul_lt_mono_pos_r; lia.
  - apply Zdigits2_ge; [exact Hpos|].
    replace (Zdigits2 m + k - 1) with (Zdigits2 m - 1 + k) by lia.
    rewrite Z.pow_add_r by lia. apply Z.mul_le_mono_nonneg_r; lia.
Qed.

Section Exactly.
Variable prec emax : Z.
Hypothesis prec_pos : 0 < prec.

Local Abbreviation emin := (SpecFloat.emin prec emax).
Local Abbreviation fexp := (SpecFloat.fexp prec emax).

Lemma shr_fexp_shifted (m e : Z) :
  0 <= m ->
  let r := shr_fexp prec emax m e loc_Exact in
  r.2 = Z.max e (fexp (Zdigits2 m + e)) /\ shifted m (r.2 - e) r.1.
Proof.
  intros Hm. unfold shr_fexp, shr.
  destruct (fexp (Zdigits2 m + e) - e) as [|n|n] eqn:En; cbn [fst snd].
  - split; [lia|]. rewrite Z.sub_diag. apply shifted_0.
  - split; [lia|]. replace (e + Zpos n - e) with (0 + Zpos n) by lia.
    apply shifted_iter; [lia..|]. apply shifted_0.
  - split; [lia|]. rewrite Z.sub_diag. apply shifted_0.
Qed.

(** The significand and exponent of the rounding of [m * 2 ^ e]. *)
Definition rounded (m e : Z) : Z * Z :=
  let e1 := Z.max e (fexp (Zdigits2 m + e)) in
  let q := round_half_even_div m (2 ^ (e1 - e)) in
  let e2 := Z.max e1 (fexp (Zdigits2 q + e1)) in
  (q / 2 ^ (e2 - e1), e2).

Lemma binary_round_aux_exactly (s : bool) (m e : Z) :
  0 <= m ->
  binary_round_aux prec emax s m e loc_Exact
  = match (rounded m e).1 with
    | Z0 => S754_zero s
    | Zpos mf => if (rounded m e).2 <=? emax - prec then S754_finite s mf (rounded m e).2
                 else S754_infinity s
    | Zneg _ => S754_nan
    end.
Proof.
  intros Hm. unfold binary_round_aux, rounded. cbn [fst snd].
  destruct (shr_fexp_shifted m e Hm) as [He1 Hsh].
  destruct (shr_fexp prec emax m e loc_Exact) as [mrs1 e1]. cbn [fst snd] in He1, Hsh.
  rewrite (round_nearest_even_shifted m (e1 - e) mrs1 ltac:(lia) Hsh).
  rewrite <- He1.
  set (q := round_half_even_div m (2 ^ (e1 - e))).
  assert (0 <= q) as Hq.
  { unfold q, round_half_even_div.
    pose proof (pow2_pos (e1 - e) ltac:(lia)) as Hp.
    pose proof (Z.div_pos m (2 ^ (e1 - e)) Hm Hp).
    destruct (2 * (m mod 2 ^ (e1 - e)) ?= 2 ^ (e1 - e)); [destruct (Z.even _)|..]; lia. }
  destruct (shr_fexp_shifted q e1 Hq) as [He2 [Hm2 _]].
  destruct (shr_fexp prec emax q e1 loc_Exact) as [mrs2 e2]. cbn [fst snd] in He2, Hm2.
  rewrite Hm2, <- He2. reflexivity.
Qed.

(** The float that rounding [m * 2 ^ e] gives. *)
Definition round_float (s : bool) (m e : Z) : spec_float :=
  match (rounded m e).1 with
  | Z0 => S754_zero s
  | Zpos mf => if (rounded m e).2 <=? emax - prec then S754_finite s mf (rounded m e).2
               else S754_infinity s
  | Zneg _ => S754_nan
  end.

(** A value that is in the format is left as it is. *)
Lemma rounded_exact (m e : Z) :
  0 < m -> fexp (Zdigits2 m + e) <= e -> rounded m e = (m, e).
Proof.
  intros Hm Hf. unfold rounded.
  rewrite (Z.max_l e) by lia. rewrite Z.sub_diag, Z.pow_0_r, round_half_even_div_1.
  rewrite Z.max_l by lia. rewrite Z.sub_diag, Z.pow_0_r, Z.div_1_r. reflexivity.
Qed.

(** Rounding a positive integer. *)
Lemma binary_round_exactly (s : bool) (m : positive) (e : Z) :
  let ea := Z.min e (fexp (Zdigits2 (Zpos m) + e)) in
  binary_round prec emax s m e = round_float s (Zpos m * 2 ^ (e - ea)) ea.
Proof.
  intros ea. unfold binary_round.
  pose proof (shl_align_value m e (fexp (Zpos (digits2_pos m) + e))) as Hal.
  cbv zeta in Hal. destruct (shl_align m e _) as [mz ez]. cbn [fst snd] in Hal.
  destruct Hal as [Hez Hmz]. change (Zpos (digits2_pos m)) with (Zdigits2 (Zpos m)) in Hez.
  fold ea in Hez. subst ez.
  rewrite binary_round_aux_exactly by lia. rewrite Hmz. reflexivity.
Qed.
End Exactly.

Local Close Scope Z_scope.

(** ** [format_size] on sizes *)

Example format_size_examples :
  format_size (PyInt 0) = Ok "0.00 B" /\
  format_size (PyInt 1023) = Ok "1023.00 B" /\
  format_size (PyInt 1536) = Ok "1.50 KB" /\
  format_size (PyInt 1048575) = Ok "1024.00 KB" /\
  format_size (PyInt 123456789) = Ok "117.74 MB" /\
  format_size (PyInt (-5000)) = Ok "-5000.00 B" /\
  format_size (PyInt (5 * 1024 ^ 4 + 2 ^ 38)) = Ok "5.25 TB" /\
  format_size (PyInt 1285) = Ok "1.25 KB" /\
  format_size (PyInt 1295) = Ok "1.26 KB" /\
  format_size (PyFloat S754_nan) = Ok "nan TB" /\
  format_size (PyFloat (S754_infinity false)) = Ok "inf TB" /\
  format_size (PyInt (2 ^ 1024)) = Raise OverflowError.
Proof. vm_compute. repeat split. Qed.

Local Open Scope Z_scope.

Lemma string_app_assoc (a b c : string) : (a +:+ b) +:+ c = a +:+ (b +:+ c).
Proof.
  induction a as [|ch a IH]; [reflexivity|].
  change (String ch ((a +:+ b) +:+ c) = String ch (a +:+ (b +:+ c))).
  rewrite IH. reflexivity.
Qed.

Lemma py_str_of_int_neg (p : positive) :
  py_str_of_int (Zneg p) = "-" +:+ py_str_of_int (Zpos p).
Proof. reflexivity. Qed.

(** An integer below [2 ^ 53] in absolute value is a binary64 float. *)
Lemma float64_of_int (n : Z) :
  n <> 0 -> Z.abs n < 2 ^ 53 ->
  let d := Zdigits2 n in
  float_of_int float64 n
  = S754_finite (n <? 0) (Z.to_pos (Z.abs n * 2 ^ (53 - d))) (d - 53).
Proof.
  intros Hn Hlt d.
  assert (Hd : 0 < d <= 53).
  { unfold d. destruct n as [|p|p]; [lia|..]; cbn [Zdigits2];
      pose proof (Zdigits2_bounds (Zpos p) ltac:(lia)) as (? & ? & ?);
      cbn [Zdigits2] in *; (split; [lia|]);
      apply (Zdigits2_le (Zpos p)); cbn [Z.abs] in Hlt; lia. }
  assert (Hround : forall s (p : positive),
             Zdigits2 (Zpos p) = d -> 
             binary_round 53 1024 s p 0
             = S754_finite s (Z.to_pos (Zpos p * 2 ^ (53 - d))) (d - 53)).
  { intros s p Hp. rewrite (binary_round_exactly 53 1024 s p 0). cbv zeta.
    rewrite Hp. 
    assert (SpecFloat.fexp 53 1024 (d + 0) = d - 53) as ->
      by (unfold SpecFloat.fexp, SpecFloat.emin; lia).
    rewrite Z.min_r by lia. replace (0 - (d - 53)) with (53 - d) by lia.
    pose proof (pow2_pos (53 - d) ltac:(lia)) as Hpp.
    unfold round_float. rewrite rounded_exact.
    - cbn [fst snd]. destruct (Zpos p * 2 ^ (53 - d)) as [|q|q] eqn:E; try lia.
      destruct (Z.leb_spec (d - 53) (1024 - 53)); [|lia]. reflexivity.
    - lia.
    - rewrite Zdigits2_shift by lia. rewrite Hp.
      unfold SpecFloat.fexp, SpecFloat.emin. lia. }
  unfold float_of_int. cbn [prec emax float64].
  destruct n as [|p|p]; [lia|..]; cbn [binary_normalize Z.abs]; apply Hround; reflexivity.
Qed.

Lemma two_decimals_whole (a : Z) : 0 <= a -> two_decimals (100 * a) = py_str_of_int a +:+ ".00".
Proof.
  intros Ha. unfold two_decimals.
  replace (100 * a) with (a * 100) by lia.
  rewrite Z.div_mul, Z.mod_mul by lia. reflexivity.
Qed.

Lemma hundredths_whole (a : Z) (m : positive) (e : Z) :
  e <= 0 -> Zpos m = a * 2 ^ (- e) -> hundredths m e = 100 * a.
Proof.
  intros He Hm. destruct e as [|p|p]; try lia; unfold hundredths; cbv iota.
  - change (2 ^ (- 0)) with 1 in Hm. change (2 ^ 0) with 1. lia.
  - rewrite Hm. change (- Zneg p) with (Zpos p).
    rewrite Z.mul_assoc. apply round_half_even_div_multiple. apply pow2_pos. lia.
Qed.

(** X16.  A size below 1024, a negative one included, is printed as the
    integer with two zero decimals, in bytes. *)
Theorem format_size_bytes (n : Z) :
  - 2 ^ 53 < n < 1024 ->
  format_size (PyInt n) = Ok (py_str_of_int n +:+ ".00 B").
Proof.
  intros [Hlo Hhi]. unfold format_size. cbn [format_size_from lt_1024].
  destruct (Z.ltb_spec n 1024); [|lia].
  destruct (Z.eq_dec n 0) as [->|Hn]; [reflexivity|].
  unfold format_2f, py_float_of_int.
  rewrite float64_of_int by lia. cbn [is_finite mbind result_bind float_2f].
  set (d := Zdigits2 n).
  assert (Hd : 0 < d <= 53).
  { unfold d. destruct n as [|p|p]; [lia|..]; cbn [Zdigits2];
      pose proof (Zdigits2_bounds (Zpos p) ltac:(lia)) as (? & ? & ?);
      cbn [Zdigits2] in *; (split; [lia|]);
      apply (Zdigits2_le (Zpos p)); lia. }
  pose proof (pow2_pos (53 - d) ltac:(lia)) as Hpp.
  rewrite (hundredths_whole (Z.abs n)).
  - rewrite two_decimals_whole by lia. f_equal.
    destruct n as [|p|p]; [lia|..]; cbn [Z.ltb Z.compare Z.abs].
    + change ("" +:+ ?s) with s. rewrite string_app_assoc. reflexivity.
    + rewrite py_str_of_int_neg, !string_app_assoc. reflexivity.
  - lia.
  - rewrite Z2Pos.id by nia. do 2 f_equal. lia.
Qed.

Local Close Scope Z_scope.

Lemma format_size_from_float (units : list string) (x : spec_float) :
  exists s, format_size_from units (PyFloat x) = Ok s.
Proof.
  revert x. induction units as [|unit units IH]; intros x; cbn [format_size_from].
  - cbn [format_2f mbind result_bind]. eauto.
  - destruct (lt_1024 (PyFloat x)).
    + cbn [format_2f mbind result_bind]. eauto.
    + cbn [div_1024 mbind result_bind]. apply IH.
Qed.

(** X17.  [format_size] returns a text for every float (a NaN and the
    infinities included); for an integer it raises exactly when the
    integer is too large for a float, and the exception is then
    [OverflowError]. *)
Theorem format_size_raises_on_overflow_only :
  (forall x, exists s, format_size (PyFloat x) = Ok s) /\
  (forall n,
     if is_finite (float_of_int float64 n)
     then exists s, format_size (PyInt n) = Ok s
     else format_size (PyInt n) = Raise OverflowError).
Proof.
  split; [intros x; apply format_size_from_float|].
  intros n. unfold format_size.
  change (format_size_from ["B"; "KB"; "MB"; "GB"] (PyInt n))
    with (if lt_1024 (PyInt n)
          then s ← format_2f (PyInt n); Ok (s +:+ " " +:+ "B")
          else x ← div_1024 (PyInt n); format_size_from ["KB"; "MB"; "GB"] (PyFloat x)).
  unfold format_2f, div_1024, py_float_of_int.
  destruct (is_finite (float_of_int float64 n)).
  - destruct (lt_1024 (PyInt n)); cbn [mbind result_bind]; [eauto|].
    apply format_size_from_float.
  - destruct (lt_1024 (PyInt n)); reflexivity.
Qed.

Module Sample.
Import EmbeddingGenerator.

Definition cast_zero : spec_float -> Z := fun _ => 0%Z.

Definition f32 (z : Z) : spec_float := float_of_int float32 z.
Definition f64 (z : Z) : spec_float := float_of_int float64 z.

(** Three words, two of which share their embedding row. *)
Definition sample_words : list string := ["water"; "river"; "house"].
Definition sample_embeddings : ndarray :=
{| dtype := float32; rows := [[f32 0; f32 1]; [f32 0; f32 1]; [f32 1; f32 0]] |}.
Definition sample_coords : ndarray :=
{| dtype := float32; rows := [[f32 0; f32 3]; [f32 1; f32 2]; [f32 5; f32 4]] |}.

Definition sample_generator : generator :=
{| embeddings := Some sample_embeddings; words := Some sample_words;
   umap_coords := Some sample_coords |}.

(** A toy corpus and dictionary. *)
Definition sample_brown : list string :=
["Water"; "water"; "water"; "river"; "River"; "river"; "river"; "the"; "the"; "the";
 "house"; "House"; "house"; "it's"; "x1"; "ox"; "ox"; "ox"].
Definition sample_dictionary : list string := ["water"; "River"; "house"; "the"; "ox"].
Definition downloads_ok : string -> result unit := fun _ => Ok ().

(** A toy model (the length of the word and a constant), a toy UMAP (the
  row index and a constant, for the requested number of components),
  and a toy similarity. *)
Definition toy_encode (ws : list string) : ndarray :=
{| dtype := float32;
   rows := map (fun w => [f32 (Z.of_nat (String.length w)); f32 1]) ws |}.
Definition toy_umap (n_components _ : Z) (e : ndarray) : ndarray :=
{| dtype := float32;
   rows := imap (fun i _ => repeat (f32 (Z.of_nat i)) (Z.to_nat n_components)) (rows e) |}.
Definition toy_cosine (t : float_dtype) (a b : list spec_float) : spec_float :=
match a, b with
| x :: _, y :: _ => fmul t x y
| _, _ => float_of_int t 0
end.

(** Toy codecs: every serializer writes a fixed text. *)
Definition toy_json (_ : json) : string := "{}".
Definition toy_codec (s : string) : string := s.
Definition toy_savez (_ _ : ndarray) (_ : list string) : string := "npz".
Definition toy_tobytes (_ : ndarray) : string := "raw".
Definition empty_world : world := {| files := ∅; dirs := ∅; printed := [] |}.
(** The world in which the script finds the directory [outputs]. *)
Definition outputs_world : world :=
{| files := ∅; dirs := {[ ["outputs"] ]}; printed := [] |}.
End Sample.


Import Sample EmbeddingGenerator.

Lemma numeric_sample_coords : numeric sample_coords.
Proof. unfold numeric. repeat (constructor; [split; reflexivity|]). constructor. Qed.

Lemma quantize_to_uint8_range_min_max_witness :
  (forall x, (0 <= astype_uint cast_zero 8
                     (rescale float32 (f32 0)
                        (fdiv float32 (float_of_int float32 255) (fsub float32 (f32 5) (f32 0))) x)
              <= 255)%Z) /\
  (let q := astype_uint cast_zero 8
              (rescale float32 (f32 0)
                 (fdiv float32 (float_of_int float32 255) (fsub float32 (f32 5) (f32 0))) (f32 5)) in
   q = 254%Z \/ q = 255%Z) /\
  exists q scale, quantize_to_uint8 cast_zero sample_coords = Ok (q, f32 0, f32 5, scale).
Proof.
  destruct (quantize_to_uint8_range_min_max cast_zero sample_coords (f32 0) (f32 5))
    as (Hrun & _ & Hrange & _ & Hmax).
  - cbn. lia.
  - exact numeric_sample_coords.
  - reflexivity.
  - reflexivity.
  - reflexivity.
  - split; [exact Hrange|]. split; [|eexists _, _; exact Hrun].
    apply Hmax.
    + cbn. lia.
    + cbn. lia.
    + reflexivity.
    + reflexivity.
    + unfold sample_coords, flat. cbn. do 4 apply list_elem_of_further. apply list_elem_of_here.
    + reflexivity.
Defined.

Lemma frequency_sorted_words_selected_witness :
  exists ws,
    get_frequency_sorted_words downloads_ok sample_brown sample_dictionary 2 = Ok ws /\
    (Z.of_nat (length ws) <= 2)%Z /\
    Forall (fun w =>
              isalpha w = true /\
              3 <= String.length w <= 12 /\
              (w ∉ stop_words) /\
              3 <= occurrences w (brown_words sample_brown) /\
              w ∈ valid_words sample_dictionary) ws /\
    (forall i j wi wj, i <= j -> ws !! i = Some wi -> ws !! j = Some wj ->
                       occurrences wj (brown_words sample_brown)
                       <= occurrences wi (brown_words sample_brown)).
Proof.
  apply (frequency_sorted_words_selected downloads_ok sample_brown sample_dictionary 2).
  - reflexivity.
  - reflexivity.
  - vm_compute. discriminate.
  - lia.
Defined.

(** C2 as stated fails for a negative count: the slice [[:-1]] drops the
    last word only, and the list that is returned is longer than
    [n_words]. *)
Lemma negative_count_returns_more :
  get_frequency_sorted_words downloads_ok sample_brown sample_dictionary (-1)
  = Ok ["river"; "water"] /\
  ~ (Z.of_nat (length ["river"; "water"]) <= -1)%Z.
Proof. split; [vm_compute; reflexivity | cbn; lia]. Qed.

Lemma collision_rate_is_duplicate_share_witness :
  exists q rate groups,
    quantize_to_uint cast_zero sample_embeddings 8 = Ok q /\
    analyze_collisions cast_zero sample_embeddings sample_words 8 = Ok (rate, groups) /\
    let total := Z.of_nat (length (rows sample_embeddings)) in
    let unique := Z.of_nat (size (list_to_set q : gset (list Z))) in
    (rate == inject_Z (total - unique) / inject_Z total)%Q /\
    (NoDup q -> (rate, groups) = (0%Q, [])) /\
    (0 <= rate < 1)%Q.
Proof.
  apply (collision_rate_is_duplicate_share cast_zero sample_embeddings sample_words 8).
  - discriminate.
  - reflexivity.
  - lia.
Defined.


(** On the sample the two first words collide: one group, rate 1/3. *)
Example sample_collisions :
  analyze_collisions cast_zero sample_embeddings sample_words 8
  = Ok ((1 # 3)%Q, [["water"; "river"]]).
Proof. vm_compute. reflexivity. Qed.

Lemma export_formats_count_witness :
  exists formats w',
    export_data cast_zero toy_cosine true false toy_json toy_codec toy_codec toy_codec
      toy_savez toy_tobytes toy_tobytes toy_codec "out" (f64 0) sample_generator empty_world
    = (Ok formats, w') /\
    size formats = 9 + 1 + 0 /\
    (forall name n, formats !! name = Some n ->
       exists file content,
         files w' !! file = Some content /\ n = String.length content).
Proof.
  apply (export_formats_count cast_zero toy_cosine true false toy_json toy_codec toy_codec
           toy_codec toy_savez toy_tobytes toy_tobytes toy_codec
           ltac:(discriminate) sample_generator sample_embeddings sample_coords sample_words).
  - reflexivity.
  - reflexivity.
  - reflexivity.
  - discriminate.
  - discriminate.
  - reflexivity.
  - reflexivity.
  - right. reflexivity.
  - intros name Hname. unfold export_file_names in Hname.
    repeat (apply elem_of_cons in Hname as [->|Hname]; [vm_compute; reflexivity|]).
    apply elem_of_nil in Hname. contradiction.
Defined.

(** C5 as stated fails: with both optional codecs installed the call
    returns a dictionary of eleven entries, not twelve. *)
Lemma export_formats_eleven_at_most :
  match (export_data cast_zero toy_cosine true true toy_json toy_codec toy_codec toy_codec
           toy_savez toy_tobytes toy_tobytes toy_codec "out" (f64 0) sample_generator
           empty_world).1 with
  | Ok formats => size formats = 11 /\ size formats <> 12
  | Raise _ => False
  end.
Proof. vm_compute. split; [reflexivity | discriminate]. Qed.

Lemma toy_encode_rows ws : length (rows (toy_encode ws)) = length ws.
Proof. unfold toy_encode. cbn. apply length_map. Qed.

Lemma toy_umap_shape n_components random_state e :
  (0 < n_components)%Z ->
  length (rows (toy_umap n_components random_state e)) = length (rows e) /\
  Forall (fun r => Z.of_nat (length r) = n_components)
         (rows (toy_umap n_components random_state e)).
Proof.
  intros Hn. unfold toy_umap. cbn [rows]. split; [apply length_imap|].
  apply Forall_forall. intros r Hr.
  apply list_elem_of_lookup in Hr as [i Hi]. rewrite list_lookup_imap in Hi.
  destruct (rows e !! i); [|discriminate]. injection Hi as <-.
  rewrite repeat_length. lia.
Qed.

Lemma one_row_per_word_two_columns_witness :
  let '(r1, g1) := generate_embeddings toy_encode sample_words init in
  let '(r2, g2) :=
    generate_umap_coordinates toy_umap default_n_components default_random_state g1 in
  exists e c,
    r1 = Ok e /\ r2 = Ok c /\
    words g2 = Some sample_words /\ embeddings g2 = Some e /\ umap_coords g2 = Some c /\
    length (rows e) = length sample_words /\
    length (rows c) = length sample_words /\
    Forall (fun r => length r = 2) (rows c).
Proof.
  exact (one_row_per_word_two_columns toy_encode toy_umap toy_encode_rows toy_umap_shape
           sample_words init).
Defined.

Lemma sample_generator_stores : stores sample_generator sample_words.
Proof. split; [reflexivity|]. exists sample_embeddings. split; reflexivity. Qed.

Lemma test_similarity_none_iff_absent_witness :
  (test_similarity toy_cosine "water" "sea" sample_generator = Ok None
     <-> ("water" ∉ sample_words \/ "sea" ∉ sample_words)) /\
  ("water" ∈ sample_words -> "sea" ∈ sample_words ->
     exists e i1 i2 v1 v2,
       embeddings sample_generator = Some e /\
       list_index "water" sample_words = Some i1 /\
       list_index "sea" sample_words = Some i2 /\
       rows e !! i1 = Some v1 /\ rows e !! i2 = Some v2 /\
       test_similarity toy_cosine "water" "sea" sample_generator
       = Ok (Some (float_cast float64 (toy_cosine (dtype e) v1 v2)))).
Proof.
  exact (test_similarity_none_iff_absent toy_cosine sample_generator sample_words
           "water" "sea" sample_generator_stores).
Defined.

(** Both cases on the sample: a missing word gives [None], two stored
    words a float. *)
Example sample_test_similarity :
  test_similarity toy_cosine "water" "sea" sample_generator = Ok None /\
  test_similarity toy_cosine "river" "house" sample_generator
  = Ok (Some (S754_zero false)).
Proof. split; vm_compute; reflexivity. Qed.

Lemma minmax_divisor_zero_iff_constant_witness :
  exists arr_min arr_max,
    amin sample_coords = Ok arr_min /\ amax sample_coords = Ok arr_max /\
    is_zero (fsub float32 arr_max arr_min) = false.
Proof.
  destruct (minmax_divisor_zero_iff_constant cast_zero sample_coords)
    as (mn & mx & Hmin & Hmax & _ & _ & Hdistinct & _).
  - cbn. lia.
  - discriminate.
  - exact numeric_sample_coords.
  - exists mn, mx. split; [exact Hmin|]. split; [exact Hmax|].
    apply Hdistinct. exists (f32 0), (f32 3).
    split; [left|]. split; [right; left | reflexivity].
Defined.

(** A constant array: the divisor is a zero, the scale is infinite, and
    the entries are quantized from NaN. *)
Example constant_array_divides_by_zero :
  let arr := {| dtype := float32; rows := [[f32 7; f32 7]] |} in
  exists q, quantize_to_uint8 cast_zero arr = Ok (q, f32 7, f32 7, S754_infinity false) /\
            rescale float32 (f32 7) (S754_infinity false) (f32 7) = S754_nan.
Proof. eexists. split; vm_compute; reflexivity. Qed.

Lemma toy_encode_entries ws : ws <> [] -> flat (toy_encode ws) <> [].
Proof. destruct ws; [contradiction|discriminate]. Qed.

Lemma toy_umap_entries random_state e :
  flat e <> [] -> flat (toy_umap default_n_components random_state e) <> [].
Proof.
  intros H. apply rows_nonempty in H. unfold toy_umap, flat. cbn [rows].
  destruct (rows e); [contradiction|discriminate].
Qed.

Lemma pipeline_order_and_umap_guard_witness :
  exists ws w',
    get_frequency_sorted_words downloads_ok sample_brown sample_dictionary 20000 = Ok ws /\
    main cast_zero toy_cosine toy_encode toy_umap true false toy_json toy_codec
      toy_codec toy_codec toy_savez toy_tobytes toy_tobytes toy_codec downloads_ok
      sample_brown sample_dictionary (f64 0) outputs_world = (Ok (), w') /\
    printed w' = printed outputs_world ++ pipeline /\
    files w' !! ["outputs"; "output_20000"; "embeddings.npz"]
    = Some (toy_savez (toy_encode ws)
              (toy_umap default_n_components default_random_state (toy_encode ws)) ws).
Proof.
  destruct (pipeline_order_and_umap_guard cast_zero toy_cosine toy_encode toy_umap true false
              toy_json toy_codec toy_codec toy_codec toy_savez toy_tobytes toy_tobytes
              toy_codec downloads_ok sample_brown sample_dictionary (f64 0))
    as (_ & Hrun & _).
  apply (Hrun outputs_world).
  - reflexivity.
  - reflexivity.
  - vm_compute. discriminate.
  - apply toy_encode_rows.
  - apply toy_encode_entries.
  - apply toy_umap_entries.
  - discriminate.
  - vm_compute. reflexivity.
  - right. vm_compute. reflexivity.
  - intros name Hname. unfold export_file_names in Hname.
    repeat (apply elem_of_cons in Hname as [->|Hname]; [vm_compute; reflexivity|]).
    apply elem_of_nil in Hname. contradiction.
Defined.

(** A run of [main] on the sample, in a world that has the directory
    [outputs]: it returns, having printed the six stages in order and
    made the output directory. *)
Example sample_main_run :
  let r := main cast_zero toy_cosine toy_encode toy_umap true false toy_json toy_codec
             toy_codec toy_codec toy_savez toy_tobytes toy_tobytes toy_codec downloads_ok
             sample_brown sample_dictionary (f64 0) outputs_world in
  r.1 = Ok () /\ printed r.2 = pipeline /\
  is_dir r.2 ["outputs"; "output_20000"] = true.
Proof. vm_compute. repeat split; reflexivity. Qed.


(** ** The further properties on the sample *)

Lemma sample_frequent_valid_words :
  frequent_valid_words sample_brown sample_dictionary
  = [("river", 4); ("water", 3); ("house", 3)].
Proof. vm_compute. reflexivity. Qed.

Lemma frequency_sorted_words_distinct_witness :
  get_frequency_sorted_words downloads_ok sample_brown sample_dictionary 20000
  = Ok ["river"; "water"; "house"] /\
  NoDup ["river"; "water"; "house"].
Proof.
  split; [vm_compute; reflexivity|].
  apply (frequency_sorted_words_distinct downloads_ok sample_brown sample_dictionary 20000).
  vm_compute. reflexivity.
Defined.

Lemma frequency_sorted_words_lowercase_witness :
  Forall (fun w => all_chars is_lower w = true) ["river"; "water"; "house"].
Proof.
  apply (frequency_sorted_words_lowercase downloads_ok sample_brown sample_dictionary 20000).
  vm_compute. reflexivity.
Defined.

Lemma frequency_sorted_words_index_error_witness :
  (get_frequency_sorted_words downloads_ok sample_brown sample_dictionary (-3)
   = Raise IndexError
   <-> frequent_valid_words sample_brown sample_dictionary = [] \/
       (-3 <= - Z.of_nat (length (frequent_valid_words sample_brown sample_dictionary)))%Z) /\
  (frequent_valid_words sample_brown sample_dictionary <> [] ->
   (- Z.of_nat (length (frequent_valid_words sample_brown sample_dictionary)) < -3)%Z ->
   exists ws,
     get_frequency_sorted_words downloads_ok sample_brown sample_dictionary (-3) = Ok ws /\
     ws = map fst (py_slice_to (frequent_valid_words sample_brown sample_dictionary) (-3)) /\
     Z.of_nat (length ws)
     = if (-3 <? 0)%Z
       then (Z.of_nat (length (frequent_valid_words sample_brown sample_dictionary)) + -3)%Z
       else Z.min (-3) (Z.of_nat (length (frequent_valid_words sample_brown sample_dictionary)))).
Proof.
  apply (frequency_sorted_words_index_error downloads_ok sample_brown sample_dictionary (-3)).
  - reflexivity.
  - reflexivity.
Defined.

Lemma frequency_sorted_words_most_frequent_witness :
  get_frequency_sorted_words downloads_ok sample_brown sample_dictionary 2
  = Ok ["river"; "water"] /\
  3 <= occurrences "water" (brown_words sample_brown).
Proof.
  split; [vm_compute; reflexivity|].
  apply (frequency_sorted_words_most_frequent downloads_ok sample_brown sample_dictionary 2
           ["river"; "water"] ltac:(vm_compute; reflexivity) "house" 3 "water").
  - rewrite sample_frequent_valid_words.
    do 2 apply list_elem_of_further. apply list_elem_of_here.
  - intros H. apply elem_of_cons in H as [H|H]; [discriminate|].
    apply elem_of_cons in H as [H|H]; [discriminate|]. apply elem_of_nil in H. exact H.
  - apply list_elem_of_further, list_elem_of_here.
Defined.

Lemma frequency_sorted_words_complete_witness :
  "house" ∈ ["river"; "water"; "house"] <->
  "house" ∈ valid_words sample_dictionary /\ ("house" ∉ stop_words) /\
  3 <= String.length "house" <= 12 /\ isalpha "house" = true /\
  3 <= occurrences "house" (brown_words sample_brown).
Proof.
  apply (frequency_sorted_words_complete downloads_ok sample_brown sample_dictionary 20000
           ["river"; "water"; "house"]).
  - vm_compute. reflexivity.
  - rewrite sample_frequent_valid_words. cbn. lia.
Defined.

Lemma frequency_sorted_words_prefix_witness :
  ["river"] `prefix_of` ["river"; "water"].
Proof.
  apply (frequency_sorted_words_prefix downloads_ok sample_brown sample_dictionary 1 2).
  - vm_compute. reflexivity.
  - vm_compute. reflexivity.
  - lia.
Defined.

Lemma similarity_collision_rate_witness :
  exists (rate : Q) (distinct : nat),
    analyze_similarity_collisions cast_zero toy_cosine sample_embeddings sample_words
      None 8 = Ok rate /\
    1 <= distinct <= 256 /\
    distinct <= length sample_words /\
    (rate == inject_Z (Z.of_nat (length sample_words) - Z.of_nat distinct)
             / inject_Z (Z.of_nat (length sample_words)))%Q /\
    (0 <= rate < 1)%Q.
Proof.
  apply (similarity_collision_rate cast_zero toy_cosine sample_embeddings sample_words None 8).
  - discriminate.
  - reflexivity.
  - lia.
Defined.

Lemma quantizers_reject_arrays_without_entries_witness :
  let arr := {| dtype := float32; rows := [[]; []] |} in
  quantize_to_uint8 cast_zero arr = Raise ValueError /\
  quantize_to_uint cast_zero arr 8 = Raise ValueError /\
  analyze_collisions cast_zero arr ["water"; "river"] 8 = Raise ValueError.
Proof.
  apply (quantizers_reject_arrays_without_entries cast_zero
           {| dtype := float32; rows := [[]; []] |} ["water"; "river"] 8).
  reflexivity.
Defined.

Lemma export_data_before_generation_witness :
  export_data cast_zero toy_cosine true false toy_json toy_codec toy_codec toy_codec
    toy_savez toy_tobytes toy_tobytes toy_codec "out" (f64 0) init empty_world
  = (Raise AttributeError,
     {| files := ∅; dirs := {[ ["out"] ]} ∪ ∅; printed := [Export] |}).
Proof.
  exact (export_data_before_generation cast_zero toy_cosine true false toy_json toy_codec
           toy_codec toy_codec toy_savez toy_tobytes toy_tobytes toy_codec (f64 0)
           "out" init empty_world
           {| files := ∅; dirs := {[ ["out"] ]} ∪ ∅; printed := [] |}
           eq_refl (or_introl eq_refl)).
Defined.


Lemma format_size_bytes_witness :
  format_size (PyInt 512) = Ok "512.00 B" /\
  format_size (PyInt (-7)) = Ok "-7.00 B".
Proof.
  split.
  - apply (format_size_bytes 512). split; [reflexivity|lia].
  - apply (format_size_bytes (-7)). split; [reflexivity|lia].
Defined.
